(** * py_stringsimjoin: position index, position filter and join drivers

    A shallow embedding of the filter-verify pipeline of py_stringsimjoin:
    [index/position_index.py], [filter/position_filter.py],
    [join/set_sim_join.py], [join/edit_distance_join.py] and the flag
    handling of [join/dice_join.py], [join/jaccard_join.py] and
    [join/overlap_join.py]; and of [index/size_index.py],
    [join/black_box_join.py] and the batching of [utils/mur_utils.py].

    Python dictionaries are stdpp [gmap]s, Python integers are [Z], lists
    are [list]s.  A raised exception ([KeyError], [IndexError], a failed
    validation) is [None] in the option monad. *)

From Stdlib Require Import ZArith QArith Qround String Ascii List Lia.
From stdpp Require Import gmap strings list sorting.

Local Open Scope Z_scope.

(** ** Python list primitives *)

(** [l[0:stop]]: a negative [stop] counts from the end, and the result is
    clipped to the list. *)
Definition py_slice_to {A : Type} (l : list A) (stop : Z) : list A :=
  let n := Z.of_nat (length l) in
  let stop' := if stop <? 0 then Z.max 0 (stop + n) else Z.min stop n in
  take (Z.to_nat stop') l.

(** [xrange(lo, hi)]: the integers [lo], ..., [hi - 1]. *)
Definition xrange (lo hi : Z) : list Z := seqZ lo (hi - lo).

(** [len(l)] as a Python integer. *)
Definition len {A : Type} (l : list A) : Z := Z.of_nat (length l).

(** ** Data model *)

(** The similarity measure, a string constant in the source. *)
Inductive SimMeasure := COSINE | DICE | EDIT_DISTANCE | JACCARD | OVERLAP.

(** The comparison operator, a string constant in the source. *)
Inductive CompOp := OpGe | OpGt | OpEq | OpLe | OpLt.

(** A tokenizer object of py_stringmatching: its kind and parameters, and
    the mutable [return_set] flag. *)
Inductive TokKind := Delimiter (delim : ascii) | Qgram (qval : nat).

Record Tokenizer := mkTokenizer {
  tok_kind : TokKind;
  return_set : bool
}.

Definition get_return_set (t : Tokenizer) : bool := return_set t.

Definition set_return_set (b : bool) (t : Tokenizer) : Tokenizer :=
  {| tok_kind := tok_kind t; return_set := b |}.

(** A table row with the key attribute and the join attribute (converted
    with [str]) picked out; the remaining attributes pass through. *)
Record Row (K : Type) := mkRow {
  row_key : K;
  row_join : string;
  row_rest : list string
}.
Arguments mkRow {K} _ _ _.
Arguments row_key {K} _.
Arguments row_join {K} _.
Arguments row_rest {K} _.

(** An output row: the two keys, the projected attributes and the
    similarity score when [out_sim_score] is set. *)
Record OutRow (K S : Type) := mkOutRow {
  out_l : K;
  out_r : K;
  out_attrs : list string;
  out_score : option S
}.
Arguments mkOutRow {K S} _ _ _ _.
Arguments out_l {K S} _.
Arguments out_r {K S} _.
Arguments out_attrs {K S} _.
Arguments out_score {K S} _.

(** ** Collaborators that live outside the modelled files

    [filter_utils], [tokenizers], [token_ordering], [simfunctions] and
    [helper_functions], and the tokenizers of py_stringmatching, are used
    by the modelled code through these operations, which read the
    tokenizer and leave it as it is.  [Th] is the type of thresholds,
    [Score] of similarity scores. *)
Class Collaborators (K Th Score : Type) := {
  (** [tokenizer.tokenize(s)] *)
  tokenizer_tokenize : Tokenizer -> string -> list string;
  (** [utils.tokenizers.tokenize(s, tokenizer, sim_measure_type)] *)
  tokenize : string -> Tokenizer -> SimMeasure -> list string;
  gen_token_ordering_for_tables :
    list (list (Row K)) -> Tokenizer -> SimMeasure -> gmap string Z;
  gen_token_ordering_for_lists : list (list string) -> gmap string Z;
  order_using_token_ordering : list string -> gmap string Z -> list Z;
  get_prefix_length : Z -> SimMeasure -> Th -> Tokenizer -> Z;
  get_overlap_threshold : Z -> Z -> SimMeasure -> Th -> Tokenizer -> Z;
  get_size_lower_bound : Z -> SimMeasure -> Th -> Z;
  get_size_upper_bound : Z -> SimMeasure -> Th -> Z;
  (** [get_sim_function(sim_measure_type)] on ordered token lists *)
  get_sim_function : SimMeasure -> option (list Z -> list Z -> Score);
  (** [sim_score >= threshold] *)
  score_ge : Score -> Th -> bool;
  (** [get_output_row_from_tables]: the attributes after the two keys *)
  project_attrs : Row K -> Row K -> list string
}.

(** ** index/position_index.py *)

Section PositionIndex.
Context {K Th Score : Type} `{Countable K} `{!Collaborators K Th Score}.

Record PositionIndex := mkPositionIndex {
  pi_table : list (Row K);
  pi_tokenizer : Tokenizer;
  pi_sim_measure_type : SimMeasure;
  pi_threshold : Th;
  pi_token_ordering : gmap string Z;
  pi_index : gmap Z (list (K * Z));
  pi_size_map : gmap K Z
}.

(** [PositionIndex.__init__]: both dictionaries start empty. *)
Definition PositionIndex_init (table : list (Row K)) (tokenizer : Tokenizer)
    (sim_measure_type : SimMeasure) (threshold : Th)
    (token_ordering : gmap string Z) : PositionIndex :=
  mkPositionIndex table tokenizer sim_measure_type threshold token_ordering ∅ ∅.

(** The inner loop of [build]: one posting per prefix token, [pos]
    counting up. *)
Fixpoint build_postings (tokens : list Z) (row_id : K) (pos : Z)
    (index : gmap Z (list (K * Z))) : gmap Z (list (K * Z)) :=
  match tokens with
  | [] => index
  | token :: rest =>
      let index1 :=
        match index !! token with
        | None => <[token := []]> index
        | Some _ => index
        end in
      let index2 :=
        <[token := default [] (index1 !! token) ++ [(row_id, pos)]]> index1 in
      build_postings rest row_id (pos + 1) index2
  end.

(** The tokens of a row as [build] orders them. *)
Definition index_attr_tokens (self : PositionIndex) (row : Row K) : list Z :=
  order_using_token_ordering
    (tokenizer_tokenize (pi_tokenizer self) (row_join row))
    (pi_token_ordering self).

(** The body of the outer loop of [build]. *)
Definition build_row (self : PositionIndex) (row : Row K) : PositionIndex :=
  let index_attr_tokens := index_attr_tokens self row in
  let num_tokens := len index_attr_tokens in
  let prefix_length :=
    get_prefix_length num_tokens (pi_sim_measure_type self)
      (pi_threshold self) (pi_tokenizer self) in
  let row_id := row_key row in
  let index' :=
    build_postings (py_slice_to index_attr_tokens prefix_length) row_id 0
      (pi_index self) in
  mkPositionIndex (pi_table self) (pi_tokenizer self)
    (pi_sim_measure_type self) (pi_threshold self) (pi_token_ordering self)
    index' (<[row_id := num_tokens]> (pi_size_map self)).

Definition build (self : PositionIndex) : PositionIndex :=
  foldl build_row self (pi_table self).

Definition probe (self : PositionIndex) (token : Z) : list (K * Z) :=
  default [] (pi_index self !! token).

Definition get_size (self : PositionIndex) (row_id : K) : option Z :=
  pi_size_map self !! row_id.

End PositionIndex.

Arguments PositionIndex K Th {_ _}.

(** ** filter/position_filter.py *)

Section PositionFilter.
Context {K Th Score : Type} `{Countable K} `{!Collaborators K Th Score}.

Record PositionFilter := mkPositionFilter {
  pf_tokenizer : Tokenizer;
  pf_sim_measure_type : SimMeasure;
  pf_threshold : Th
}.

(** The first loop of [filter_pair].  Its state is the dictionary and
    [l_pos]; the body stores [l_pos] and leaves it as it is. *)
Definition l_prefix_dict_loop (tokens : list Z) : gmap Z Z * Z :=
  foldl (fun (st : gmap Z Z * Z) token =>
           let '(l_prefix_dict, l_pos) := st in
           (<[token := l_pos]> l_prefix_dict, l_pos))
        (∅, 0) tokens.

(** The second loop of [filter_pair], with its early [return True]. *)
Fixpoint filter_pair_sweep (l_prefix_dict : gmap Z Z)
    (l_num_tokens r_num_tokens overlap_threshold : Z)
    (tokens : list Z) (current_overlap r_pos : Z) : bool :=
  match tokens with
  | [] => if current_overlap >? 0 then false else true
  | token :: rest =>
      match l_prefix_dict !! token with
      | Some l_pos =>
          let overlap_upper_bound :=
            1 + Z.min (l_num_tokens - l_pos - 1) (r_num_tokens - r_pos - 1) in
          if current_overlap + overlap_upper_bound <? overlap_threshold
          then true
          else filter_pair_sweep l_prefix_dict l_num_tokens r_num_tokens
                 overlap_threshold rest (current_overlap + 1) (r_pos + 1)
      | None =>
          filter_pair_sweep l_prefix_dict l_num_tokens r_num_tokens
            overlap_threshold rest current_overlap (r_pos + 1)
      end
  end.

(** The ordered token lists of the two strings under the ad-hoc
    two-record ordering. *)
Definition pair_ordered_tokens (self : PositionFilter)
    (lstring rstring : string) : list Z * list Z :=
  let ltokens := tokenize lstring (pf_tokenizer self) (pf_sim_measure_type self) in
  let rtokens := tokenize rstring (pf_tokenizer self) (pf_sim_measure_type self) in
  let token_ordering := gen_token_ordering_for_lists [ltokens; rtokens] in
  (order_using_token_ordering ltokens token_ordering,
   order_using_token_ordering rtokens token_ordering).

(** The dictionary [l_prefix_dict] that [filter_pair] builds. *)
Definition pair_l_prefix_dict (self : PositionFilter)
    (lstring rstring : string) : gmap Z Z :=
  let ordered_ltokens := (pair_ordered_tokens self lstring rstring).1 in
  let l_num_tokens := len ordered_ltokens in
  let l_prefix_length :=
    get_prefix_length l_num_tokens (pf_sim_measure_type self)
      (pf_threshold self) (pf_tokenizer self) in
  (l_prefix_dict_loop (py_slice_to ordered_ltokens l_prefix_length)).1.

Definition filter_pair (self : PositionFilter) (lstring rstring : string) : bool :=
  if bool_decide (lstring = EmptyString) || bool_decide (rstring = EmptyString)
  then true
  else
    let '(ordered_ltokens, ordered_rtokens) :=
      pair_ordered_tokens self lstring rstring in
    let l_num_tokens := len ordered_ltokens in
    let r_num_tokens := len ordered_rtokens in
    let r_prefix_length :=
      get_prefix_length r_num_tokens (pf_sim_measure_type self)
        (pf_threshold self) (pf_tokenizer self) in
    let l_prefix_dict := pair_l_prefix_dict self lstring rstring in
    let overlap_threshold :=
      get_overlap_threshold l_num_tokens r_num_tokens
        (pf_sim_measure_type self) (pf_threshold self) (pf_tokenizer self) in
    filter_pair_sweep l_prefix_dict l_num_tokens r_num_tokens overlap_threshold
      (py_slice_to ordered_rtokens r_prefix_length) 0 0.

(** The dictionary of the left prefix as section 4.6 of the specification
    describes it: each token with its position, [l_pos] counting up. *)
Definition l_prefix_dict_by_position (tokens : list Z) : gmap Z Z * Z :=
  foldl (fun (st : gmap Z Z * Z) token =>
           let '(l_prefix_dict, l_pos) := st in
           (<[token := l_pos]> l_prefix_dict, l_pos + 1))
        (∅, 0) tokens.

(** The single-pair filter over that dictionary. *)
Definition filter_pair_by_position (self : PositionFilter)
    (lstring rstring : string) : bool :=
  if bool_decide (lstring = EmptyString) || bool_decide (rstring = EmptyString)
  then true
  else
    let '(ordered_ltokens, ordered_rtokens) :=
      pair_ordered_tokens self lstring rstring in
    let l_num_tokens := len ordered_ltokens in
    let r_num_tokens := len ordered_rtokens in
    let l_prefix_length :=
      get_prefix_length l_num_tokens (pf_sim_measure_type self)
        (pf_threshold self) (pf_tokenizer self) in
    let r_prefix_length :=
      get_prefix_length r_num_tokens (pf_sim_measure_type self)
        (pf_threshold self) (pf_tokenizer self) in
    let l_prefix_dict :=
      (l_prefix_dict_by_position
         (py_slice_to ordered_ltokens l_prefix_length)).1 in
    let overlap_threshold :=
      get_overlap_threshold l_num_tokens r_num_tokens
        (pf_sim_measure_type self) (pf_threshold self) (pf_tokenizer self) in
    filter_pair_sweep l_prefix_dict l_num_tokens r_num_tokens overlap_threshold
      (py_slice_to ordered_rtokens r_prefix_length) 0 0.

(** [overlap_threshold_cache]: one entry per size in
    [xrange(size_lower_bound, size_upper_bound + 1)]. *)
Definition overlap_threshold_cache (self : PositionFilter)
    (r_num_tokens size_lower_bound size_upper_bound : Z) : gmap Z Z :=
  foldl (fun (cache : gmap Z Z) size =>
           <[size := get_overlap_threshold size r_num_tokens
                       (pf_sim_measure_type self) (pf_threshold self)
                       (pf_tokenizer self)]> cache)
        ∅ (xrange size_lower_bound (size_upper_bound + 1)).

(** The body of the inner loop of [_find_candidates] for one posting.
    [get_size] answers [None] for an unknown row, which Python 2 orders
    below every integer, so the size test fails.  A size missing from
    the cache is a [KeyError]. *)
Definition probe_posting (r_num_tokens r_pos size_lower_bound size_upper_bound : Z)
    (cache : gmap Z Z) (position_index : PositionIndex K Th)
    (candidate_overlap : gmap K Z) (posting : K * Z) : option (gmap K Z) :=
  let '(cand, cand_pos) := posting in
  match get_size position_index cand with
  | None => Some candidate_overlap
  | Some cand_num_tokens =>
      if (size_lower_bound <=? cand_num_tokens)
         && (cand_num_tokens <=? size_upper_bound)
      then
        let overlap_upper_bound :=
          1 + Z.min (r_num_tokens - r_pos - 1)
                    (cand_num_tokens - cand_pos - 1) in
        let current_overlap := default 0 (candidate_overlap !! cand) in
        overlap_threshold ← cache !! cand_num_tokens;
        if current_overlap + overlap_upper_bound >=? overlap_threshold
        then Some (<[cand := current_overlap + 1]> candidate_overlap)
        else Some (<[cand := 0]> candidate_overlap)
      else Some candidate_overlap
  end.

(** The inner loop: the postings of one probe token. *)
Fixpoint probe_postings (r_num_tokens r_pos size_lower_bound size_upper_bound : Z)
    (cache : gmap Z Z) (position_index : PositionIndex K Th)
    (postings : list (K * Z)) (candidate_overlap : gmap K Z)
    : option (gmap K Z) :=
  match postings with
  | [] => Some candidate_overlap
  | posting :: rest =>
      candidate_overlap' ←
        probe_posting r_num_tokens r_pos size_lower_bound size_upper_bound
          cache position_index candidate_overlap posting;
      probe_postings r_num_tokens r_pos size_lower_bound size_upper_bound
        cache position_index rest candidate_overlap'
  end.

(** The outer loop: the probe prefix, [r_pos] counting up. *)
Fixpoint probe_tokens (r_num_tokens size_lower_bound size_upper_bound : Z)
    (cache : gmap Z Z) (position_index : PositionIndex K Th)
    (tokens : list Z) (r_pos : Z) (candidate_overlap : gmap K Z)
    : option (gmap K Z) :=
  match tokens with
  | [] => Some candidate_overlap
  | token :: rest =>
      candidate_overlap' ←
        probe_postings r_num_tokens r_pos size_lower_bound size_upper_bound
          cache position_index (probe position_index token) candidate_overlap;
      probe_tokens r_num_tokens size_lower_bound size_upper_bound cache
        position_index rest (r_pos + 1) candidate_overlap'
  end.

Definition _find_candidates (self : PositionFilter)
    (r_ordered_tokens : list Z) (r_num_tokens r_prefix_length : Z)
    (position_index : PositionIndex K Th) : option (gmap K Z) :=
  let size_lower_bound :=
    get_size_lower_bound r_num_tokens (pf_sim_measure_type self)
      (pf_threshold self) in
  let size_upper_bound :=
    get_size_upper_bound r_num_tokens (pf_sim_measure_type self)
      (pf_threshold self) in
  let cache :=
    overlap_threshold_cache self r_num_tokens size_lower_bound
      size_upper_bound in
  probe_tokens r_num_tokens size_lower_bound size_upper_bound cache
    position_index (py_slice_to r_ordered_tokens r_prefix_length) 0 ∅.

End PositionFilter.

Arguments PositionFilter Th : clear implicits.

(** A loop whose body may raise. *)
Fixpoint foldl_opt {A B : Type} (f : A -> B -> option A) (a : A) (l : list B)
    : option A :=
  match l with
  | [] => Some a
  | x :: rest => a' ← f a x; foldl_opt f a' rest
  end.

(** [l[i]]: a negative index counts from the end; out of range is an
    [IndexError]. *)
Definition py_index {A : Type} (l : list A) (i : Z) : option A :=
  if 0 <=? i then l !! Z.to_nat i
  else if - len l <=? i then l !! Z.to_nat (i + len l)
  else None.

(** ** join/set_sim_join.py *)

Section SetSimJoin.
Context {K Th Score : Type} `{Countable K} `{!Collaborators K Th Score}.

(** [build_dict_from_table]: the rows under their keys. *)
Definition build_dict_from_table (table : list (Row K)) : gmap K (Row K) :=
  foldl (fun (d : gmap K (Row K)) row => <[row_key row := row]> d) ∅ table.

(** [d.values()], in the order of the map. *)
Definition dict_values {V : Type} (d : gmap K V) : list V :=
  (map_to_list d).*2.

(** The cache [l_join_attr_dict] of ordered left tokens. *)
Definition build_l_join_attr_dict (rows : list (Row K)) (tokenizer : Tokenizer)
    (sim_measure_type : SimMeasure) (token_ordering : gmap string Z)
    : gmap K (list Z) :=
  foldl (fun (d : gmap K (list Z)) row =>
           <[row_key row :=
               order_using_token_ordering
                 (tokenize (row_join row) tokenizer sim_measure_type)
                 token_ordering]> d)
        ∅ rows.

(** The body of the loop over [candidate_overlap]: verification of one
    candidate.  The test on the score is [sim_score >= threshold]. *)
Definition verify_candidate (sim_fn : list Z -> list Z -> Score)
    (threshold : Th) (l_join_attr_dict : gmap K (list Z))
    (ltable_dict : gmap K (Row K)) (r_row : Row K) (r_id : K)
    (r_ordered_tokens : list Z) (has_output_attributes out_sim_score : bool)
    (output_rows : list (OutRow K Score)) (item : K * Z)
    : option (list (OutRow K Score)) :=
  let '(cand, overlap) := item in
  if overlap >? 0 then
    l_ordered_tokens ← l_join_attr_dict !! cand;
    let sim_score := sim_fn l_ordered_tokens r_ordered_tokens in
    if score_ge sim_score threshold then
      let score := if out_sim_score then Some sim_score else None in
      if has_output_attributes then
        l_row ← ltable_dict !! cand;
        Some (output_rows ++ [mkOutRow cand r_id (project_attrs l_row r_row) score])
      else
        Some (output_rows ++ [mkOutRow cand r_id [] score])
    else Some output_rows
  else Some output_rows.

(** The body of the loop over the right table. *)
Definition probe_row (tokenizer : Tokenizer) (sim_measure_type : SimMeasure)
    (threshold : Th) (token_ordering : gmap string Z)
    (position_index : PositionIndex K Th) (pos_filter : PositionFilter Th)
    (sim_fn : list Z -> list Z -> Score)
    (l_join_attr_dict : gmap K (list Z)) (ltable_dict : gmap K (Row K))
    (has_output_attributes out_sim_score : bool)
    (output_rows : list (OutRow K Score)) (r_row : Row K)
    : option (list (OutRow K Score)) :=
  let r_id := row_key r_row in
  let r_string := row_join r_row in
  let r_join_attr_tokens := tokenize r_string tokenizer sim_measure_type in
  let r_ordered_tokens :=
    order_using_token_ordering r_join_attr_tokens token_ordering in
  let r_num_tokens := len r_ordered_tokens in
  let r_prefix_length :=
    get_prefix_length r_num_tokens sim_measure_type threshold tokenizer in
  candidate_overlap ←
    _find_candidates pos_filter r_ordered_tokens r_num_tokens r_prefix_length
      position_index;
  foldl_opt
    (verify_candidate sim_fn threshold l_join_attr_dict ltable_dict r_row r_id
       r_ordered_tokens has_output_attributes out_sim_score)
    output_rows (map_to_list candidate_overlap).

(** [set_sim_join] with the parameters it declares: the tables, the
    tokenizer, the measure, the threshold, the output attributes and
    [out_sim_score].  It declares no comparison operator and no
    [allow_empty]. *)
Definition set_sim_join (ltable rtable : list (Row K)) (tokenizer : Tokenizer)
    (sim_measure_type : SimMeasure) (threshold : Th)
    (l_out_attrs r_out_attrs : option (list string)) (out_sim_score : bool)
    : option (list (OutRow K Score)) :=
  let ltable_dict := build_dict_from_table ltable in
  let rtable_dict := build_dict_from_table rtable in
  let token_ordering :=
    gen_token_ordering_for_tables
      [dict_values ltable_dict; dict_values rtable_dict]
      tokenizer sim_measure_type in
  let l_join_attr_dict :=
    build_l_join_attr_dict (dict_values ltable_dict) tokenizer
      sim_measure_type token_ordering in
  let position_index :=
    build (PositionIndex_init (dict_values ltable_dict) tokenizer
             sim_measure_type threshold token_ordering) in
  let pos_filter := mkPositionFilter tokenizer sim_measure_type threshold in
  sim_fn ← get_sim_function sim_measure_type;
  let has_output_attributes :=
    bool_decide (is_Some l_out_attrs) || bool_decide (is_Some r_out_attrs) in
  foldl_opt
    (probe_row tokenizer sim_measure_type threshold token_ordering
       position_index pos_filter sim_fn l_join_attr_dict ltable_dict
       has_output_attributes out_sim_score)
    [] (dict_values rtable_dict).

End SetSimJoin.

(** ** join/edit_distance_join.py *)

(** Modelled from the spec: [COMP_OP_MAP] of [helper_functions], which is
    not among the modelled files; the comparison operators of section 4.7
    on integers. *)
Definition COMP_OP_MAP (comp_op : CompOp) (x y : Z) : bool :=
  match comp_op with
  | OpGe => y <=? x
  | OpGt => y <? x
  | OpEq => x =? y
  | OpLe => x <=? y
  | OpLt => x <? y
  end.

(** The prefix index, the prefix filter and the edit-distance function are
    used by the edit-distance join through these operations. *)
Class EditCollaborators (K : Type) := {
  PrefixIndex : Type;
  (** [PrefixIndex(...)] followed by [build()] *)
  prefix_index_build :
    list (Row K) -> Tokenizer -> SimMeasure -> Z -> gmap string Z -> PrefixIndex;
  (** [PrefixFilter(tokenizer, sim_measure_type, threshold).find_candidates] *)
  prefix_find_candidates :
    Tokenizer -> SimMeasure -> Z -> list Z -> PrefixIndex -> list Z;
  (** [get_sim_function('EDIT_DISTANCE')] on the join strings *)
  edit_distance_sim : string -> string -> Z
}.

Section EditDistanceJoin.
Context {K Th Score : Type} `{Countable K} `{!Collaborators K Th Score}
        `{!EditCollaborators K}.

(** [len(s)] of a string. *)
Definition str_len (s : string) : Z := Z.of_nat (String.length s).

(** The cache [l_join_attr_list] of left string lengths. *)
Definition build_l_join_attr_list (ltable_list : list (Row K)) : list Z :=
  foldl (fun (acc : list Z) row => acc ++ [str_len (row_join row)])
        [] ltable_list.

(** The body of the loop over the candidates of one right row. *)
Definition verify_edit_candidate (ltable_list : list (Row K))
    (l_join_attr_list : list Z) (threshold : Z) (comp_fn : Z -> Z -> bool)
    (sim_fn : string -> string -> Z) (r_row : Row K) (r_string : string)
    (r_len : Z) (has_output_attributes out_sim_score : bool)
    (output_rows : list (OutRow K Z)) (cand : Z)
    : option (list (OutRow K Z)) :=
  l_len ← py_index l_join_attr_list cand;
  if (r_len - threshold <=? l_len) && (l_len <=? r_len + threshold) then
    l_row ← py_index ltable_list cand;
    let edit_dist := sim_fn (row_join l_row) r_string in
    if comp_fn edit_dist threshold then
      let attrs :=
        if has_output_attributes then project_attrs l_row r_row else [] in
      let score := if out_sim_score then Some edit_dist else None in
      Some (output_rows ++ [mkOutRow (row_key l_row) (row_key r_row) attrs score])
    else Some output_rows
  else Some output_rows.

Definition _edit_distance_join_split (ltable rtable : list (Row K))
    (tokenizer : Tokenizer) (threshold : Z) (comp_op : CompOp)
    (l_out_attrs r_out_attrs : option (list string)) (out_sim_score : bool)
    : option (list (OutRow K Z)) :=
  let ltable_list := ltable in
  let rtable_list := rtable in
  let sim_measure_type := EDIT_DISTANCE in
  let token_ordering :=
    gen_token_ordering_for_tables [ltable_list; rtable_list] tokenizer
      sim_measure_type in
  let l_join_attr_list := build_l_join_attr_list ltable_list in
  let prefix_index :=
    prefix_index_build ltable_list tokenizer sim_measure_type threshold
      token_ordering in
  let comp_fn := COMP_OP_MAP comp_op in
  let sim_fn := edit_distance_sim in
  let has_output_attributes :=
    bool_decide (is_Some l_out_attrs) || bool_decide (is_Some r_out_attrs) in
  foldl_opt
    (fun output_rows r_row =>
       let r_string := row_join r_row in
       let r_len := str_len r_string in
       let r_ordered_tokens :=
         order_using_token_ordering (tokenizer_tokenize tokenizer r_string)
           token_ordering in
       let candidates :=
         prefix_find_candidates tokenizer sim_measure_type threshold
           r_ordered_tokens prefix_index in
       foldl_opt
         (verify_edit_candidate ltable_list l_join_attr_list threshold comp_fn
            sim_fn r_row r_string r_len has_output_attributes out_sim_score)
         output_rows candidates)
    [] rtable_list.

End EditDistanceJoin.

(** ** The drivers and the caller's tokenizer

    The tokenizer is an object of the caller that the drivers mutate
    through [set_return_set].  A driver is a computation over that object
    which may raise. *)

Definition Driver (A : Type) : Type := Tokenizer -> option (A * Tokenizer).

Definition driver_ret {A : Type} (a : A) : Driver A :=
  fun tokenizer => Some (a, tokenizer).

Definition driver_bind {A B : Type} (m : Driver A) (k : A -> Driver B)
    : Driver B :=
  fun tokenizer =>
    match m tokenizer with
    | Some (a, tokenizer') => k a tokenizer'
    | None => None
    end.

Notation "'do' x <- m ; k" := (driver_bind m (fun x => k))
  (at level 10, x name, m at level 100, k at level 200).
Notation "'do_' m ; k" := (driver_bind m (fun _ => k))
  (at level 10, m at level 100, k at level 200).

(** [tokenizer.get_return_set()] *)
Definition call_get_return_set : Driver bool :=
  fun tokenizer => Some (get_return_set tokenizer, tokenizer).

(** [tokenizer.set_return_set(b)] *)
Definition call_set_return_set (b : bool) : Driver unit :=
  fun tokenizer => Some (tt, set_return_set b tokenizer).

(** A validation that raises when it fails. *)
Definition validate (check : Tokenizer -> bool) : Driver unit :=
  fun tokenizer => if check tokenizer then Some (tt, tokenizer) else None.

(** A call that reads the tokenizer. *)
Definition with_tokenizer {A : Type} (f : Tokenizer -> option A) : Driver A :=
  fun tokenizer =>
    match f tokenizer with
    | Some a => Some (a, tokenizer)
    | None => None
    end.

(** Validation, job splitting, the missing-value pairs and the overlap
    filter are used by the drivers through these operations.  The checks
    on the shape of the data frames and on attribute names, and the
    conversion of the join columns to strings, have no counterpart on
    rows whose key and join string are picked out. *)
Class DriverCollaborators (K Th Score : Type) := {
  validate_tokenizer : Tokenizer -> bool;
  validate_threshold : Th -> SimMeasure -> bool;
  validate_comp_op_for_sim_measure : CompOp -> SimMeasure -> bool;
  validate_key_attr : list (Row K) -> bool;
  get_num_processes_to_launch : Z -> Z;
  split_table : list (Row K) -> Z -> list (list (Row K));
  get_pairs_with_missing_value :
    list (Row K) -> list (Row K) -> option (list string) ->
    option (list string) -> bool -> list (OutRow K Score);
  (** [OverlapFilter(tokenizer, threshold, comp_op, allow_missing)
       .filter_tables(...)], a computation over the tokenizer *)
  overlap_filter_tables :
    Th -> CompOp -> bool -> list (Row K) -> list (Row K) ->
    option (list string) -> option (list string) -> bool -> Z ->
    Driver (list (OutRow K Score));
  (** [int(floor(threshold))] *)
  threshold_floor : Th -> Z;
  get_pairs_with_missing_value_edit :
    list (Row K) -> list (Row K) -> option (list string) ->
    option (list string) -> bool -> list (OutRow K Z)
}.

Section Drivers.
Context {K Th Score : Type} `{Countable K} `{!Collaborators K Th Score}
        `{!EditCollaborators K} `{!DriverCollaborators K Th Score}.

(** The opening of [dice_join] and [overlap_join]: put the tokenizer in
    set mode and remember whether to revert. *)
Definition force_return_set : Driver bool :=
  do flag <- call_get_return_set;
  if negb flag
  then do_ call_set_return_set true; driver_ret true
  else driver_ret false.

(** The closing of [dice_join] and [overlap_join]. *)
Definition revert_return_set (revert_tokenizer_return_set_flag : bool)
    : Driver unit :=
  if revert_tokenizer_return_set_flag
  then call_set_return_set false
  else driver_ret tt.

(** The join of [dice_join] and [jaccard_join] proper: one call of
    [set_sim_join], or one per split of the right table.  The drivers
    pass [comp_op] and [allow_empty] along, for which [set_sim_join]
    declares no parameter; the call is made with the arguments that
    [set_sim_join] declares. *)
Definition run_set_sim_join (ltable rtable : list (Row K))
    (sim_measure_type : SimMeasure) (threshold : Th)
    (l_out_attrs r_out_attrs : option (list string)) (out_sim_score : bool)
    (n_jobs : Z) (tokenizer : Tokenizer) : option (list (OutRow K Score)) :=
  if n_jobs =? 1 then
    set_sim_join ltable rtable tokenizer sim_measure_type threshold
      l_out_attrs r_out_attrs out_sim_score
  else
    let r_splits := split_table rtable n_jobs in
    results ←
      mapM (fun r_split =>
              set_sim_join ltable r_split tokenizer sim_measure_type
                threshold l_out_attrs r_out_attrs out_sim_score)
           r_splits;
    Some (concat results).

Definition dice_join (ltable rtable : list (Row K)) (threshold : Th)
    (comp_op : CompOp) (allow_empty allow_missing : bool)
    (l_out_attrs r_out_attrs : option (list string)) (out_sim_score : bool)
    (n_jobs : Z) : Driver (list (OutRow K Score)) :=
  do_ validate validate_tokenizer;
  do_ validate (fun _ => validate_threshold threshold DICE);
  do_ validate (fun _ => validate_comp_op_for_sim_measure comp_op DICE);
  do_ validate (fun _ => validate_key_attr ltable);
  do_ validate (fun _ => validate_key_attr rtable);
  do revert_tokenizer_return_set_flag <- force_return_set;
  let n_jobs := get_num_processes_to_launch n_jobs in
  do output_table <-
    with_tokenizer
      (run_set_sim_join ltable rtable DICE threshold l_out_attrs r_out_attrs
         out_sim_score n_jobs);
  let output_table :=
    if allow_missing
    then output_table ++
         get_pairs_with_missing_value ltable rtable l_out_attrs r_out_attrs
           out_sim_score
    else output_table in
  do_ revert_return_set revert_tokenizer_return_set_flag;
  driver_ret output_table.

(** [jaccard_join] leaves the flag alone. *)
Definition jaccard_join (ltable rtable : list (Row K)) (threshold : Th)
    (comp_op : CompOp)
    (l_out_attrs r_out_attrs : option (list string)) (out_sim_score : bool)
    (n_jobs : Z) : Driver (list (OutRow K Score)) :=
  do_ validate validate_tokenizer;
  do_ validate (fun _ => validate_threshold threshold JACCARD);
  do_ validate (fun _ => validate_comp_op_for_sim_measure comp_op JACCARD);
  do_ validate (fun _ => validate_key_attr ltable);
  do_ validate (fun _ => validate_key_attr rtable);
  let n_jobs := get_num_processes_to_launch n_jobs in
  with_tokenizer
    (run_set_sim_join ltable rtable JACCARD threshold l_out_attrs r_out_attrs
       out_sim_score n_jobs).

Definition overlap_join (ltable rtable : list (Row K)) (threshold : Th)
    (comp_op : CompOp) (allow_missing : bool)
    (l_out_attrs r_out_attrs : option (list string)) (out_sim_score : bool)
    (n_jobs : Z) : Driver (list (OutRow K Score)) :=
  do_ validate validate_tokenizer;
  do revert_tokenizer_return_set_flag <- force_return_set;
  do output_table <-
    overlap_filter_tables threshold comp_op allow_missing ltable rtable
      l_out_attrs r_out_attrs out_sim_score n_jobs;
  do_ revert_return_set revert_tokenizer_return_set_flag;
  driver_ret output_table.

(** [edit_distance_join] proper: one call of [_edit_distance_join_split],
    or one per split of the right table. *)
Definition run_edit_distance_join (ltable rtable : list (Row K))
    (threshold : Z) (comp_op : CompOp)
    (l_out_attrs r_out_attrs : option (list string)) (out_sim_score : bool)
    (n_jobs : Z) (tokenizer : Tokenizer) : option (list (OutRow K Z)) :=
  if n_jobs =? 1 then
    _edit_distance_join_split ltable rtable tokenizer threshold comp_op
      l_out_attrs r_out_attrs out_sim_score
  else
    let r_splits := split_table rtable n_jobs in
    results ←
      mapM (fun r_split =>
              _edit_distance_join_split ltable r_split tokenizer threshold
                comp_op l_out_attrs r_out_attrs out_sim_score)
           r_splits;
    Some (concat results).

(** [edit_distance_join] never calls [set_return_set]. *)
Definition edit_distance_join (ltable rtable : list (Row K)) (threshold : Th)
    (comp_op : CompOp) (allow_missing : bool)
    (l_out_attrs r_out_attrs : option (list string)) (out_sim_score : bool)
    (n_jobs : Z) : Driver (list (OutRow K Z)) :=
  do_ validate validate_tokenizer;
  do_ validate (fun _ => validate_threshold threshold EDIT_DISTANCE);
  do_ validate (fun _ => validate_comp_op_for_sim_measure comp_op EDIT_DISTANCE);
  do_ validate (fun _ => validate_key_attr ltable);
  do_ validate (fun _ => validate_key_attr rtable);
  let threshold := threshold_floor threshold in
  let n_jobs := get_num_processes_to_launch n_jobs in
  do output_table <-
    with_tokenizer
      (run_edit_distance_join ltable rtable threshold comp_op l_out_attrs
         r_out_attrs out_sim_score n_jobs);
  let output_table :=
    if allow_missing
    then output_table ++
         get_pairs_with_missing_value_edit ltable rtable l_out_attrs
           r_out_attrs out_sim_score
    else output_table in
  driver_ret output_table.

End Drivers.

(** ** The collaborators as the specification describes them

    Keys are integers, thresholds and scores are rationals. *)

Module SpecModel.

(** Modelled from the spec: the delimiter tokenizer of the scenarios of
    section 8 (word tokens): the non-empty pieces between delimiters; the
    tokenizer itself belongs to py_stringmatching. *)
Fixpoint split_on (d : ascii) (s : string) (cur : string) : list string :=
  match s with
  | EmptyString =>
      if bool_decide (cur = EmptyString) then [] else [cur]
  | String c rest =>
      if Ascii.eqb c d
      then (if bool_decide (cur = EmptyString) then [] else [cur])
             ++ split_on d rest EmptyString
      else split_on d rest (String.append cur (String c EmptyString))
  end.

(** Modelled from the spec: the q-gram tokenizer of the scenarios of
    section 8: the substrings of length [q], without padding ("apple"
    gives "app", "ppl", "ple"); the tokenizer itself belongs to
    py_stringmatching. *)
Fixpoint qgrams (q : nat) (s : string) : list string :=
  match s with
  | EmptyString => []
  | String _ rest =>
      if (q <=? String.length s)%nat
      then substring 0 q s :: qgrams q rest
      else []
  end.

(** Modelled from the spec: the tokenizer contract of section 6:
    [tokenize(string)] gives a sequence of tokens, and [return_set]
    removes the duplicates. *)
Definition spec_tokenizer_tokenize (tokenizer : Tokenizer) (s : string)
    : list string :=
  let tokens :=
    match tok_kind tokenizer with
    | Delimiter d => split_on d s EmptyString
    | Qgram q => qgrams q s
    end in
  if return_set tokenizer then remove_dups tokens else tokens.

(** Modelled from the spec: [utils.tokenizers.tokenize], which is not
    among the modelled files; section 4.8 has the driver "tokenize" each
    record with the tokenizer. *)
Definition spec_tokenize (s : string) (tokenizer : Tokenizer)
    (sim_measure_type : SimMeasure) : list string :=
  spec_tokenizer_tokenize tokenizer s.

(** Modelled from the spec: the document frequency of section 4.1, the
    number of records that hold the token; [utils.token_ordering] is not
    among the modelled files. *)
Definition doc_frequency (records : list (list string)) (t : string) : Z :=
  len (filter (fun r => t ∈ r) records).

(** Modelled from the spec: the order of section 4.1 on tokens,
    (frequency ascending, token ascending). *)
Definition token_leb (records : list (list string)) (a b : string) : bool :=
  (doc_frequency records a <? doc_frequency records b)
  || ((doc_frequency records a =? doc_frequency records b) && String.leb a b).

(** Modelled from the spec: the order of section 4.1 as a relation. *)
Definition token_before (records : list (list string)) : relation string :=
  fun a b => token_leb records a b = true.

(** Modelled from the spec: the order of section 4.1 is decidable. *)
#[export] Instance token_before_dec (records : list (list string))
  : RelDecision (token_before records) :=
  fun a b => decide (token_leb records a b = true).

(** Modelled from the spec: the token ordering of section 4.1: the
    tokens sorted by that order, rank = position. *)
Definition token_ordering_of (records : list (list string)) : gmap string Z :=
  let tokens := remove_dups (concat records) in
  let sorted := merge_sort (token_before records) tokens in
  list_to_map (imap (fun i t => (t, Z.of_nat i)) sorted).

(** Modelled from the spec: [gen_token_ordering_for_tables] of
    [utils.token_ordering]: the ordering of section 4.1 over the records
    of both tables. *)
Definition spec_gen_token_ordering_for_tables (tables : list (list (Row Z)))
    (tokenizer : Tokenizer) (sim_measure_type : SimMeasure) : gmap string Z :=
  token_ordering_of
    ((fun row => spec_tokenize (row_join row) tokenizer sim_measure_type)
       <$> concat tables).

(** Modelled from the spec: [gen_token_ordering_for_lists] of
    [utils.token_ordering]: the ordering of section 4.1 over the given
    token lists, the ad-hoc two-record ordering of section 4.6. *)
Definition spec_gen_token_ordering_for_lists (lists : list (list string))
    : gmap string Z :=
  token_ordering_of lists.

(** Modelled from the spec: [order_using_token_ordering] of section 4.1:
    the ranks of the tokens sorted ascending, unknown tokens dropped. *)
Definition spec_order_using_token_ordering (tokens : list string)
    (token_ordering : gmap string Z) : list Z :=
  merge_sort Z.le (omap (fun t => token_ordering !! t) tokens).

(** Modelled from the spec: "prefix length is clamped to [0, n]" of
    section 4.2. *)
Definition clamp (n x : Z) : Z := Z.max 0 (Z.min n x).

(** Modelled from the spec: the [q] of the q-gram tokenizer in the
    prefix length of the edit distance, section 4.2. *)
Definition qval_of (tokenizer : Tokenizer) : Z :=
  match tok_kind tokenizer with
  | Qgram q => Z.of_nat q
  | Delimiter _ => 1
  end.

(** Modelled from the spec: [size_lower] of section 4.2, which
    [filter.filter_utils] implements, in exact rational arithmetic; the
    overlap measure has no size bound, the edit distance has the window
    around [n]. *)
Definition spec_get_size_lower_bound (n : Z) (sim_measure_type : SimMeasure)
    (t : Q) : Z :=
  match sim_measure_type with
  | JACCARD => Qceiling (t * inject_Z n)
  | COSINE => Qceiling (t * t * inject_Z n)
  | DICE => Qceiling (t * inject_Z n / (2 - t))
  | OVERLAP => 0
  | EDIT_DISTANCE => n - Qfloor t
  end.

(** Modelled from the spec: [size_upper] of section 4.2, in exact
    rational arithmetic; the overlap measure is unbounded above
    ([sys.maxsize]). *)
Definition spec_get_size_upper_bound (n : Z) (sim_measure_type : SimMeasure)
    (t : Q) : Z :=
  match sim_measure_type with
  | JACCARD => Qfloor (inject_Z n / t)
  | COSINE => Qfloor (inject_Z n / (t * t))
  | DICE => Qfloor (inject_Z n * (2 - t) / t)
  | OVERLAP => 2 ^ 63 - 1
  | EDIT_DISTANCE => n + Qfloor t
  end.

(** Modelled from the spec: [prefix_len] of section 4.2, clamped. *)
Definition spec_get_prefix_length (n : Z) (sim_measure_type : SimMeasure)
    (t : Q) (tokenizer : Tokenizer) : Z :=
  match sim_measure_type with
  | JACCARD | COSINE | DICE =>
      clamp n (n - spec_get_size_lower_bound n sim_measure_type t + 1)
  | OVERLAP => clamp n (n - Qfloor t + 1)
  | EDIT_DISTANCE => clamp n (qval_of tokenizer * Qfloor t + 1)
  end.

(** Modelled from the spec: [overlap_thresh] of section 4.2; the ceiling
    of [t * sqrt (x * y)] is the integer square root, rounded up, of the
    ceiling of [t * t * x * y]; for the edit distance a pair needs one
    common q-gram. *)
Definition spec_get_overlap_threshold (x y : Z) (sim_measure_type : SimMeasure)
    (t : Q) (tokenizer : Tokenizer) : Z :=
  match sim_measure_type with
  | JACCARD => Qceiling (t * inject_Z (x + y) / (1 + t))
  | COSINE => Z.sqrt_up (Qceiling (t * t * inject_Z (x * y)))
  | DICE => Qceiling (t * inject_Z (x + y) / 2)
  | OVERLAP => Qfloor t
  | EDIT_DISTANCE => 1
  end.

(** Modelled from the spec: the size of the intersection of two token
    sets, section 4.7. *)
Definition inter_size {A : Type} `{EqDecision A} (x y : list A) : Z :=
  len (filter (fun t => t ∈ y) (remove_dups x)).

(** Modelled from the spec: the size of the union of two token sets,
    section 4.7. *)
Definition union_size (x y : list Z) : Z := len (remove_dups (x ++ y)).

(** Modelled from the spec: the size of a token set, section 4.7. *)
Definition set_size (x : list Z) : Z := len (remove_dups x).

(** Modelled from the spec: the Jaccard similarity of section 4.7, with
    the score 1.0 of section 4.8 for two empty sets. *)
Definition jaccard (x y : list Z) : Q :=
  if union_size x y =? 0 then 1%Q
  else Qred (inject_Z (inter_size x y) / inject_Z (union_size x y)).

(** Modelled from the spec: the Dice similarity of section 4.7, with
    the score 1.0 of section 4.8 for two empty sets. *)
Definition dice (x y : list Z) : Q :=
  if set_size x + set_size y =? 0 then 1%Q
  else Qred (inject_Z (2 * inter_size x y) / inject_Z (set_size x + set_size y)).

(** Modelled from the spec: the overlap of section 4.7. *)
Definition overlap (x y : list Z) : Q := inject_Z (inter_size x y).

(** Modelled from the spec: [get_sim_function] of [utils.simfunctions],
    which selects the verifier of section 4.7.  The cosine score needs a
    square root and is not given; the edit distance is a function of
    strings. *)
Definition spec_get_sim_function (sim_measure_type : SimMeasure)
    : option (list Z -> list Z -> Q) :=
  match sim_measure_type with
  | JACCARD => Some jaccard
  | DICE => Some dice
  | OVERLAP => Some overlap
  | COSINE | EDIT_DISTANCE => None
  end.

(** Modelled from the spec: the output row of section 6 carries the
    passthrough columns of both rows. *)
Definition spec_project_attrs (l_row r_row : Row Z) : list string :=
  row_rest l_row ++ row_rest r_row.

(** The collaborators of the set-similarity join, as modelled. *)
#[export] Instance spec_collaborators : Collaborators Z Q Q := {|
  tokenizer_tokenize := spec_tokenizer_tokenize;
  tokenize := spec_tokenize;
  gen_token_ordering_for_tables := spec_gen_token_ordering_for_tables;
  gen_token_ordering_for_lists := spec_gen_token_ordering_for_lists;
  order_using_token_ordering := spec_order_using_token_ordering;
  get_prefix_length := spec_get_prefix_length;
  get_overlap_threshold := spec_get_overlap_threshold;
  get_size_lower_bound := spec_get_size_lower_bound;
  get_size_upper_bound := spec_get_size_upper_bound;
  get_sim_function := spec_get_sim_function;
  score_ge := fun score threshold => Qle_bool threshold score;
  project_attrs := spec_project_attrs
|}.

(** Modelled from the spec: the Levenshtein distance of section 4.7,
    which [utils.simfunctions] selects for the edit distance. *)
Fixpoint lev (s : list ascii) : list ascii -> nat :=
  match s with
  | [] => fun t => length t
  | a :: s' =>
      fix lev_row (t : list ascii) : nat :=
        match t with
        | [] => S (length s')
        | b :: t' =>
            Nat.min (Nat.min (S (lev s' t)) (S (lev_row t')))
                    ((if Ascii.eqb a b then 0 else 1) + lev s' t')
        end
  end.

(** Modelled from the spec: the Levenshtein distance on strings. *)
Definition levenshtein (x y : string) : Z :=
  Z.of_nat (lev (list_ascii_of_string x) (list_ascii_of_string y)).

(** Modelled from the spec: the prefix of section 4.2 for the edit
    distance, the first [q * threshold + 1] tokens, clipped. *)
Definition edit_prefix (tokenizer : Tokenizer) (threshold : Z)
    (tokens : list Z) : list Z :=
  take (Z.to_nat (clamp (len tokens) (qval_of tokenizer * threshold + 1)))
       tokens.

(** Modelled from the spec: the prefix index of section 4.3, which
    [index.prefix_index] implements: each record id, the position of the
    row in the left table, is put in the posting list of each token of
    its prefix. *)
Definition spec_prefix_index_build (table : list (Row Z))
    (tokenizer : Tokenizer) (sim_measure_type : SimMeasure) (threshold : Z)
    (token_ordering : gmap string Z) : gmap Z (list Z) :=
  foldl (fun (index : gmap Z (list Z)) (entry : Z * Row Z) =>
           foldl (fun (index : gmap Z (list Z)) token =>
                    <[token := default [] (index !! token) ++ [entry.1]]> index)
                 index
                 (edit_prefix tokenizer threshold
                    (spec_order_using_token_ordering
                       (spec_tokenizer_tokenize tokenizer (row_join entry.2))
                       token_ordering)))
        ∅ (imap (fun i row => (Z.of_nat i, row)) table).

(** Modelled from the spec: the prefix filter of section 4.5, which
    [filter.prefix_filter] implements: the candidates of a probe are the
    union of the postings of its prefix tokens. *)
Definition spec_prefix_find_candidates (tokenizer : Tokenizer)
    (sim_measure_type : SimMeasure) (threshold : Z)
    (r_ordered_tokens : list Z) (prefix_index : gmap Z (list Z)) : list Z :=
  remove_dups
    (concat ((fun token => default [] (prefix_index !! token))
               <$> edit_prefix tokenizer threshold r_ordered_tokens)).

(** The collaborators of the edit-distance join, as modelled. *)
#[export] Instance spec_edit_collaborators : EditCollaborators Z := {|
  PrefixIndex := gmap Z (list Z);
  prefix_index_build := spec_prefix_index_build;
  prefix_find_candidates := spec_prefix_find_candidates;
  edit_distance_sim := levenshtein
|}.

(** Modelled from the spec: the threshold range per measure of section
    6, which [utils.validation] checks. *)
Definition spec_validate_threshold (t : Q) (sim_measure_type : SimMeasure)
    : bool :=
  match sim_measure_type with
  | JACCARD | COSINE | DICE => negb (Qle_bool t 0) && Qle_bool t 1
  | OVERLAP | EDIT_DISTANCE => Qle_bool 1 t
  end.

(** Modelled from the spec: the comparison operators per measure of
    section 4.8, which [utils.validation] checks. *)
Definition spec_validate_comp_op (comp_op : CompOp)
    (sim_measure_type : SimMeasure) : bool :=
  match sim_measure_type, comp_op with
  | EDIT_DISTANCE, (OpLe | OpLt | OpEq) => true
  | EDIT_DISTANCE, _ => false
  | _, (OpGe | OpGt | OpEq) => true
  | _, _ => false
  end.

(** Modelled from the spec: keys are unique per table, section 6, which
    [utils.validation] checks. *)
Definition spec_validate_key_attr (table : list (Row Z)) : bool :=
  bool_decide (NoDup (row_key <$> table)).

(** Modelled from the spec: the external parallelism knob [n_jobs] of
    sections 5 and 6, on a machine with one processor. *)
Definition spec_get_num_processes_to_launch (n_jobs : Z) : Z :=
  if n_jobs <? 1 then 1 else n_jobs.

(** Modelled from the spec: [n] consecutive slices of a list, the shards
    of section 5. *)
Fixpoint slices {A : Type} (size : nat) (n : nat) (l : list A)
    : list (list A) :=
  match n with
  | O => []
  | S n' => take size l :: slices size n' (drop size l)
  end.

(** Modelled from the spec: the right table cut into [n_jobs] disjoint
    shards, section 5. *)
Definition spec_split_table (table : list (Row Z)) (n_jobs : Z)
    : list (list (Row Z)) :=
  let n := Z.to_nat n_jobs in
  slices (Nat.div (length table + n - 1) n) n table.

(** Modelled from the spec: the comparison operators of section 4.7 on
    rationals. *)
Definition comp_q (comp_op : CompOp) (x y : Q) : bool :=
  match comp_op with
  | OpGe => Qle_bool y x
  | OpGt => negb (Qle_bool x y)
  | OpEq => Qeq_bool x y
  | OpLe => Qle_bool x y
  | OpLt => negb (Qle_bool y x)
  end.

(** Modelled from the spec: the overlap filter of sections 4.2 and 4.7,
    which [filter.overlap_filter] implements: the size of the
    intersection of the two token sets, compared with the threshold.  It
    tokenizes with the tokenizer as it finds it and leaves it alone. *)
Definition spec_overlap_filter_tables (threshold : Q) (comp_op : CompOp)
    (allow_missing : bool) (ltable rtable : list (Row Z))
    (l_out_attrs r_out_attrs : option (list string)) (out_sim_score : bool)
    (n_jobs : Z) : Driver (list (OutRow Z Q)) :=
  fun tokenizer =>
    let has_output_attributes :=
      bool_decide (is_Some l_out_attrs) || bool_decide (is_Some r_out_attrs) in
    let rows :=
      r_row ← rtable;
      l_row ← ltable;
      let score :=
        inject_Z (inter_size
                    (spec_tokenizer_tokenize tokenizer (row_join l_row))
                    (spec_tokenizer_tokenize tokenizer (row_join r_row))) in
      if comp_q comp_op score threshold
      then [mkOutRow (row_key l_row) (row_key r_row)
              (if has_output_attributes
               then spec_project_attrs l_row r_row else [])
              (if out_sim_score then Some score else None)]
      else [] in
    Some (rows, tokenizer).

(** The collaborators of the drivers, as modelled.  The rows of the
    model hold strings, so no join value is missing. *)
#[export] Instance spec_driver_collaborators : DriverCollaborators Z Q Q := {|
  validate_tokenizer := fun _ => true;
  validate_threshold := spec_validate_threshold;
  validate_comp_op_for_sim_measure := spec_validate_comp_op;
  validate_key_attr := spec_validate_key_attr;
  get_num_processes_to_launch := spec_get_num_processes_to_launch;
  split_table := spec_split_table;
  get_pairs_with_missing_value := fun _ _ _ _ _ => [];
  overlap_filter_tables := spec_overlap_filter_tables;
  threshold_floor := Qfloor;
  get_pairs_with_missing_value_edit := fun _ _ _ _ _ => []
|}.

End SpecModel.

(** ** The sweep of the position filter, posting by posting *)

Section SweepSpec.
Context {K Th Score : Type} `{Countable K} `{!Collaborators K Th Score}.

(** The prefix of a row that [build] indexes. *)
Definition index_prefix (self : PositionIndex K Th) (row : Row K) : list Z :=
  py_slice_to (index_attr_tokens self row)
    (get_prefix_length (len (index_attr_tokens self row))
       (pi_sim_measure_type self) (pi_threshold self) (pi_tokenizer self)).

(** The postings that a row with tokens [tokens] adds to the list of
    [token], the first token standing at position [pos]. *)
Fixpoint postings_of (tokens : list Z) (row_id : K) (pos : Z) (token : Z)
    : list (K * Z) :=
  match tokens with
  | [] => []
  | x :: rest =>
      (if decide (x = token) then [(row_id, pos)] else [])
        ++ postings_of rest row_id (pos + 1) token
  end.

(** The postings that the sweep meets, in order: each posting
    [(cand, j)] of the probe prefix token at position [i], with [i]. *)
Fixpoint events_from (position_index : PositionIndex K Th) (i : Z)
    (tokens : list Z) : list (Z * (K * Z)) :=
  match tokens with
  | [] => []
  | token :: rest =>
      ((fun posting => (i, posting)) <$> probe position_index token)
        ++ events_from position_index (i + 1) rest
  end.

(** [1 + min(n_r - i - 1, n_c - j - 1)] *)
Definition overlap_upper_bound (n_r i n_c j : Z) : Z :=
  1 + Z.min (n_r - i - 1) (n_c - j - 1).

(** A posting takes the rejecting branch: the size of the candidate
    passes the size test, and the count so far plus the upper bound is
    below the overlap threshold of the two sizes. *)
Definition pruned_at (self : PositionFilter Th) (n_r : Z)
    (position_index : PositionIndex K Th) (candidate_overlap : gmap K Z)
    (event : Z * (K * Z)) : Prop :=
  exists n_c,
    get_size position_index event.2.1 = Some n_c
    /\ get_size_lower_bound n_r (pf_sim_measure_type self) (pf_threshold self)
         <= n_c
    /\ n_c <= get_size_upper_bound n_r (pf_sim_measure_type self)
                (pf_threshold self)
    /\ default 0 (candidate_overlap !! event.2.1)
         + overlap_upper_bound n_r event.1 n_c event.2.2
       < get_overlap_threshold n_c n_r (pf_sim_measure_type self)
           (pf_threshold self) (pf_tokenizer self).

(** One step of the sweep as section 4.6 of the specification words it. *)
Definition sweep_step (self : PositionFilter Th) (n_r : Z)
    (position_index : PositionIndex K Th) (overlap : gmap K Z)
    (event : Z * (K * Z)) : gmap K Z :=
  let '(i, (cand, j)) := event in
  match get_size position_index cand with
  | None => overlap
  | Some n_c =>
      if bool_decide
           (get_size_lower_bound n_r (pf_sim_measure_type self)
              (pf_threshold self) <= n_c
            <= get_size_upper_bound n_r (pf_sim_measure_type self)
                 (pf_threshold self))
      then
        let cur := default 0 (overlap !! cand) in
        if bool_decide
             (get_overlap_threshold n_c n_r (pf_sim_measure_type self)
                (pf_threshold self) (pf_tokenizer self)
              <= cur + overlap_upper_bound n_r i n_c j)
        then <[cand := cur + 1]> overlap
        else <[cand := 0]> overlap
      else overlap
  end.

Definition sweep (self : PositionFilter Th) (n_r : Z)
    (position_index : PositionIndex K Th) (events : list (Z * (K * Z)))
    : gmap K Z :=
  foldl (sweep_step self n_r position_index) ∅ events.

(** The postings of one candidate among the postings met, as pairs
    [(i, j)] of probe position and candidate position. *)
Definition cand_events (cand : K) (events : list (Z * (K * Z)))
    : list (Z * Z) :=
  omap (fun event : Z * (K * Z) =>
          if decide (event.2.1 = cand)
          then Some (event.1, event.2.2) else None)
       events.

(** The positions of one candidate in a posting list. *)
Definition cand_positions (cand : K) (postings : list (K * Z)) : list Z :=
  omap (fun posting : K * Z =>
          if decide (posting.1 = cand) then Some posting.2 else None)
       postings.

End SweepSpec.

(** The count of one candidate under one posting with upper bound [u]:
    one more if the threshold can still be reached, else the sentinel 0. *)
Definition count_step (threshold : Z) (cur u : Z) : Z :=
  if bool_decide (threshold <= cur + u) then cur + 1 else 0.

(** Every later posting is bounded by an earlier one plus the number of
    postings before that one, counting from [n]. *)
Definition dominated {E : Type} (ub : E -> Z) (n : Z) (es : list E) : Prop :=
  forall A e1 B e2,
    es = A ++ e1 :: B -> e2 ∈ B -> ub e2 <= ub e1 + n + len A.

(** The order in which the sweep meets the pairs [(i, j)] of one
    candidate: by probe position, then by candidate position. *)
Definition event_lt (a b : Z * Z) : Prop :=
  a.1 < b.1 \/ (a.1 = b.1 /\ a.2 < b.2).

(** ** The rows of the set-similarity join *)

Section SetSimJoinSpec.
Context {K Th Score : Type} `{Countable K} `{!Collaborators K Th Score}.

(** What [set_sim_join] says of an output row: the scores are those of
    the similarity function on the ordered tokens of the two rows, and
    the test that admitted the row is [sim_score >= threshold]. *)
Definition emitted_ge (ltable rtable : list (Row K)) (tokenizer : Tokenizer)
    (sim_measure_type : SimMeasure) (threshold : Th) (out_sim_score : bool)
    (out : OutRow K Score) : Prop :=
  let token_ordering :=
    gen_token_ordering_for_tables
      [dict_values (build_dict_from_table ltable);
       dict_values (build_dict_from_table rtable)]
      tokenizer sim_measure_type in
  let ordered (row : Row K) :=
    order_using_token_ordering
      (tokenize (row_join row) tokenizer sim_measure_type) token_ordering in
  exists l_row r_row sim_fn,
    l_row ∈ ltable /\ r_row ∈ rtable
    /\ out_l out = row_key l_row /\ out_r out = row_key r_row
    /\ get_sim_function sim_measure_type = Some sim_fn
    /\ score_ge (sim_fn (ordered l_row) (ordered r_row)) threshold = true
    /\ out_score out
       = if out_sim_score then Some (sim_fn (ordered l_row) (ordered r_row))
         else None.

End SetSimJoinSpec.

(** ** The edit-distance join as a comprehension *)

Section EditSpec.
Context {K Th Score : Type} `{Countable K} `{!Collaborators K Th Score}
        `{!EditCollaborators K}.

(** [|r| - threshold <= |l| <= |r| + threshold] on the raw strings. *)
Definition in_length_window (threshold : Z) (l_string r_string : string)
    : bool :=
  (str_len r_string - threshold <=? str_len l_string)
  && (str_len l_string <=? str_len r_string + threshold).

(** The candidates of a right row. *)
Definition edit_candidates (ltable rtable : list (Row K))
    (tokenizer : Tokenizer) (threshold : Z) (r_row : Row K) : list Z :=
  let token_ordering :=
    gen_token_ordering_for_tables [ltable; rtable] tokenizer EDIT_DISTANCE in
  prefix_find_candidates tokenizer EDIT_DISTANCE threshold
    (order_using_token_ordering
       (tokenizer_tokenize tokenizer (row_join r_row)) token_ordering)
    (prefix_index_build ltable tokenizer EDIT_DISTANCE threshold
       token_ordering).

(** The output row of a candidate, if it is in the length window and its
    edit distance on the strings compares to the threshold. *)
Definition edit_verified (ltable : list (Row K)) (threshold : Z)
    (comp_op : CompOp) (has_output_attributes out_sim_score : bool)
    (r_row : Row K) (cand : Z) : option (OutRow K Z) :=
  l_row ← ltable !! Z.to_nat cand;
  let edit_dist := edit_distance_sim (row_join l_row) (row_join r_row) in
  if in_length_window threshold (row_join l_row) (row_join r_row)
     && COMP_OP_MAP comp_op edit_dist threshold
  then Some (mkOutRow (row_key l_row) (row_key r_row)
               (if has_output_attributes
                then project_attrs l_row r_row else [])
               (if out_sim_score then Some edit_dist else None))
  else None.

Definition edit_distance_join_rows (ltable rtable : list (Row K))
    (tokenizer : Tokenizer) (threshold : Z) (comp_op : CompOp)
    (l_out_attrs r_out_attrs : option (list string)) (out_sim_score : bool)
    : list (OutRow K Z) :=
  let has_output_attributes :=
    bool_decide (is_Some l_out_attrs) || bool_decide (is_Some r_out_attrs) in
  r_row ← rtable;
  omap (edit_verified ltable threshold comp_op has_output_attributes
          out_sim_score r_row)
       (edit_candidates ltable rtable tokenizer threshold r_row).

(** Every candidate is a position in the left table. *)
Definition candidates_in_range (ltable rtable : list (Row K))
    (tokenizer : Tokenizer) (threshold : Z) : Prop :=
  Forall (fun r_row =>
            Forall (fun cand => 0 <= cand < len ltable)
                   (edit_candidates ltable rtable tokenizer threshold r_row))
         rtable.

End EditSpec.

(** ** index/size_index.py *)

(** [sys.maxsize], on a 64-bit platform. *)
Definition maxsize : Z := 2 ^ 63 - 1.

Section SizeIndex.
Context {K Th Score : Type} `{!Collaborators K Th Score}.

Record SizeIndex := mkSizeIndex {
  si_table : list (Row K);
  si_tokenizer : Tokenizer;
  si_index : gmap Z (list Z);
  si_min_length : Z;
  si_max_length : Z
}.

(** [SizeIndex.__init__]: an empty dictionary, [min_length] at [maxsize]
    and [max_length] at 0. *)
Definition SizeIndex_init (table : list (Row K)) (tokenizer : Tokenizer)
    : SizeIndex :=
  mkSizeIndex table tokenizer ∅ maxsize 0.

(** The body of the loop of [SizeIndex.build]; the state is the object
    and [row_id]. *)
Definition SizeIndex_build_row (st : SizeIndex * Z) (row : Row K)
    : SizeIndex * Z :=
  let '(self, row_id) := st in
  let index_string := row_join row in
  let num_tokens :=
    len (tokenizer_tokenize (si_tokenizer self) index_string) in
  let index1 :=
    match si_index self !! num_tokens with
    | None => <[num_tokens := []]> (si_index self)
    | Some _ => si_index self
    end in
  let index2 :=
    <[num_tokens := default [] (index1 !! num_tokens) ++ [row_id]]> index1 in
  let min_length :=
    if num_tokens <? si_min_length self then num_tokens
    else si_min_length self in
  let max_length :=
    if num_tokens >? si_max_length self then num_tokens
    else si_max_length self in
  (mkSizeIndex (si_table self) (si_tokenizer self) index2 min_length
     max_length,
   row_id + 1).

Definition SizeIndex_build (self : SizeIndex) : SizeIndex :=
  (foldl SizeIndex_build_row (self, 0) (si_table self)).1.

Definition SizeIndex_probe (self : SizeIndex) (num_tokens : Z) : list Z :=
  default [] (si_index self !! num_tokens).

End SizeIndex.

Arguments SizeIndex K : clear implicits.

(** ** filter/position_filter.py: [filter_tables] *)

Section FilterTables.
Context {K Th Score : Type} `{Countable K} `{!Collaborators K Th Score}.

(** The body of the loop over [candidate_overlap] in [filter_tables]: a
    candidate with a positive count gives an output row, without score. *)
Definition filter_candidate (ltable_dict : gmap K (Row K)) (r_row : Row K)
    (r_id : K) (has_output_attributes : bool)
    (output_rows : list (OutRow K Score)) (item : K * Z)
    : option (list (OutRow K Score)) :=
  let '(cand, overlap) := item in
  if overlap >? 0 then
    if has_output_attributes then
      l_row ← ltable_dict !! cand;
      Some (output_rows ++ [mkOutRow cand r_id (project_attrs l_row r_row) None])
    else
      Some (output_rows ++ [mkOutRow cand r_id [] None])
  else Some output_rows.

(** The body of the loop over the right table in [filter_tables]; a row
    with an empty string is skipped. *)
Definition filter_row (self : PositionFilter Th)
    (token_ordering : gmap string Z) (position_index : PositionIndex K Th)
    (ltable_dict : gmap K (Row K)) (has_output_attributes : bool)
    (output_rows : list (OutRow K Score)) (r_row : Row K)
    : option (list (OutRow K Score)) :=
  let r_id := row_key r_row in
  let r_string := row_join r_row in
  if bool_decide (r_string = EmptyString) then Some output_rows
  else
    let r_filter_attr_tokens :=
      tokenize r_string (pf_tokenizer self) (pf_sim_measure_type self) in
    let r_ordered_tokens :=
      order_using_token_ordering r_filter_attr_tokens token_ordering in
    let r_num_tokens := len r_ordered_tokens in
    let r_prefix_length :=
      get_prefix_length r_num_tokens (pf_sim_measure_type self)
        (pf_threshold self) (pf_tokenizer self) in
    candidate_overlap ←
      _find_candidates self r_ordered_tokens r_num_tokens r_prefix_length
        position_index;
    foldl_opt
      (filter_candidate ltable_dict r_row r_id has_output_attributes)
      output_rows (map_to_list candidate_overlap).

Definition filter_tables (self : PositionFilter Th)
    (ltable rtable : list (Row K))
    (l_out_attrs r_out_attrs : option (list string))
    : option (list (OutRow K Score)) :=
  let ltable_dict := build_dict_from_table ltable in
  let rtable_dict := build_dict_from_table rtable in
  let token_ordering :=
    gen_token_ordering_for_tables
      [dict_values ltable_dict; dict_values rtable_dict]
      (pf_tokenizer self) (pf_sim_measure_type self) in
  let position_index :=
    build (PositionIndex_init (dict_values ltable_dict) (pf_tokenizer self)
             (pf_sim_measure_type self) (pf_threshold self) token_ordering) in
  let has_output_attributes :=
    bool_decide (is_Some l_out_attrs) || bool_decide (is_Some r_out_attrs) in
  foldl_opt
    (filter_row self token_ordering position_index ltable_dict
       has_output_attributes)
    [] (dict_values rtable_dict).

End FilterTables.

(** ** join/black_box_join.py *)

(** What the black box receives for a join value: the string, or its
    tokens when a tokenizer is given.  The black box itself is taken as
    a function: it gives a score for every two join values and does
    nothing else. *)
Inductive JoinValue :=
  | JoinString (s : string)
  | JoinTokens (tokens : list string).

Section BlackBoxJoin.
Context {K Th Score : Type} `{Countable K} `{!Collaborators K Th Score}
        `{!DriverCollaborators K Th Score}.
Context (sim_function : JoinValue -> JoinValue -> Score).

(** The cache [l_join_tokens_cached], filled when a tokenizer is given. *)
Definition build_l_join_tokens_cached (tokenizer : option Tokenizer)
    (rows : list (Row K)) : gmap K (list string) :=
  match tokenizer with
  | Some t =>
      foldl (fun (d : gmap K (list string)) l_row =>
               <[row_key l_row := tokenizer_tokenize t (row_join l_row)]> d)
            ∅ rows
  | None => ∅
  end.

(** The body of the inner loop: one left row against one right row. *)
Definition black_box_pair (threshold : Th) (tokenizer : option Tokenizer)
    (l_join_tokens_cached : gmap K (list string)) (r_row : Row K) (r_id : K)
    (r_join_value : JoinValue) (has_output_attributes out_sim_score : bool)
    (output_rows : list (OutRow K Score)) (l_row : Row K)
    : option (list (OutRow K Score)) :=
  let l_id := row_key l_row in
  l_join_value ←
    match tokenizer with
    | Some _ => JoinTokens <$> l_join_tokens_cached !! l_id
    | None => Some (JoinString (row_join l_row))
    end;
  let sim_score := sim_function l_join_value r_join_value in
  if score_ge sim_score threshold then
    let attrs :=
      if has_output_attributes then project_attrs l_row r_row else [] in
    let score := if out_sim_score then Some sim_score else None in
    Some (output_rows ++ [mkOutRow l_id r_id attrs score])
  else Some output_rows.

Definition _black_box_join_split (ltable rtable : list (Row K))
    (threshold : Th) (tokenizer : option Tokenizer)
    (l_out_attrs r_out_attrs : option (list string)) (out_sim_score : bool)
    : option (list (OutRow K Score)) :=
  let ltable_dict := build_dict_from_table ltable in
  let rtable_dict := build_dict_from_table rtable in
  let l_join_tokens_cached :=
    build_l_join_tokens_cached tokenizer (dict_values ltable_dict) in
  let has_output_attributes :=
    bool_decide (is_Some l_out_attrs) || bool_decide (is_Some r_out_attrs) in
  foldl_opt
    (fun output_rows r_row =>
       let r_id := row_key r_row in
       let r_join_value :=
         match tokenizer with
         | Some t => JoinTokens (tokenizer_tokenize t (row_join r_row))
         | None => JoinString (row_join r_row)
         end in
       foldl_opt
         (black_box_pair threshold tokenizer l_join_tokens_cached r_row r_id
            r_join_value has_output_attributes out_sim_score)
         output_rows (dict_values ltable_dict))
    [] (dict_values rtable_dict).

(** [black_box_join]: the checks on tokenizer and keys, then one call of
    [_black_box_join_split], or one per split of the right table, whose
    results [pd.concat] puts together; [pd.concat] raises when there is
    no result to put together. *)
Definition black_box_join (ltable rtable : list (Row K)) (threshold : Th)
    (tokenizer : option Tokenizer)
    (l_out_attrs r_out_attrs : option (list string)) (out_sim_score : bool)
    (n_jobs : Z) : option (list (OutRow K Score)) :=
  if match tokenizer with
     | Some t => validate_tokenizer t
     | None => true
     end
     && validate_key_attr ltable && validate_key_attr rtable
  then
    if n_jobs =? 1 then
      _black_box_join_split ltable rtable threshold tokenizer l_out_attrs
        r_out_attrs out_sim_score
    else
      let r_splits := split_table rtable n_jobs in
      results ←
        mapM (fun r_split =>
                _black_box_join_split ltable r_split threshold tokenizer
                  l_out_attrs r_out_attrs out_sim_score)
             r_splits;
      match results with
      | [] => None
      | _ :: _ => Some (concat results)
      end
  else None.

(** The rows of the nested loop over [l_rows] and [r_rows]. *)
Definition black_box_rows (l_rows r_rows : list (Row K)) (threshold : Th)
    (tokenizer : option Tokenizer) (has_output_attributes out_sim_score : bool)
    : list (OutRow K Score) :=
  let value (row : Row K) :=
    match tokenizer with
    | Some t => JoinTokens (tokenizer_tokenize t (row_join row))
    | None => JoinString (row_join row)
    end in
  r_row ← r_rows;
  l_row ← l_rows;
  let sim_score := sim_function (value l_row) (value r_row) in
  if score_ge sim_score threshold
  then [mkOutRow (row_key l_row) (row_key r_row)
          (if has_output_attributes then project_attrs l_row r_row else [])
          (if out_sim_score then Some sim_score else None)]
  else [].

End BlackBoxJoin.

(** ** utils/mur_utils.py *)

Section MurUtils.
Context {A : Type}.

(** The loop of [ration_output] over the results that the generator
    gives, with the reservoir so far; the batches yielded, in order. *)
Fixpoint ration_output_loop (results : list A) (size : Z)
    (reservoir : list A) : list (list A) :=
  match results with
  | [] => if 0 <? len reservoir then [reservoir] else []
  | result :: rest =>
      let reservoir := reservoir ++ [result] in
      if len reservoir >? size
      then reservoir :: ration_output_loop rest size []
      else ration_output_loop rest size reservoir
  end.

Definition ration_output (generator_function : list A) (size : Z)
    : list (list A) :=
  ration_output_loop generator_function size [].

(** The loop of [consume_into_dataframe] over the batches: [output_rows]
    starts as [None], becomes the first batch and is extended by the
    others.  The batches are the lists as they were yielded. *)
Definition consume_rows (output_rows : option (list A)) (rows : list A)
    : option (list A) :=
  match output_rows with
  | None => Some rows
  | Some acc => Some (acc ++ rows)
  end.

(** [consume_into_dataframe]: the rows and the header handed to the data
    frame. *)
Definition consume_into_dataframe {H : Type}
    (generator_function : list (list A)) (header : H)
    : option (list A) * H :=
  (foldl consume_rows None generator_function, header).

End MurUtils.

(** ** The filter-verify pipeline as a comprehension *)

Section JoinSpec.
Context {K Th Score : Type} `{Countable K} `{!Collaborators K Th Score}.

(** [ltable_dict.values()]: the rows that the joins loop over. *)
Definition join_rows (table : list (Row K)) : list (Row K) :=
  dict_values (build_dict_from_table table).

(** The token ordering that [set_sim_join] and [filter_tables] generate
    for the two tables. *)
Definition join_token_ordering (ltable rtable : list (Row K))
    (tokenizer : Tokenizer) (sim_measure_type : SimMeasure) : gmap string Z :=
  gen_token_ordering_for_tables [join_rows ltable; join_rows rtable]
    tokenizer sim_measure_type.

(** The ordered tokens of a row under that ordering. *)
Definition join_ordered_tokens (ltable rtable : list (Row K))
    (tokenizer : Tokenizer) (sim_measure_type : SimMeasure) (row : Row K)
    : list Z :=
  order_using_token_ordering
    (tokenize (row_join row) tokenizer sim_measure_type)
    (join_token_ordering ltable rtable tokenizer sim_measure_type).

(** The position index that they build on the left table. *)
Definition join_position_index (ltable rtable : list (Row K))
    (tokenizer : Tokenizer) (sim_measure_type : SimMeasure) (threshold : Th)
    : PositionIndex K Th :=
  build (PositionIndex_init (join_rows ltable) tokenizer sim_measure_type
           threshold
           (join_token_ordering ltable rtable tokenizer sim_measure_type)).

(** The dictionary [candidate_overlap] of a right row. *)
Definition join_candidates (ltable rtable : list (Row K))
    (tokenizer : Tokenizer) (sim_measure_type : SimMeasure) (threshold : Th)
    (r_row : Row K) : option (gmap K Z) :=
  let r_ordered_tokens :=
    join_ordered_tokens ltable rtable tokenizer sim_measure_type r_row in
  let r_num_tokens := len r_ordered_tokens in
  _find_candidates (mkPositionFilter tokenizer sim_measure_type threshold)
    r_ordered_tokens r_num_tokens
    (get_prefix_length r_num_tokens sim_measure_type threshold tokenizer)
    (join_position_index ltable rtable tokenizer sim_measure_type threshold).

(** The output row of [set_sim_join] for one entry of
    [candidate_overlap], if there is one. *)
Definition join_verified (sim_fn : list Z -> list Z -> Score)
    (ltable rtable : list (Row K)) (tokenizer : Tokenizer)
    (sim_measure_type : SimMeasure) (threshold : Th)
    (has_output_attributes out_sim_score : bool) (r_row : Row K)
    (item : K * Z) : list (OutRow K Score) :=
  match build_dict_from_table ltable !! item.1 with
  | Some l_row =>
      let sim_score :=
        sim_fn
          (join_ordered_tokens ltable rtable tokenizer sim_measure_type l_row)
          (join_ordered_tokens ltable rtable tokenizer sim_measure_type r_row)
      in
      if (item.2 >? 0) && score_ge sim_score threshold
      then [mkOutRow item.1 (row_key r_row)
              (if has_output_attributes then project_attrs l_row r_row
               else [])
              (if out_sim_score then Some sim_score else None)]
      else []
  | None => []
  end.

(** The rows of [set_sim_join], right row by right row and candidate by
    candidate. *)
Definition set_sim_join_rows (sim_fn : list Z -> list Z -> Score)
    (ltable rtable : list (Row K)) (tokenizer : Tokenizer)
    (sim_measure_type : SimMeasure) (threshold : Th)
    (has_output_attributes out_sim_score : bool) : list (OutRow K Score) :=
  r_row ← join_rows rtable;
  item ← map_to_list
           (default ∅ (join_candidates ltable rtable tokenizer
                         sim_measure_type threshold r_row));
  join_verified sim_fn ltable rtable tokenizer sim_measure_type threshold
    has_output_attributes out_sim_score r_row item.

(** The output row of [filter_tables] for one entry of
    [candidate_overlap], if there is one. *)
Definition filter_passed (ltable : list (Row K))
    (has_output_attributes : bool) (r_row : Row K) (item : K * Z)
    : list (OutRow K Score) :=
  match build_dict_from_table ltable !! item.1 with
  | Some l_row =>
      if item.2 >? 0
      then [mkOutRow item.1 (row_key r_row)
              (if has_output_attributes then project_attrs l_row r_row
               else [])
              None]
      else []
  | None => []
  end.

(** The rows of [filter_tables]. *)
Definition filter_tables_rows (self : PositionFilter Th)
    (ltable rtable : list (Row K)) (has_output_attributes : bool)
    : list (OutRow K Score) :=
  r_row ← join_rows rtable;
  if bool_decide (row_join r_row = EmptyString) then []
  else
    item ← map_to_list
             (default ∅ (join_candidates ltable rtable (pf_tokenizer self)
                           (pf_sim_measure_type self) (pf_threshold self)
                           r_row));
    filter_passed ltable has_output_attributes r_row item.

End JoinSpec.

(** ** The dictionaries of [filter_pair] with and without positions *)

(** Two dictionaries with the same tokens, the first holding 0 where the
    second holds a position. *)
Definition positions_lost (d0 d1 : gmap Z Z) : Prop :=
  forall t,
    (d0 !! t = None /\ d1 !! t = None)
    \/ (d0 !! t = Some 0 /\ exists v, d1 !! t = Some v /\ 0 <= v).

(** ** Inputs of the scenarios of section 8 and of the examples below *)

Module Scenarios.
Import SpecModel.
Local Open Scope string_scope.

(** A whitespace tokenizer in set mode and in bag mode, and q-gram
    tokenizers. *)
Definition ws_set : Tokenizer := mkTokenizer (Delimiter " "%char) true.
Definition ws_bag : Tokenizer := mkTokenizer (Delimiter " "%char) false.
Definition qgram3 : Tokenizer := mkTokenizer (Qgram 3) true.
Definition qgram2 : Tokenizer := mkTokenizer (Qgram 2) false.

(** Scenario 4: Dice at threshold 0.5. *)
Definition dice_ltable : list (Row Z) := [mkRow 1 "a b c d" []].
Definition dice_rtable : list (Row Z) := [mkRow 1 "a b e f" []].

(** Scenario 5: two empty join values. *)
Definition empty_ltable : list (Row Z) := [mkRow 1 "" []].
Definition empty_rtable : list (Row Z) := [mkRow 1 "" []].

(** Scenario 3: edit distance at threshold 1 on 2-grams. *)
Definition kitten_ltable : list (Row Z) := [mkRow 1 "kitten" []].
Definition kitten_rtable : list (Row Z) :=
  [mkRow 1 "kitten" []; mkRow 2 "sitten" []; mkRow 3 "sitting" []].

(** A left table and a probe for Jaccard at threshold 0.6: row 1 has
    eight tokens, and its first two ordered tokens are the second and the
    third ordered token of the probe, which has five. *)
Definition prune_ltable : list (Row Z) :=
  [mkRow 1 "a b c d e f g h" []; mkRow 2 "c d e f g h p q" [];
   mkRow 3 "c d e f g h p q" []].
Definition prune_rtable : list (Row Z) := [mkRow 9 "x a b p q" []].
Definition prune_ordering : gmap string Z :=
  spec_gen_token_ordering_for_tables [prune_ltable; prune_rtable] ws_set
    JACCARD.
Definition prune_probe : list Z :=
  spec_order_using_token_ordering (spec_tokenize "x a b p q" ws_set JACCARD)
    prune_ordering.

(** Two rows with a repeated word, for the overlap join. *)
Definition repeat_ltable : list (Row Z) := [mkRow 1 "a a b" []].
Definition repeat_rtable : list (Row Z) := [mkRow 1 "a a c" []].

(** A black box for the black-box join: 1 for equal join values, else 0. *)
Definition exact_match (l r : JoinValue) : Q :=
  match l, r with
  | JoinString a, JoinString b => if String.eqb a b then 1%Q else 0%Q
  | JoinTokens a, JoinTokens b => if bool_decide (a = b) then 1%Q else 0%Q
  | _, _ => 0%Q
  end.

End Scenarios.

(** * Proofs *)

(** ** Python list primitives *)

Lemma py_slice_to_lookup {A : Type} (l : list A) (stop : Z) (p : nat) (x : A) :
  Z.of_nat p < stop -> l !! p = Some x -> py_slice_to l stop !! p = Some x.
Proof.
  intros Hp Hl. unfold py_slice_to.
  apply lookup_lt_Some in Hl as Hlen.
  destruct (stop <? 0) eqn:Hneg; [lia|].
  rewrite lookup_take_lt by lia. done.
Qed.

Lemma py_slice_to_take {A : Type} (l : list A) (stop : Z) :
  exists n, py_slice_to l stop = take n l.
Proof. unfold py_slice_to. eauto. Qed.

Lemma elem_of_concat {A : Type} (x : A) (ls : list (list A)) :
  x ∈ concat ls <-> exists l, x ∈ l /\ l ∈ ls.
Proof.
  induction ls as [|l ls IH]; simpl.
  - rewrite elem_of_nil. split; [done|]. intros (l & _ & Hl).
    by apply elem_of_nil in Hl.
  - rewrite elem_of_app, IH. split.
    + intros [Hx|(l' & Hx & Hl')]; [exists l|exists l'];
        (split; [done|]); apply elem_of_cons; auto.
    + intros (l' & Hx & Hl'). apply elem_of_cons in Hl' as [->|Hl']; eauto.
Qed.

Lemma elem_of_xrange (lo hi k : Z) : k ∈ xrange lo hi <-> lo <= k < hi.
Proof.
  unfold xrange. rewrite list_elem_of_lookup. split.
  - intros [i Hi]. apply lookup_seqZ in Hi. lia.
  - intros Hk. exists (Z.to_nat (k - lo)). apply lookup_seqZ. lia.
Qed.

Lemma foldl_insert_lookup {V : Type} (f : Z -> V) (l : list Z) (m : gmap Z V)
    (k : Z) :
  foldl (fun (m : gmap Z V) x => <[x := f x]> m) m l !! k
  = if decide (k ∈ l) then Some (f k) else m !! k.
Proof.
  revert m. induction l as [|x l IH]; intros m; simpl.
  - destruct (decide (k ∈ [])) as [Hin|]; [by apply elem_of_nil in Hin|done].
  - rewrite IH. destruct (decide (k ∈ l)) as [Hin|Hnin].
    + rewrite decide_True; [done|]. by apply elem_of_cons; right.
    + destruct (decide (k = x)) as [->|Hne].
      * rewrite lookup_insert_eq. rewrite decide_True; [done|].
        apply elem_of_cons; by left.
      * rewrite lookup_insert_ne by done. rewrite decide_False; [done|].
        rewrite elem_of_cons. intros [?|?]; done.
Qed.

(** ** The position index *)

Section IndexProofs.
Context {K Th Score : Type} `{Countable K} `{!Collaborators K Th Score}.

Implicit Types (self : PositionIndex K Th) (row : Row K).

Lemma build_postings_lookup (tokens : list Z) (row_id : K) (pos : Z)
    (index : gmap Z (list (K * Z))) (token : Z) :
  default [] (build_postings tokens row_id pos index !! token)
  = default [] (index !! token) ++ postings_of tokens row_id pos token.
Proof.
  revert pos index. induction tokens as [|x rest IH]; intros pos index; simpl.
  - by rewrite app_nil_r.
  - rewrite IH. destruct (decide (x = token)) as [->|Hne].
    + rewrite lookup_insert_eq. simpl.
      destruct (index !! token) as [ps|] eqn:Hl; simpl.
      * rewrite Hl. simpl. by rewrite <- app_assoc.
      * rewrite lookup_insert_eq. simpl. done.
    + rewrite lookup_insert_ne by done. simpl. f_equal.
      destruct (index !! x); [done|].
      by rewrite lookup_insert_ne.
Qed.

Lemma postings_of_elem (tokens : list Z) (row_id : K) (pos : Z) (token : Z)
    (c : K) (j : Z) :
  (c, j) ∈ postings_of tokens row_id pos token
  <-> c = row_id
      /\ exists p : nat, j = pos + Z.of_nat p /\ tokens !! p = Some token.
Proof.
  revert pos. induction tokens as [|x rest IH]; intros pos; simpl.
  - rewrite elem_of_nil. split; [done|]. by intros (_ & p & _ & Hp).
  - rewrite elem_of_app, IH. split.
    + intros [Hin|(-> & p & -> & Hp)].
      * destruct (decide (x = token)) as [->|]; [|by apply elem_of_nil in Hin].
        apply list_elem_of_singleton in Hin. injection Hin as -> ->.
        split; [done|]. exists 0%nat. split; [lia|done].
      * split; [done|]. exists (S p). split; [lia|done].
    + intros (-> & [|p] & -> & Hp); simpl in Hp.
      * injection Hp as ->. left. rewrite decide_True by done.
        apply list_elem_of_singleton. f_equal. lia.
      * right. split; [done|]. exists p. split; [lia|done].
Qed.

Lemma build_row_prefix self row row' :
  index_prefix (build_row self row') row = index_prefix self row.
Proof. reflexivity. Qed.

Lemma build_row_tokens self row row' :
  index_attr_tokens (build_row self row') row = index_attr_tokens self row.
Proof. reflexivity. Qed.

Lemma foldl_build_row_probe (rows : list (Row K)) self (token : Z) :
  probe (foldl build_row self rows) token
  = probe self token
    ++ concat ((fun row => postings_of (index_prefix self row) (row_key row)
                             0 token) <$> rows).
Proof.
  revert self. induction rows as [|r rows IH]; intros self; simpl.
  - by rewrite app_nil_r.
  - rewrite IH. unfold probe at 1. simpl.
    rewrite build_postings_lookup. rewrite <- app_assoc. done.
Qed.

Lemma foldl_build_row_size_other (rows : list (Row K)) self (k : K) :
  k ∉ row_key <$> rows ->
  get_size (foldl build_row self rows) k = get_size self k.
Proof.
  revert self. induction rows as [|r rows IH]; intros self Hk; simpl; [done|].
  simpl in Hk. apply not_elem_of_cons in Hk as [Hne Hk].
  rewrite IH by done. unfold get_size. simpl. by rewrite lookup_insert_ne.
Qed.

Lemma foldl_build_row_size (rows : list (Row K)) self row :
  NoDup (row_key <$> rows) -> row ∈ rows ->
  get_size (foldl build_row self rows) (row_key row)
  = Some (len (index_attr_tokens self row)).
Proof.
  revert self. induction rows as [|r rows IH]; intros self Hnd Hin; simpl.
  - by apply elem_of_nil in Hin.
  - simpl in Hnd. apply NoDup_cons in Hnd as [Hr Hnd].
    apply elem_of_cons in Hin as [->|Hin].
    + rewrite foldl_build_row_size_other by done.
      unfold get_size. simpl. by rewrite lookup_insert_eq.
    + rewrite IH by done. done.
Qed.

Lemma build_probe (table : list (Row K)) tokenizer sim th ordering token :
  let init := PositionIndex_init table tokenizer sim th ordering in
  probe (build init) token
  = concat ((fun row => postings_of (index_prefix init row) (row_key row)
                          0 token) <$> table).
Proof. simpl. unfold build. by rewrite foldl_build_row_probe. Qed.

Lemma build_probe_elem (table : list (Row K)) tokenizer sim th ordering
    token (c : K) (j : Z) :
  let init := PositionIndex_init table tokenizer sim th ordering in
  (c, j) ∈ probe (build init) token
  <-> exists row (p : nat),
        row ∈ table /\ c = row_key row /\ j = Z.of_nat p
        /\ index_prefix init row !! p = Some token.
Proof.
  simpl. rewrite build_probe. rewrite elem_of_concat. split.
  - intros (ps & Hj & Hps). apply list_elem_of_fmap in Hps as (row & -> & Hrow).
    apply postings_of_elem in Hj as (-> & p & -> & Hp).
    exists row, p. repeat split; done.
  - intros (row & p & Hrow & -> & -> & Hp).
    eexists. split; [|apply list_elem_of_fmap; eauto].
    apply postings_of_elem. split; [done|]. exists p. split; [lia|done].
Qed.

Lemma build_size (table : list (Row K)) tokenizer sim th ordering row :
  let init := PositionIndex_init table tokenizer sim th ordering in
  NoDup (row_key <$> table) -> row ∈ table ->
  get_size (build init) (row_key row)
  = Some (len (index_attr_tokens init row)).
Proof. simpl. intros. unfold build. by apply foldl_build_row_size. Qed.

End IndexProofs.

(** ** The sweep of the position filter *)

Section SweepProofs.
Context {K Th Score : Type} `{Countable K} `{!Collaborators K Th Score}.

Implicit Types (self : PositionFilter Th) (position_index : PositionIndex K Th).

Lemma overlap_threshold_cache_lookup self (n_r lo hi size : Z) :
  overlap_threshold_cache self n_r lo hi !! size
  = if decide (lo <= size <= hi)
    then Some (get_overlap_threshold size n_r (pf_sim_measure_type self)
                 (pf_threshold self) (pf_tokenizer self))
    else None.
Proof.
  unfold overlap_threshold_cache.
  rewrite (foldl_insert_lookup
             (fun size => get_overlap_threshold size n_r
                            (pf_sim_measure_type self) (pf_threshold self)
                            (pf_tokenizer self))).
  destruct (decide (size ∈ xrange lo (hi + 1))) as [Hin|Hnin];
    rewrite elem_of_xrange in *.
  - rewrite decide_True by lia. done.
  - rewrite decide_False by lia. done.
Qed.

Lemma probe_posting_sweep_step self position_index (n_r r_pos : Z)
    (candidate_overlap : gmap K Z) (posting : K * Z) :
  let lo := get_size_lower_bound n_r (pf_sim_measure_type self)
              (pf_threshold self) in
  let hi := get_size_upper_bound n_r (pf_sim_measure_type self)
              (pf_threshold self) in
  probe_posting n_r r_pos lo hi (overlap_threshold_cache self n_r lo hi)
    position_index candidate_overlap posting
  = Some (sweep_step self n_r position_index candidate_overlap
            (r_pos, posting)).
Proof.
  intros lo hi. destruct posting as [cand cand_pos].
  unfold probe_posting, sweep_step.
  destruct (get_size position_index cand) as [n_c|]; [|done].
  fold lo hi.
  destruct (bool_decide (lo <= n_c <= hi)) eqn:Hsize.
  - apply bool_decide_eq_true in Hsize.
    replace ((lo <=? n_c) && (n_c <=? hi)) with true by (symmetry; apply andb_true_iff; lia).
    rewrite overlap_threshold_cache_lookup, decide_True by done. simpl.
    unfold overlap_upper_bound.
    match goal with |- context [bool_decide ?P] => destruct (bool_decide P) eqn:Hcmp end.
    + apply bool_decide_eq_true in Hcmp.
      match goal with
      | |- context [?a >=? ?b] =>
          replace (a >=? b) with true by (symmetry; apply Z.geb_le; lia)
      end.
      done.
    + apply bool_decide_eq_false in Hcmp.
      match goal with
      | |- context [?a >=? ?b] =>
          replace (a >=? b) with false
            by (symmetry; rewrite Z.geb_leb; apply Z.leb_gt; lia)
      end.
      done.
  - apply bool_decide_eq_false in Hsize.
    replace ((lo <=? n_c) && (n_c <=? hi)) with false; [done|].
    symmetry. apply andb_false_iff. lia.
Qed.

Lemma probe_postings_sweep self position_index (n_r r_pos : Z)
    (postings : list (K * Z)) (candidate_overlap : gmap K Z) :
  let lo := get_size_lower_bound n_r (pf_sim_measure_type self)
              (pf_threshold self) in
  let hi := get_size_upper_bound n_r (pf_sim_measure_type self)
              (pf_threshold self) in
  probe_postings n_r r_pos lo hi (overlap_threshold_cache self n_r lo hi)
    position_index postings candidate_overlap
  = Some (foldl (sweep_step self n_r position_index) candidate_overlap
            ((fun posting => (r_pos, posting)) <$> postings)).
Proof.
  intros lo hi. revert candidate_overlap.
  induction postings as [|posting rest IH]; intros candidate_overlap; simpl;
    [done|].
  pose proof (probe_posting_sweep_step self position_index n_r r_pos
                candidate_overlap posting) as Hstep.
  simpl in Hstep. fold lo hi in Hstep. rewrite Hstep. simpl. apply IH.
Qed.

Lemma probe_tokens_sweep self position_index (n_r : Z) (tokens : list Z)
    (r_pos : Z) (candidate_overlap : gmap K Z) :
  let lo := get_size_lower_bound n_r (pf_sim_measure_type self)
              (pf_threshold self) in
  let hi := get_size_upper_bound n_r (pf_sim_measure_type self)
              (pf_threshold self) in
  probe_tokens n_r lo hi (overlap_threshold_cache self n_r lo hi)
    position_index tokens r_pos candidate_overlap
  = Some (foldl (sweep_step self n_r position_index) candidate_overlap
            (events_from position_index r_pos tokens)).
Proof.
  intros lo hi. revert r_pos candidate_overlap.
  induction tokens as [|token rest IH]; intros r_pos candidate_overlap; simpl;
    [done|].
  pose proof (probe_postings_sweep self position_index n_r r_pos
                (probe position_index token) candidate_overlap) as Hrow.
  simpl in Hrow. fold lo hi in Hrow. rewrite Hrow. simpl.
  rewrite foldl_app. apply IH.
Qed.

(** [_find_candidates] never raises and computes the sweep. *)
Lemma find_candidates_sweep self (r_ordered_tokens : list Z)
    (r_num_tokens r_prefix_length : Z) position_index :
  _find_candidates self r_ordered_tokens r_num_tokens r_prefix_length
    position_index
  = Some (sweep self r_num_tokens position_index
            (events_from position_index 0
               (py_slice_to r_ordered_tokens r_prefix_length))).
Proof. unfold _find_candidates, sweep. apply probe_tokens_sweep. Qed.

Lemma events_from_elem position_index (r_pos : Z) (tokens : list Z)
    (i : Z) (posting : K * Z) :
  (i, posting) ∈ events_from position_index r_pos tokens
  <-> exists (n : nat) token,
        i = r_pos + Z.of_nat n /\ tokens !! n = Some token
        /\ posting ∈ probe position_index token.
Proof.
  revert r_pos. induction tokens as [|token rest IH]; intros r_pos; simpl.
  - rewrite elem_of_nil. split; [done|]. by intros (n & t & _ & Hn & _).
  - rewrite elem_of_app, list_elem_of_fmap, IH. split.
    + intros [(p & Heq & Hp)|(n & t & -> & Hn & Hp)].
      * injection Heq as -> ->. exists 0%nat, token.
        split; [lia|]. done.
      * exists (S n), t. split; [lia|]. done.
    + intros ([|n] & t & -> & Hn & Hp); simpl in Hn.
      * injection Hn as ->. left. exists posting. split; [f_equal; lia|done].
      * right. exists n, t. split; [lia|]. done.
Qed.


End SweepProofs.

Section PositionIndexInvariant.
Context {K Th Score : Type} `{Countable K} `{!Collaborators K Th Score}.

(** C9. Position index build invariant: after [build] over a table with
    unique keys, for every row and every token [t] at 0-based position
    [p] among the first [prefix_length] tokens of its ordered token
    list, the posting [(key, p)] is in the list that [probe] returns for
    [t]; [get_size] of the key is the number of all ordered tokens of
    the row; and [probe] and [get_size] read the two dictionaries. *)
Theorem position_index_build_invariant (table : list (Row K))
    (tokenizer : Tokenizer) (sim_measure_type : SimMeasure) (threshold : Th)
    (token_ordering : gmap string Z) (row : Row K) :
  let self :=
    build (PositionIndex_init table tokenizer sim_measure_type threshold
             token_ordering) in
  let tokens :=
    order_using_token_ordering (tokenizer_tokenize tokenizer (row_join row))
      token_ordering in
  let prefix_length :=
    get_prefix_length (len tokens) sim_measure_type threshold tokenizer in
  NoDup (row_key <$> table) ->
  row ∈ table ->
  (forall (p : nat) (t : Z),
      tokens !! p = Some t -> Z.of_nat p < prefix_length ->
      (row_key row, Z.of_nat p) ∈ probe self t)
  /\ get_size self (row_key row) = Some (len tokens)
  /\ (forall t, probe self t = default [] (pi_index self !! t))
  /\ (forall k, get_size self k = pi_size_map self !! k).
Proof.
  intros self tokens prefix_length Hnd Hrow. repeat split.
  - intros p t Hp Hlt. apply build_probe_elem.
    exists row, p. repeat split; [done|].
    apply py_slice_to_lookup; done.
  - apply (build_size table tokenizer sim_measure_type threshold
             token_ordering row); done.
Qed.

End PositionIndexInvariant.

(** ** Permanence of the sentinel *)

Section CountStep.
Context {E : Type} (ub : E -> Z) (threshold : Z).

Let step (cur : Z) (e : E) : Z := count_step threshold cur (ub e).

Lemma dominated_tail (n : Z) (e : E) (es : list E) :
  dominated ub n (e :: es) -> dominated ub (n + 1) es.
Proof.
  intros Hdom A e1 B e2 -> He2.
  specialize (Hdom (e :: A) e1 B e2 eq_refl He2).
  unfold len in *. simpl in Hdom. lia.
Qed.

Lemma count_dead (es : list E) :
  (forall e, e ∈ es -> ub e < threshold) -> foldl step 0 es = 0.
Proof.
  induction es as [|e es IH]; intros Hall; simpl; [done|].
  assert (step 0 e = 0) as ->.
  { unfold step, count_step. rewrite bool_decide_eq_false_2; [done|].
    assert (ub e < threshold) by (apply Hall, elem_of_cons; auto). lia. }
  apply IH. intros e' He'. apply Hall. apply elem_of_cons. auto.
Qed.

Lemma count_pruned_stays (es : list E) (n : Z) (A : list E) (e1 : E)
    (B1 B2 : list E) :
  0 <= n ->
  dominated ub n es ->
  es = A ++ e1 :: B1 ++ B2 ->
  foldl step n A + ub e1 < threshold ->
  foldl step n (A ++ e1 :: B1) = 0.
Proof.
  revert n A. induction es as [|e es IH]; intros n A Hn Hdom Hes Hlt.
  - by destruct A.
  - destruct A as [|a A]; simpl in Hes; injection Hes as -> ->.
    + simpl in *.
      assert (step n e1 = 0) as ->.
      { unfold step, count_step. rewrite bool_decide_eq_false_2; [done|lia]. }
      apply count_dead. intros e' He'.
      specialize (Hdom [] e1 (B1 ++ B2) e' eq_refl).
      unfold len in Hdom. simpl in Hdom.
      assert (e' ∈ B1 ++ B2) as Hin by (apply elem_of_app; auto).
      specialize (Hdom Hin). lia.
    + simpl in *. unfold step at 2 in Hlt. unfold step at 2.
      unfold count_step in *.
      destruct (bool_decide (threshold <= n + ub a)) eqn:Hcmp.
      * apply (IH (n + 1) A); [lia| |done|done].
        by apply (dominated_tail n a).
      * apply bool_decide_eq_false in Hcmp.
        apply count_dead. intros e' He'.
        specialize (Hdom [] a (A ++ e1 :: B1 ++ B2) e' eq_refl).
        unfold len in Hdom. simpl in Hdom.
        assert (e' ∈ A ++ e1 :: B1 ++ B2) as Hin.
        { apply elem_of_app in He' as [?|He']; [apply elem_of_app; auto|].
          apply elem_of_app; right.
          apply elem_of_cons in He' as [->|?]; apply elem_of_cons; [auto|].
          right. apply elem_of_app; auto. }
        specialize (Hdom Hin). lia.
Qed.

End CountStep.

Lemma StronglySorted_le_lookup (l : list Z) (i j : nat) (a b : Z) :
  StronglySorted Z.le l -> l !! i = Some a -> l !! j = Some b ->
  (i <= j)%nat -> a <= b.
Proof.
  intros Hs. revert i j. induction Hs as [|x l Hs IH Hall]; intros i j Hi Hj Hij.
  - done.
  - destruct i as [|i], j as [|j]; simpl in *; try lia.
    + injection Hi as ->. injection Hj as ->. lia.
    + injection Hi as ->. rewrite Forall_forall in Hall.
      apply Hall. by apply list_elem_of_lookup_2 in Hj.
    + apply (IH i j); [done|done|lia].
Qed.

Lemma Sorted_le_py_slice_to (l : list Z) (stop : Z) :
  Sorted Z.le l -> StronglySorted Z.le (py_slice_to l stop).
Proof.
  intros Hs. apply (Sorted_StronglySorted Z.le) in Hs.
  destruct (py_slice_to_take l stop) as [n ->].
  rewrite <- (take_drop n l) in Hs.
  by apply StronglySorted_app_1_l in Hs.
Qed.

Lemma event_lt_irrefl (a : Z * Z) : ~ event_lt a a.
Proof. unfold event_lt. lia. Qed.

Lemma event_lt_asym (a b : Z * Z) : event_lt a b -> ~ event_lt b a.
Proof. unfold event_lt. lia. Qed.

(** In a list sorted by [event_lt], what is below an element stands before
    it. *)
Lemma sorted_below_before (A : list (Z * Z)) (e : Z * Z) (B : list (Z * Z))
    (x : Z * Z) :
  StronglySorted event_lt (A ++ e :: B) -> x ∈ A ++ e :: B -> event_lt x e ->
  x ∈ A.
Proof.
  intros Hs Hx Hlt. apply elem_of_app in Hx as [Hx|Hx]; [done|].
  apply elem_of_cons in Hx as [->|Hx].
  - by apply event_lt_irrefl in Hlt.
  - apply StronglySorted_app_1_r, StronglySorted_cons in Hs as [Hall _].
    rewrite Forall_forall in Hall. apply Hall in Hx.
    by apply event_lt_asym in Hlt.
Qed.

Section SentinelProofs.
Context {K Th Score : Type} `{Countable K} `{!Collaborators K Th Score}.

Implicit Types (self : PositionFilter Th) (position_index : PositionIndex K Th).

Lemma sweep_step_other self n_r position_index (overlap : gmap K Z)
    (i : Z) (c' : K) (j : Z) (c : K) :
  c' <> c ->
  sweep_step self n_r position_index overlap (i, (c', j)) !! c = overlap !! c.
Proof.
  intros Hne. unfold sweep_step.
  destruct (get_size position_index c'); [|done].
  repeat case_bool_decide; by rewrite ?lookup_insert_ne.
Qed.

Lemma sweep_step_same self n_r position_index (overlap : gmap K Z)
    (i : Z) (c : K) (j n_c : Z) :
  get_size position_index c = Some n_c ->
  get_size_lower_bound n_r (pf_sim_measure_type self) (pf_threshold self)
    <= n_c
    <= get_size_upper_bound n_r (pf_sim_measure_type self) (pf_threshold self) ->
  sweep_step self n_r position_index overlap (i, (c, j)) !! c
  = Some (count_step
            (get_overlap_threshold n_c n_r (pf_sim_measure_type self)
               (pf_threshold self) (pf_tokenizer self))
            (default 0 (overlap !! c)) (overlap_upper_bound n_r i n_c j)).
Proof.
  intros Hsize Hin. unfold sweep_step, count_step. rewrite Hsize.
  rewrite bool_decide_eq_true_2 by done.
  case_bool_decide; by rewrite lookup_insert_eq.
Qed.

Lemma sweep_step_is_Some self n_r position_index (overlap : gmap K Z)
    (event : Z * (K * Z)) (c : K) :
  is_Some (overlap !! c) ->
  is_Some (sweep_step self n_r position_index overlap event !! c).
Proof.
  intros Hs. destruct event as [i [c' j]]. unfold sweep_step.
  destruct (get_size position_index c'); [|done].
  repeat case_bool_decide; try done;
    (destruct (decide (c' = c)) as [->|Hne];
     [rewrite lookup_insert_eq; eauto|by rewrite lookup_insert_ne]).
Qed.

Lemma sweep_is_Some self n_r position_index (events : list (Z * (K * Z)))
    (overlap : gmap K Z) (c : K) :
  is_Some (overlap !! c) ->
  is_Some (foldl (sweep_step self n_r position_index) overlap events !! c).
Proof.
  revert overlap. induction events as [|e events IH]; intros overlap Hs;
    simpl; [done|].
  by apply IH, sweep_step_is_Some.
Qed.

Lemma cand_events_cons (c : K) (i : Z) (c' : K) (j : Z)
    (events : list (Z * (K * Z))) :
  cand_events c ((i, (c', j)) :: events)
  = if decide (c' = c) then (i, j) :: cand_events c events
    else cand_events c events.
Proof. unfold cand_events. simpl. by destruct (decide (c' = c)). Qed.

Lemma cand_events_split (c : K) (i j : Z)
    (before after : list (Z * (K * Z))) :
  cand_events c (before ++ (i, (c, j)) :: after)
  = cand_events c before ++ (i, j) :: cand_events c after.
Proof.
  unfold cand_events at 1. rewrite omap_app. f_equal.
  fold (cand_events c ((i, (c, j)) :: after)).
  rewrite cand_events_cons. by rewrite decide_True.
Qed.

(** The count of one candidate depends on its own postings only. *)
Lemma sweep_cand_count self n_r position_index (c : K) (n_c : Z)
    (events : list (Z * (K * Z))) (overlap : gmap K Z) :
  get_size position_index c = Some n_c ->
  get_size_lower_bound n_r (pf_sim_measure_type self) (pf_threshold self)
    <= n_c
    <= get_size_upper_bound n_r (pf_sim_measure_type self) (pf_threshold self) ->
  default 0 (foldl (sweep_step self n_r position_index) overlap events !! c)
  = foldl (fun cur (e : Z * Z) =>
             count_step
               (get_overlap_threshold n_c n_r (pf_sim_measure_type self)
                  (pf_threshold self) (pf_tokenizer self))
               cur (overlap_upper_bound n_r e.1 n_c e.2))
          (default 0 (overlap !! c)) (cand_events c events).
Proof.
  intros Hsize Hin. revert overlap.
  induction events as [|[i [c' j]] events IH]; intros overlap; [done|].
  cbn [foldl]. rewrite IH, cand_events_cons.
  destruct (decide (c' = c)) as [->|Hne].
  - cbn [foldl fst snd].
    by rewrite (sweep_step_same self n_r position_index overlap i c j n_c).
  - by rewrite sweep_step_other.
Qed.

Lemma cand_events_elem (c : K) (events : list (Z * (K * Z))) (i j : Z) :
  (i, j) ∈ cand_events c events <-> (i, (c, j)) ∈ events.
Proof.
  unfold cand_events. rewrite list_elem_of_omap. split.
  - intros ([i' [c' j']] & Hin & Heq). simpl in Heq.
    destruct (decide (c' = c)) as [->|]; [|done].
    by injection Heq as -> ->.
  - intros Hin. exists (i, (c, j)). split; [done|]. simpl.
    by rewrite decide_True.
Qed.

Lemma cand_events_row (c : K) (i : Z) (postings : list (K * Z)) :
  cand_events c ((fun posting => (i, posting)) <$> postings)
  = (fun j => (i, j)) <$> cand_positions c postings.
Proof.
  induction postings as [|[c' j] postings IH]; [done|].
  rewrite fmap_cons, cand_events_cons, IH. unfold cand_positions. simpl.
  by destruct (decide (c' = c)).
Qed.

Lemma cand_positions_postings_ne (c k : K) (tokens : list Z) (pos token : Z) :
  k <> c -> cand_positions c (postings_of tokens k pos token) = [].
Proof.
  intros Hne. revert pos. induction tokens as [|x rest IH]; intros pos;
    simpl; [done|].
  unfold cand_positions in *. rewrite omap_app, IH.
  destruct (decide (x = token)); simpl; [|done]. by rewrite decide_False.
Qed.

Lemma cand_positions_postings_eq (c : K) (tokens : list Z) (pos token : Z) :
  StronglySorted Z.lt (cand_positions c (postings_of tokens c pos token))
  /\ Forall (Z.le pos) (cand_positions c (postings_of tokens c pos token)).
Proof.
  revert pos. induction tokens as [|x rest IH]; intros pos; simpl.
  - split; constructor.
  - unfold cand_positions in *. rewrite omap_app.
    destruct (IH (pos + 1)) as [Hs Hall].
    destruct (decide (x = token)); simpl.
    + rewrite decide_True by done. simpl. split.
      * constructor; [done|]. eapply Forall_impl; [exact Hall|].
        simpl. intros; lia.
      * constructor; [lia|]. eapply Forall_impl; [exact Hall|].
        simpl. intros; lia.
    + split; [done|]. eapply Forall_impl; [exact Hall|]. simpl. intros; lia.
Qed.

Lemma cand_positions_app (c : K) (l1 l2 : list (K * Z)) :
  cand_positions c (l1 ++ l2) = cand_positions c l1 ++ cand_positions c l2.
Proof. apply omap_app. Qed.

Lemma cand_positions_rows_none (c : K) (rows : list (Row K))
    (prefix_of : Row K -> list Z) (token : Z) :
  c ∉ row_key <$> rows ->
  cand_positions c
    (concat ((fun row => postings_of (prefix_of row) (row_key row) 0 token)
               <$> rows)) = [].
Proof.
  induction rows as [|r rows IH]; intros Hc; [done|].
  rewrite fmap_cons in Hc. apply not_elem_of_cons in Hc as [Hne Hc].
  rewrite fmap_cons. cbn [concat].
  rewrite cand_positions_app, IH by done.
  by rewrite cand_positions_postings_ne.
Qed.

Lemma cand_positions_rows_sorted (c : K) (rows : list (Row K))
    (prefix_of : Row K -> list Z) (token : Z) :
  NoDup (row_key <$> rows) ->
  StronglySorted Z.lt
    (cand_positions c
       (concat ((fun row => postings_of (prefix_of row) (row_key row) 0 token)
                  <$> rows))).
Proof.
  induction rows as [|r rows IH]; intros Hnd; [constructor|].
  rewrite fmap_cons in Hnd. apply NoDup_cons in Hnd as [Hr Hnd].
  rewrite fmap_cons. cbn [concat]. rewrite cand_positions_app.
  destruct (decide (row_key r = c)) as [<-|Hne].
  - rewrite cand_positions_rows_none by done. rewrite app_nil_r.
    apply cand_positions_postings_eq.
  - rewrite cand_positions_postings_ne by done. by apply IH.
Qed.

Lemma row_key_unique (rows : list (Row K)) (r1 r2 : Row K) :
  NoDup (row_key <$> rows) -> r1 ∈ rows -> r2 ∈ rows ->
  row_key r1 = row_key r2 -> r1 = r2.
Proof.
  induction rows as [|r rows IH]; intros Hnd H1 H2 Hk.
  - by apply elem_of_nil in H1.
  - rewrite fmap_cons in Hnd. apply NoDup_cons in Hnd as [Hr Hnd].
    apply elem_of_cons in H1 as [->|H1]; apply elem_of_cons in H2 as [->|H2].
    + done.
    + exfalso. apply Hr. rewrite Hk. apply list_elem_of_fmap. eauto.
    + exfalso. apply Hr. rewrite <- Hk. apply list_elem_of_fmap. eauto.
    + by apply IH.
Qed.

Section Built.
Context (table : list (Row K)) (tokenizer : Tokenizer)
        (sim_measure_type : SimMeasure) (threshold : Th)
        (token_ordering : gmap string Z).

Let init : PositionIndex K Th :=
  PositionIndex_init table tokenizer sim_measure_type threshold
    token_ordering.

Hypothesis keys_unique : NoDup (row_key <$> table).

Lemma built_cand_events_elem (c : K) (prefix : list Z) (i j : Z) :
  (i, j) ∈ cand_events c (events_from (build init) 0 prefix)
  <-> exists (n m : nat) (t : Z) (row : Row K),
        i = Z.of_nat n /\ j = Z.of_nat m /\ prefix !! n = Some t
        /\ row ∈ table /\ row_key row = c
        /\ index_prefix init row !! m = Some t.
Proof.
  rewrite cand_events_elem, events_from_elem. split.
  - intros (n & t & -> & Hn & Hp).
    apply build_probe_elem in Hp as (row & m & Hrow & -> & -> & Hm).
    exists n, m, t, row. repeat split; done || lia.
  - intros (n & m & t & row & -> & -> & Hn & Hrow & <- & Hm).
    exists n, t. split; [lia|]. split; [done|].
    apply build_probe_elem. exists row, m. repeat split; done.
Qed.

Lemma built_cand_events_sorted (c : K) (r_pos : Z) (prefix : list Z) :
  StronglySorted event_lt
    (cand_events c (events_from (build init) r_pos prefix)).
Proof.
  revert r_pos. induction prefix as [|token rest IH]; intros r_pos.
  - constructor.
  - cbn [events_from]. unfold cand_events at 1. rewrite omap_app.
    fold (cand_events c ((fun posting => (r_pos, posting))
                           <$> probe (build init) token)).
    fold (cand_events c (events_from (build init) (r_pos + 1) rest)).
    rewrite cand_events_row. apply StronglySorted_app_2.
    + intros x1 [i2 j2] Hx1 Hx2.
      apply list_elem_of_fmap in Hx1 as (j1 & -> & _).
      apply cand_events_elem, events_from_elem in Hx2
        as (n & t & -> & _ & _).
      left. simpl. lia.
    + apply (StronglySorted_fmap _ Z.lt).
      * intros x y Hxy. right. simpl. lia.
      * unfold init. rewrite build_probe.
        by apply cand_positions_rows_sorted.
    + apply IH.
Qed.

Hypothesis rows_sorted :
  forall row, row ∈ table -> Sorted Z.le (index_attr_tokens init row).

(** Among the postings of one candidate, a later one is bounded by an
    earlier one plus the number of postings before that one. *)
Lemma built_cand_events_dominated (c : K) (r_ordered_tokens : list Z)
    (r_prefix_length n_r n_c : Z) :
  Sorted Z.le r_ordered_tokens ->
  dominated (fun e : Z * Z => overlap_upper_bound n_r e.1 n_c e.2) 0
    (cand_events c
       (events_from (build init) 0
          (py_slice_to r_ordered_tokens r_prefix_length))).
Proof.
  intros Hprobe A [i1 j1] B [i2 j2] HEc He2.
  set (prefix := py_slice_to r_ordered_tokens r_prefix_length) in *.
  assert (StronglySorted Z.le prefix) as Hprefix
    by by apply Sorted_le_py_slice_to.
  pose proof (built_cand_events_sorted c 0 prefix) as Hs.
  rewrite HEc in Hs.
  assert (event_lt (i1, j1) (i2, j2)) as Hlt.
  { apply StronglySorted_app_1_r, StronglySorted_cons in Hs as [Hall _].
    rewrite Forall_forall in Hall. by apply Hall. }
  assert ((i1, j1) ∈ cand_events c (events_from (build init) 0 prefix))
    as H1 by (rewrite HEc; apply elem_of_app; right; apply elem_of_cons; auto).
  assert ((i2, j2) ∈ cand_events c (events_from (build init) 0 prefix))
    as H2 by (rewrite HEc; apply elem_of_app; right; apply elem_of_cons; auto).
  apply built_cand_events_elem in H1
    as (n1 & m1 & t1 & row1 & -> & -> & Hn1 & Hrow1 & Hk1 & Hm1).
  apply built_cand_events_elem in H2
    as (n2 & m2 & t2 & row2 & -> & -> & Hn2 & Hrow2 & Hk2 & Hm2).
  assert (row2 = row1) as ->
    by (apply (row_key_unique table); [done..|congruence]).
  assert (StronglySorted Z.le (index_prefix init row1)) as Hcand
    by (apply Sorted_le_py_slice_to, rows_sorted; done).
  unfold overlap_upper_bound, len. simpl.
  destruct (decide (m1 <= m2)%nat) as [Hle|Hgt].
  { destruct Hlt as [Hlt|[Hlt _]]; simpl in Hlt; lia. }
  destruct Hlt as [Hlt|[_ Hlt]]; simpl in Hlt; [|lia].
  assert (t1 <= t2)
    by (apply (StronglySorted_le_lookup prefix n1 n2); [done..|lia]).
  assert (t2 <= t1)
    by (apply (StronglySorted_le_lookup (index_prefix init row1) m2 m1);
        [done..|lia]).
  assert (t2 = t1) as -> by lia.
  assert (m1 - m2 <= length A)%nat as Hcount.
  { set (l := (fun m : Z => (Z.of_nat n1, m))
                <$> seqZ (Z.of_nat m2) (Z.of_nat m1 - Z.of_nat m2)).
    assert (length l = (m1 - m2)%nat) as <-
      by (unfold l; rewrite length_fmap, length_seqZ; lia).
    apply submseteq_length, NoDup_submseteq.
    - apply NoDup_fmap_2; [|apply NoDup_seqZ]. by intros ?? [= ->].
    - intros x Hx. apply list_elem_of_fmap in Hx as (m & -> & Hm).
      apply list_elem_of_lookup in Hm as [k Hm]. apply lookup_seqZ in Hm
        as [-> Hk].
      apply (sorted_below_before A (Z.of_nat n1, Z.of_nat m1) B);
        [done| |right; simpl; lia].
      rewrite <- HEc. apply built_cand_events_elem.
      destruct (lookup_lt_is_Some_2 (index_prefix init row1) (m2 + k)%nat)
        as [t' Ht'].
      { apply lookup_lt_Some in Hm1. lia. }
      assert (t1 <= t')
        by (apply (StronglySorted_le_lookup (index_prefix init row1) m2
                     (m2 + k)%nat); [done..|lia]).
      assert (t' <= t1)
        by (apply (StronglySorted_le_lookup (index_prefix init row1)
                     (m2 + k)%nat m1); [done..|lia]).
      exists n1, (m2 + k)%nat, t1, row1.
      repeat split; [lia|done..|]. rewrite Ht'. f_equal. lia. }
  lia.
Qed.

End Built.

End SentinelProofs.

Section SentinelPermanence.
Context {K Th Score : Type} `{Countable K} `{!Collaborators K Th Score}.


End SentinelPermanence.

(** ** The position filter keeps what reaches the threshold *)

Lemma StronglySorted_lt_lookup (l : list Z) (i j : nat) (a b : Z) :
  StronglySorted Z.lt l -> l !! i = Some a -> l !! j = Some b ->
  (i < j)%nat -> a < b.
Proof.
  intros Hs. revert i j. induction Hs as [|x l Hs IH Hall]; intros i j Hi Hj Hij.
  - done.
  - destruct i as [|i], j as [|j]; simpl in *; try lia.
    + injection Hi as ->. rewrite Forall_forall in Hall.
      apply Hall. by apply list_elem_of_lookup_2 in Hj.
    + apply (IH i j); [done|done|lia].
Qed.

Lemma StronglySorted_lt_lookup_inv (l : list Z) (i j : nat) (a b : Z) :
  StronglySorted Z.lt l -> l !! i = Some a -> l !! j = Some b ->
  a < b -> (i < j)%nat.
Proof.
  intros Hs Hi Hj Hab. destruct (decide (i < j)%nat) as [|Hge]; [done|].
  destruct (decide (i = j)) as [->|Hne].
  - rewrite Hi in Hj. injection Hj as ->. lia.
  - assert (b < a); [|lia].
    apply (StronglySorted_lt_lookup l j i); [done..|lia].
Qed.

Lemma StronglySorted_lt_NoDup (l : list Z) : StronglySorted Z.lt l -> NoDup l.
Proof.
  induction 1 as [|x l Hs IH Hall]; constructor; [|done].
  intros Hin. rewrite Forall_forall in Hall. apply Hall in Hin. lia.
Qed.

Section CountAll.
Context {E : Type} (ub : E -> Z) (threshold : Z).

(** If every posting of a candidate can still reach the threshold when
    it is met, the count of the candidate is the number of its postings. *)
Lemma count_all_pass (es : list E) (n : Z) :
  (forall A e B, es = A ++ e :: B -> threshold <= n + len A + ub e) ->
  foldl (fun cur e => count_step threshold cur (ub e)) n es = n + len es.
Proof.
  revert n. induction es as [|e es IH]; intros n Hall; simpl.
  - unfold len. simpl. lia.
  - pose proof (Hall [] e es eq_refl) as He. unfold len in He. simpl in He.
    unfold count_step at 2. rewrite bool_decide_eq_true_2 by lia.
    rewrite IH.
    + unfold len. simpl. lia.
    + intros A e' B ->. specialize (Hall (e :: A) e' B eq_refl).
      unfold len in *. simpl in Hall. lia.
Qed.

End CountAll.

Section FilterSafety.
Context {K Th Score : Type} `{Countable K} `{!Collaborators K Th Score}.

(** No false negative of the sweep: over an index built from a table
    with unique keys, for a row and a probe whose ordered tokens are
    strictly ascending (set mode), if the size of the row passes the size
    test, the number of common tokens reaches the overlap threshold of the
    two sizes, and some token lies in both prefixes, then
    [_find_candidates] returns a positive count for the row. *)
Lemma find_candidates_keeps_overlap (table : list (Row K))
    (tokenizer : Tokenizer) (sim_measure_type : SimMeasure) (threshold : Th)
    (token_ordering : gmap string Z) (self : PositionFilter Th)
    (r_ordered_tokens : list Z) (r_prefix_length : Z) (c_row : Row K) :
  let init :=
    PositionIndex_init table tokenizer sim_measure_type threshold
      token_ordering in
  let l_ordered_tokens := index_attr_tokens init c_row in
  let n_c := len l_ordered_tokens in
  let n_r := len r_ordered_tokens in
  NoDup (row_key <$> table) ->
  c_row ∈ table ->
  StronglySorted Z.lt l_ordered_tokens ->
  StronglySorted Z.lt r_ordered_tokens ->
  get_size_lower_bound n_r (pf_sim_measure_type self) (pf_threshold self)
    <= n_c
    <= get_size_upper_bound n_r (pf_sim_measure_type self) (pf_threshold self) ->
  get_overlap_threshold n_c n_r (pf_sim_measure_type self) (pf_threshold self)
    (pf_tokenizer self)
    <= len (filter (fun t => t ∈ r_ordered_tokens) l_ordered_tokens) ->
  (exists t, t ∈ index_prefix init c_row
             /\ t ∈ py_slice_to r_ordered_tokens r_prefix_length) ->
  exists candidate_overlap v,
    _find_candidates self r_ordered_tokens n_r r_prefix_length (build init)
    = Some candidate_overlap
    /\ candidate_overlap !! row_key c_row = Some v /\ 0 < v.
Proof.
  intros init Lc n_c n_r Hkeys Hrow HLc HR Hsize Hthr (t0 & Ht0c & Ht0r).
  set (c := row_key c_row).
  set (P := py_slice_to r_ordered_tokens r_prefix_length) in *.
  set (Pc := index_prefix init c_row) in *.
  set (Ec := cand_events c (events_from (build init) 0 P)).
  destruct (py_slice_to_take r_ordered_tokens r_prefix_length) as [kr HP].
  fold P in HP.
  assert (exists kc, Pc = take kc Lc) as [kc HPc] by apply py_slice_to_take.
  assert (get_size (build init) c = Some n_c) as Hget
    by by apply build_size.
  assert (forall A e B, Ec = A ++ e :: B ->
            get_overlap_threshold n_c n_r (pf_sim_measure_type self)
              (pf_threshold self) (pf_tokenizer self)
            <= 0 + len A + overlap_upper_bound n_r e.1 n_c e.2) as Hpass.
  { intros A [i j] B HEc. simpl.
    pose proof (built_cand_events_sorted table tokenizer sim_measure_type
                  threshold token_ordering Hkeys c 0 P) as Hs.
    fold init in Hs. fold Ec in Hs. rewrite HEc in Hs.
    assert ((i, j) ∈ Ec) as Hin
      by (rewrite HEc; apply elem_of_app; right; apply elem_of_cons; auto).
    apply built_cand_events_elem in Hin
      as (n & m & t & row & -> & -> & Hn & Hrow' & Hk & Hm).
    assert (row = c_row) as ->
      by (apply (row_key_unique table); done).
    change (Pc !! m = Some t) in Hm. rewrite HPc in Hm. rewrite HP in Hn.
    apply lookup_take_Some in Hm as [Hm Hmk].
    apply lookup_take_Some in Hn as [Hn Hnk].
    set (tok := fun e : Z * Z =>
                  default 0 (r_ordered_tokens !! Z.to_nat e.1)).
    assert (forall x, x ∈ filter (fun t => t ∈ r_ordered_tokens) Lc ->
              x < t -> x ∈ tok <$> A) as Hbelow.
    { intros x [Hxr Hxc]%list_elem_of_filter Hlt.
      apply list_elem_of_lookup in Hxr as [a Ha].
      apply list_elem_of_lookup in Hxc as [b Hb].
      assert (a < n)%nat
        by by apply (StronglySorted_lt_lookup_inv r_ordered_tokens a n x t).
      assert (b < m)%nat
        by by apply (StronglySorted_lt_lookup_inv Lc b m x t).
      apply list_elem_of_fmap. exists (Z.of_nat a, Z.of_nat b). split.
      - unfold tok. simpl. by rewrite Nat2Z.id, Ha.
      - apply (sorted_below_before A (Z.of_nat n, Z.of_nat m) B);
          [done| |unfold event_lt; simpl; lia].
        rewrite <- HEc. apply built_cand_events_elem.
        exists a, b, x, c_row. repeat split; try done.
        + rewrite HP. rewrite lookup_take_lt by lia. done.
        + change (Pc !! b = Some x). rewrite HPc.
          rewrite lookup_take_lt by lia. done. }
    assert (NoDup (filter (fun t => t ∈ r_ordered_tokens) Lc)) as Hnd
      by by apply NoDup_filter, StronglySorted_lt_NoDup.
    assert (len (filter (fun t => t ∈ r_ordered_tokens) Lc)
            <= len A + 1 + (n_c - Z.of_nat m - 1)) as Hc.
    { assert (length (filter (fun t => t ∈ r_ordered_tokens) Lc)
              <= length ((tok <$> A) ++ [t] ++ drop (S m) Lc))%nat as Hlen.
      { apply submseteq_length, NoDup_submseteq; [done|].
        intros x Hx. destruct (Z.lt_trichotomy x t) as [Hlt|[->|Hgt]].
        - apply elem_of_app. left. by apply Hbelow.
        - apply elem_of_app. right. apply elem_of_cons. by left.
        - apply elem_of_app. right. apply elem_of_cons. right.
          apply list_elem_of_filter in Hx as [_ Hxc].
          apply list_elem_of_lookup in Hxc as [b Hb].
          assert (m < b)%nat
            by by apply (StronglySorted_lt_lookup_inv Lc m b t x).
          apply list_elem_of_lookup. exists (b - S m)%nat.
          rewrite lookup_drop. rewrite <- Hb. f_equal. lia. }
      rewrite !length_app, length_fmap, length_drop in Hlen. simpl in Hlen.
      apply lookup_lt_Some in Hm. unfold len, n_c, len in *. lia. }
    assert (len (filter (fun t => t ∈ r_ordered_tokens) Lc)
            <= len A + 1 + (n_r - Z.of_nat n - 1)) as Hr.
    { assert (length (filter (fun t => t ∈ r_ordered_tokens) Lc)
              <= length ((tok <$> A) ++ [t] ++ drop (S n) r_ordered_tokens))%nat
        as Hlen.
      { apply submseteq_length, NoDup_submseteq; [done|].
        intros x Hx. destruct (Z.lt_trichotomy x t) as [Hlt|[->|Hgt]].
        - apply elem_of_app. left. by apply Hbelow.
        - apply elem_of_app. right. apply elem_of_cons. by left.
        - apply elem_of_app. right. apply elem_of_cons. right.
          apply list_elem_of_filter in Hx as [Hxr _].
          apply list_elem_of_lookup in Hxr as [a Ha].
          assert (n < a)%nat
            by by apply (StronglySorted_lt_lookup_inv r_ordered_tokens n a t x).
          apply list_elem_of_lookup. exists (a - S n)%nat.
          rewrite lookup_drop. rewrite <- Ha. f_equal. lia. }
      rewrite !length_app, length_fmap, length_drop in Hlen. simpl in Hlen.
      apply lookup_lt_Some in Hn. unfold len, n_r, len in *. lia. }
    unfold overlap_upper_bound. lia. }
  exists (sweep self n_r (build init) (events_from (build init) 0 P)).
  pose proof (sweep_cand_count self n_r (build init) c n_c
                (events_from (build init) 0 P) ∅ Hget Hsize) as Hcount.
  rewrite lookup_empty in Hcount. simpl in Hcount. fold Ec in Hcount.
  rewrite (count_all_pass (fun e : Z * Z => overlap_upper_bound n_r e.1 n_c e.2)
             _ Ec 0 Hpass) in Hcount.
  assert (0 < len Ec) as Hpos.
  { apply list_elem_of_lookup in Ht0c as [m Hm].
    apply list_elem_of_lookup in Ht0r as [n Hn].
    assert ((Z.of_nat n, Z.of_nat m) ∈ Ec) as Hin.
    { apply built_cand_events_elem.
      exists n, m, t0, c_row. repeat split; done. }
    destruct Ec; [by apply elem_of_nil in Hin|]. unfold len. simpl. lia. }
  unfold sweep in *.
  destruct (foldl (sweep_step self n_r (build init)) ∅
              (events_from (build init) 0 P) !! c) as [v|] eqn:Hv.
  - exists v. split; [apply find_candidates_sweep|]. split; [done|].
    simpl in Hcount. lia.
  - simpl in Hcount. lia.
Qed.

End FilterSafety.

(** ** The set-similarity join *)

Lemma foldl_opt_invariant {A B : Type} (P : A -> Prop) (f : A -> B -> option A)
    (l : list B) (a r : A) :
  P a ->
  (forall a x a', x ∈ l -> P a -> f a x = Some a' -> P a') ->
  foldl_opt f a l = Some r -> P r.
Proof.
  revert a. induction l as [|x l IH]; intros a Ha Hstep Hrun; simpl in Hrun.
  - by injection Hrun as <-.
  - destruct (f a x) as [a'|] eqn:Hf; [|done]. simpl in Hrun.
    apply (IH a'); [|intros; eapply Hstep; eauto; apply elem_of_cons; auto|done].
    apply (Hstep a x); [apply elem_of_cons; auto|done..].
Qed.

Lemma foldl_insert_lookup_Some {K V B : Type} `{Countable K}
    (key : B -> K) (g : B -> V) (l : list B) (d : gmap K V) (k : K) (v : V) :
  foldl (fun (d : gmap K V) x => <[key x := g x]> d) d l !! k = Some v ->
  d !! k = Some v \/ exists x, x ∈ l /\ key x = k /\ v = g x.
Proof.
  revert d. induction l as [|x l IH]; intros d Hl; simpl in Hl; [auto|].
  apply IH in Hl as [Hl|(y & Hy & Hk & Hv)].
  - destruct (decide (key x = k)) as [Heq|Hne].
    + rewrite <- Heq, lookup_insert_eq in Hl. injection Hl as <-.
      right. exists x. split; [apply elem_of_cons; auto|done].
    + rewrite lookup_insert_ne in Hl by done. auto.
  - right. exists y. split; [apply elem_of_cons; auto|done].
Qed.

Section SetSimJoinProofs.
Context {K Th Score : Type} `{Countable K} `{!Collaborators K Th Score}.

Lemma dict_values_elem {V : Type} (d : gmap K V) (v : V) :
  v ∈ dict_values d <-> exists k, d !! k = Some v.
Proof.
  unfold dict_values. rewrite list_elem_of_fmap. split.
  - intros ([k v'] & -> & Hin). exists k. by apply elem_of_map_to_list.
  - intros [k Hk]. exists (k, v). split; [done|].
    by apply elem_of_map_to_list.
Qed.

Lemma build_dict_from_table_values (table : list (Row K)) (row : Row K) :
  row ∈ dict_values (build_dict_from_table table) -> row ∈ table.
Proof.
  intros [k Hk]%dict_values_elem. unfold build_dict_from_table in Hk.
  apply (foldl_insert_lookup_Some row_key id) in Hk
    as [Hk|(x & Hx & _ & ->)]; [|done].
  by rewrite lookup_empty in Hk.
Qed.

Lemma build_dict_from_table_keys (table : list (Row K)) :
  NoDup (row_key <$> dict_values (build_dict_from_table table)).
Proof.
  unfold dict_values.
  assert (forall kv, kv ∈ map_to_list (build_dict_from_table table) ->
                     row_key kv.2 = kv.1) as Hkeys.
  { intros [k v] Hin. apply elem_of_map_to_list in Hin.
    unfold build_dict_from_table in Hin.
    apply (foldl_insert_lookup_Some row_key id) in Hin
      as [Hin|(x & _ & Hk & ->)]; [|done].
    by rewrite lookup_empty in Hin. }
  pose proof (NoDup_fst_map_to_list (build_dict_from_table table)) as Hnd.
  replace (row_key <$> (map_to_list (build_dict_from_table table)).*2)
    with ((map_to_list (build_dict_from_table table)).*1); [done|].
  rewrite <- list_fmap_compose. apply list_fmap_ext.
  intros i kv Hi. simpl. symmetry. apply Hkeys.
  by apply list_elem_of_lookup_2 in Hi.
Qed.

(** X1. Whatever comparison operator the driver was given, every row that
    [set_sim_join] returns carries the keys of a left and a right row of
    the tables, passed the test [sim_score >= threshold] on the
    similarity of their ordered tokens, and holds that similarity as its
    score when scores are asked for. *)
Lemma set_sim_join_emits_ge (ltable rtable : list (Row K))
    (tokenizer : Tokenizer) (sim_measure_type : SimMeasure) (threshold : Th)
    (l_out_attrs r_out_attrs : option (list string)) (out_sim_score : bool)
    (rows : list (OutRow K Score)) :
  set_sim_join ltable rtable tokenizer sim_measure_type threshold
    l_out_attrs r_out_attrs out_sim_score = Some rows ->
  Forall (emitted_ge ltable rtable tokenizer sim_measure_type threshold
            out_sim_score) rows.
Proof.
  unfold set_sim_join.
  destruct (get_sim_function sim_measure_type) as [sim_fn|] eqn:Hsim;
    [|done]. simpl.
  set (P := Forall (emitted_ge ltable rtable tokenizer sim_measure_type
                      threshold out_sim_score)).
  apply (foldl_opt_invariant P); [constructor|].
  intros acc r_row acc' Hr Hacc. unfold probe_row.
  destruct (_find_candidates _ _ _ _ _) as [candidate_overlap|]; [|done].
  simpl. apply (foldl_opt_invariant P); [done|].
  intros acc1 [cand overlap] acc1' _ Hacc1. unfold verify_candidate.
  destruct (overlap >? 0); [|by intros [= <-]].
  destruct (build_l_join_attr_dict _ _ _ _ !! cand) as [l_tokens|] eqn:Hl;
    [|done]. simpl.
  destruct (score_ge _ threshold) eqn:Hge; [|by intros [= <-]].
  apply (foldl_insert_lookup_Some row_key) in Hl
    as [Hl|(l_row & Hl_row & Hk & ->)]; [by rewrite lookup_empty in Hl|].
  apply build_dict_from_table_values in Hl_row, Hr.
  assert (forall attrs,
            emitted_ge ltable rtable tokenizer sim_measure_type threshold
              out_sim_score
              (mkOutRow cand (row_key r_row) attrs
                 (if out_sim_score
                  then Some (sim_fn
                    (order_using_token_ordering
                       (tokenize (row_join l_row) tokenizer sim_measure_type)
                       (gen_token_ordering_for_tables
                          [dict_values (build_dict_from_table ltable);
                           dict_values (build_dict_from_table rtable)]
                          tokenizer sim_measure_type))
                    (order_using_token_ordering
                       (tokenize (row_join r_row) tokenizer sim_measure_type)
                       (gen_token_ordering_for_tables
                          [dict_values (build_dict_from_table ltable);
                           dict_values (build_dict_from_table rtable)]
                          tokenizer sim_measure_type)))
                  else None))) as Hrow.
  { intros attrs. exists l_row, r_row, sim_fn. simpl. repeat split; done. }
  destruct (_ || _).
  - destruct (build_dict_from_table ltable !! cand); [|done]. simpl.
    intros [= <-]. apply Forall_app. split; [done|]. constructor; [|done].
    apply Hrow.
  - intros [= <-]. apply Forall_app. split; [done|]. constructor; [|done].
    apply Hrow.
Qed.

(** A right row without tokens meets no posting and adds no output row. *)
Lemma probe_row_no_tokens (tokenizer : Tokenizer)
    (sim_measure_type : SimMeasure) (threshold : Th)
    (token_ordering : gmap string Z) (position_index : PositionIndex K Th)
    (pos_filter : PositionFilter Th) (sim_fn : list Z -> list Z -> Score)
    (l_join_attr_dict : gmap K (list Z)) (ltable_dict : gmap K (Row K))
    (has_output_attributes out_sim_score : bool)
    (output_rows : list (OutRow K Score)) (r_row : Row K) :
  order_using_token_ordering
    (tokenize (row_join r_row) tokenizer sim_measure_type) token_ordering = [] ->
  probe_row tokenizer sim_measure_type threshold token_ordering position_index
    pos_filter sim_fn l_join_attr_dict ltable_dict has_output_attributes
    out_sim_score output_rows r_row = Some output_rows.
Proof.
  intros Hempty. unfold probe_row. rewrite Hempty.
  rewrite find_candidates_sweep.
  assert (py_slice_to (@nil Z)
            (get_prefix_length (len (@nil Z)) sim_measure_type threshold
               tokenizer) = []) as ->.
  { destruct (py_slice_to_take (@nil Z)
                (get_prefix_length (len (@nil Z)) sim_measure_type threshold
                   tokenizer)) as [n ->]. by destruct n. }
  simpl. unfold sweep. simpl. by rewrite map_to_list_empty.
Qed.

End SetSimJoinProofs.

(** ** The edit-distance join *)

Lemma foldl_snoc_fmap {A B : Type} (f : A -> B) (l : list A) (acc : list B) :
  foldl (fun (acc : list B) x => acc ++ [f x]) acc l = acc ++ (f <$> l).
Proof.
  revert acc. induction l as [|x l IH]; intros acc; simpl.
  - by rewrite app_nil_r.
  - rewrite IH. by rewrite <- app_assoc.
Qed.

Lemma py_index_nonneg {A : Type} (l : list A) (i : Z) :
  0 <= i -> py_index l i = l !! Z.to_nat i.
Proof. intros Hi. unfold py_index. by rewrite (proj2 (Z.leb_le 0 i) Hi). Qed.

Section EditDistanceProofs.
Context {K Th Score : Type} `{Countable K} `{!Collaborators K Th Score}
        `{!EditCollaborators K}.

Lemma verify_edit_candidate_verified (ltable : list (Row K)) (threshold : Z)
    (comp_op : CompOp) (r_row : Row K)
    (has_output_attributes out_sim_score : bool)
    (output_rows : list (OutRow K Z)) (cand : Z) :
  0 <= cand < len ltable ->
  verify_edit_candidate ltable (build_l_join_attr_list ltable) threshold
    (COMP_OP_MAP comp_op) edit_distance_sim r_row (row_join r_row)
    (str_len (row_join r_row)) has_output_attributes out_sim_score
    output_rows cand
  = Some (output_rows
            ++ omap (edit_verified ltable threshold comp_op
                       has_output_attributes out_sim_score r_row) [cand]).
Proof.
  intros Hcand. unfold verify_edit_candidate, edit_verified, build_l_join_attr_list.
  rewrite foldl_snoc_fmap. simpl. rewrite !py_index_nonneg by lia.
  rewrite list_lookup_fmap.
  destruct (lookup_lt_is_Some_2 ltable (Z.to_nat cand)) as [l_row Hl];
    [unfold len in Hcand; lia|].
  rewrite Hl. simpl. unfold in_length_window.
  destruct (_ && _); simpl; [|by rewrite app_nil_r].
  destruct (COMP_OP_MAP _ _ _); simpl; [done|by rewrite app_nil_r].
Qed.

Lemma verify_edit_candidates_verified (ltable : list (Row K)) (threshold : Z)
    (comp_op : CompOp) (r_row : Row K)
    (has_output_attributes out_sim_score : bool) (candidates : list Z)
    (output_rows : list (OutRow K Z)) :
  Forall (fun cand => 0 <= cand < len ltable) candidates ->
  foldl_opt
    (verify_edit_candidate ltable (build_l_join_attr_list ltable) threshold
       (COMP_OP_MAP comp_op) edit_distance_sim r_row (row_join r_row)
       (str_len (row_join r_row)) has_output_attributes out_sim_score)
    output_rows candidates
  = Some (output_rows
            ++ omap (edit_verified ltable threshold comp_op
                       has_output_attributes out_sim_score r_row) candidates).
Proof.
  intros Hall. revert output_rows.
  induction Hall as [|cand candidates Hcand Hall IH]; intros output_rows.
  - simpl. by rewrite app_nil_r.
  - cbn [foldl_opt]. rewrite verify_edit_candidate_verified by done.
    simpl. rewrite IH, <- app_assoc. f_equal. f_equal.
    by destruct (edit_verified _ _ _ _ _ _ cand).
Qed.

Lemma edit_rows_loop (ltable : list (Row K)) (threshold : Z)
    (comp_op : CompOp) (has_output_attributes out_sim_score : bool)
    (candidates_of : Row K -> list Z) (rows : list (Row K))
    (output_rows : list (OutRow K Z)) :
  Forall (fun r_row =>
            Forall (fun cand => 0 <= cand < len ltable) (candidates_of r_row))
         rows ->
  foldl_opt
    (fun output_rows r_row =>
       foldl_opt
         (verify_edit_candidate ltable (build_l_join_attr_list ltable)
            threshold (COMP_OP_MAP comp_op) edit_distance_sim r_row
            (row_join r_row) (str_len (row_join r_row))
            has_output_attributes out_sim_score)
         output_rows (candidates_of r_row))
    output_rows rows
  = Some (output_rows
            ++ (r_row ← rows;
                omap (edit_verified ltable threshold comp_op
                        has_output_attributes out_sim_score r_row)
                     (candidates_of r_row))).
Proof.
  intros Hall. revert output_rows.
  induction Hall as [|r_row rows Hr Hall IH]; intros output_rows.
  - simpl. by rewrite app_nil_r.
  - cbn [foldl_opt]. rewrite verify_edit_candidates_verified by done.
    simpl. rewrite IH. by rewrite <- app_assoc.
Qed.

(** C7. Edit-distance join candidate window and verification: when the
    candidates of the prefix filter are positions in the left table,
    [_edit_distance_join_split] returns exactly the rows of
    [edit_distance_join_rows]: for each right row [r] and each candidate
    [l] of the prefix filter for [r], the candidate is verified only if
    [|r| - threshold <= |l| <= |r| + threshold] on the lengths of the
    two join strings, and it is emitted if the edit distance of the two
    join strings compares to the threshold under the configured
    operator; the score of the row is that edit distance. *)
Theorem edit_distance_join_window_and_verification
    (ltable rtable : list (Row K)) (tokenizer : Tokenizer) (threshold : Z)
    (comp_op : CompOp) (l_out_attrs r_out_attrs : option (list string))
    (out_sim_score : bool) :
  candidates_in_range ltable rtable tokenizer threshold ->
  _edit_distance_join_split ltable rtable tokenizer threshold comp_op
    l_out_attrs r_out_attrs out_sim_score
  = Some (edit_distance_join_rows ltable rtable tokenizer threshold comp_op
            l_out_attrs r_out_attrs out_sim_score)
  /\ forall out,
       out ∈ edit_distance_join_rows ltable rtable tokenizer threshold
               comp_op l_out_attrs r_out_attrs out_sim_score ->
       exists r_row cand l_row,
         r_row ∈ rtable
         /\ cand ∈ edit_candidates ltable rtable tokenizer threshold r_row
         /\ ltable !! Z.to_nat cand = Some l_row
         /\ out_l out = row_key l_row /\ out_r out = row_key r_row
         /\ str_len (row_join r_row) - threshold <= str_len (row_join l_row)
            <= str_len (row_join r_row) + threshold
         /\ COMP_OP_MAP comp_op
              (edit_distance_sim (row_join l_row) (row_join r_row)) threshold
            = true
         /\ out_score out
            = if out_sim_score
              then Some (edit_distance_sim (row_join l_row) (row_join r_row))
              else None.
Proof.
  intros Hrange. split.
  - unfold _edit_distance_join_split, edit_distance_join_rows.
    pose proof (edit_rows_loop ltable threshold comp_op
                  (bool_decide (is_Some l_out_attrs)
                   || bool_decide (is_Some r_out_attrs))
                  out_sim_score
                  (edit_candidates ltable rtable tokenizer threshold)
                  rtable [] Hrange) as Hloop.
    exact Hloop.
  - intros out Hout. unfold edit_distance_join_rows in Hout.
    apply list_elem_of_bind in Hout as (r_row & Hout & Hr).
    apply list_elem_of_omap in Hout as (cand & Hcand & Hv).
    unfold edit_verified in Hv.
    destruct (ltable !! Z.to_nat cand) as [l_row|] eqn:Hl; [|done].
    simpl in Hv.
    destruct (in_length_window _ _ _) eqn:Hwin; [|done].
    destruct (COMP_OP_MAP _ _ _) eqn:Hcmp; [|done].
    simpl in Hv. injection Hv as <-.
    exists r_row, cand, l_row. simpl. repeat split; try done.
    all: unfold in_length_window in Hwin; apply andb_true_iff in Hwin; lia.
Qed.

End EditDistanceProofs.

(** ** The drivers and the [return_set] flag *)

Lemma set_return_set_same (b : bool) (t : Tokenizer) :
  return_set t = b -> set_return_set b t = t.
Proof. intros <-. by destruct t. Qed.

Lemma set_return_set_twice (b b' : bool) (t : Tokenizer) :
  set_return_set b (set_return_set b' t) = set_return_set b t.
Proof. done. Qed.

Lemma set_return_set_kind (b : bool) (t1 t2 : Tokenizer) :
  tok_kind t1 = tok_kind t2 -> set_return_set b t1 = set_return_set b t2.
Proof. unfold set_return_set. by intros ->. Qed.

Section DriverProofs.
Context {K Th Score : Type} `{Countable K} `{!Collaborators K Th Score}
        `{!EditCollaborators K} `{!DriverCollaborators K Th Score}.

(** [dice_join] runs the join on the tokenizer in set mode and hands the
    tokenizer back as it received it. *)
Lemma dice_join_unfold (ltable rtable : list (Row K)) (threshold : Th)
    (comp_op : CompOp) (allow_empty allow_missing : bool)
    (l_out_attrs r_out_attrs : option (list string)) (out_sim_score : bool)
    (n_jobs : Z) (tokenizer : Tokenizer) :
  dice_join ltable rtable threshold comp_op allow_empty allow_missing
    l_out_attrs r_out_attrs out_sim_score n_jobs tokenizer
  = if validate_tokenizer tokenizer
       && validate_threshold threshold DICE
       && validate_comp_op_for_sim_measure comp_op DICE
       && validate_key_attr ltable
       && validate_key_attr rtable
    then
      match run_set_sim_join ltable rtable DICE threshold l_out_attrs
              r_out_attrs out_sim_score (get_num_processes_to_launch n_jobs)
              (set_return_set true tokenizer) with
      | Some rows =>
          Some (if allow_missing
                then rows ++ get_pairs_with_missing_value ltable rtable
                               l_out_attrs r_out_attrs out_sim_score
                else rows,
                tokenizer)
      | None => None
      end
    else None.
Proof.
  unfold dice_join, driver_bind, validate, force_return_set, driver_bind,
    call_get_return_set, call_set_return_set, with_tokenizer,
    revert_return_set, driver_ret, get_return_set.
  destruct (validate_tokenizer tokenizer); [|done].
  destruct (validate_threshold threshold DICE); [|done].
  destruct (validate_comp_op_for_sim_measure comp_op DICE); [|done].
  destruct (validate_key_attr ltable); [|done].
  destruct (validate_key_attr rtable); [|done]. simpl.
  destruct (return_set tokenizer) eqn:Hflag; simpl.
  - rewrite (set_return_set_same true tokenizer Hflag).
    by destruct (run_set_sim_join _ _ _ _ _ _ _ _ _).
  - destruct (run_set_sim_join _ _ _ _ _ _ _ _ _); [|done].
    by rewrite set_return_set_twice, (set_return_set_same false tokenizer Hflag).
Qed.

(** [overlap_join] runs the overlap filter on the tokenizer in set mode
    and, if the flag was off, switches it off again afterwards. *)
Lemma overlap_join_unfold (ltable rtable : list (Row K)) (threshold : Th)
    (comp_op : CompOp) (allow_missing : bool)
    (l_out_attrs r_out_attrs : option (list string)) (out_sim_score : bool)
    (n_jobs : Z) (tokenizer : Tokenizer) :
  overlap_join ltable rtable threshold comp_op allow_missing l_out_attrs
    r_out_attrs out_sim_score n_jobs tokenizer
  = if validate_tokenizer tokenizer
    then
      match overlap_filter_tables threshold comp_op allow_missing ltable
              rtable l_out_attrs r_out_attrs out_sim_score n_jobs
              (set_return_set true tokenizer) with
      | Some (rows, tokenizer') =>
          Some (rows,
                if return_set tokenizer then tokenizer'
                else set_return_set false tokenizer')
      | None => None
      end
    else None.
Proof.
  unfold overlap_join, driver_bind, validate, force_return_set, driver_bind,
    call_get_return_set, call_set_return_set, revert_return_set, driver_ret,
    get_return_set.
  destruct (validate_tokenizer tokenizer); [|done].
  destruct (return_set tokenizer) eqn:Hflag; simpl.
  - rewrite (set_return_set_same true tokenizer Hflag).
    by destruct (overlap_filter_tables _ _ _ _ _ _ _ _ _ _) as [[??]|].
  - by destruct (overlap_filter_tables _ _ _ _ _ _ _ _ _ _) as [[??]|].
Qed.

(** [edit_distance_join] runs the join on the tokenizer as it is. *)
Lemma edit_distance_join_unfold (ltable rtable : list (Row K))
    (threshold : Th) (comp_op : CompOp) (allow_missing : bool)
    (l_out_attrs r_out_attrs : option (list string)) (out_sim_score : bool)
    (n_jobs : Z) (tokenizer : Tokenizer) :
  edit_distance_join ltable rtable threshold comp_op allow_missing
    l_out_attrs r_out_attrs out_sim_score n_jobs tokenizer
  = if validate_tokenizer tokenizer
       && validate_threshold threshold EDIT_DISTANCE
       && validate_comp_op_for_sim_measure comp_op EDIT_DISTANCE
       && validate_key_attr ltable
       && validate_key_attr rtable
    then
      match run_edit_distance_join ltable rtable (threshold_floor threshold)
              comp_op l_out_attrs r_out_attrs out_sim_score
              (get_num_processes_to_launch n_jobs) tokenizer with
      | Some rows =>
          Some (if allow_missing
                then rows ++ get_pairs_with_missing_value_edit ltable rtable
                               l_out_attrs r_out_attrs out_sim_score
                else rows,
                tokenizer)
      | None => None
      end
    else None.
Proof.
  unfold edit_distance_join, driver_bind, validate, with_tokenizer,
    driver_ret.
  destruct (validate_tokenizer tokenizer); [|done].
  destruct (validate_threshold threshold EDIT_DISTANCE); [|done].
  destruct (validate_comp_op_for_sim_measure comp_op EDIT_DISTANCE); [|done].
  destruct (validate_key_attr ltable); [|done].
  destruct (validate_key_attr rtable); [|done]. simpl.
  by destruct (run_edit_distance_join _ _ _ _ _ _ _ _ _).
Qed.



End DriverProofs.

(** ** The single-pair position filter *)

Section FilterPairProofs.
Context {K Th Score : Type} `{Countable K} `{!Collaborators K Th Score}.

Lemma l_prefix_dict_loop_zero (tokens : list Z) (d : gmap Z Z) :
  (forall t v, d !! t = Some v -> v = 0) ->
  (foldl (fun (st : gmap Z Z * Z) token =>
            let '(l_prefix_dict, l_pos) := st in
            (<[token := l_pos]> l_prefix_dict, l_pos))
         (d, 0) tokens).2 = 0
  /\ forall t v,
       (foldl (fun (st : gmap Z Z * Z) token =>
                 let '(l_prefix_dict, l_pos) := st in
                 (<[token := l_pos]> l_prefix_dict, l_pos))
              (d, 0) tokens).1 !! t = Some v -> v = 0.
Proof.
  revert d. induction tokens as [|token rest IH]; intros d Hd; simpl.
  - split; [done|]. apply Hd.
  - apply IH. intros t v. destruct (decide (token = t)) as [->|Hne].
    + rewrite lookup_insert_eq. by intros [= <-].
    + rewrite lookup_insert_ne by done. apply Hd.
Qed.

(** The dictionary that [filter_pair] builds for the left prefix maps
    every token to 0, whatever its position. *)
Lemma pair_l_prefix_dict_zero (self : PositionFilter Th)
    (lstring rstring : string) (token l_pos : Z) :
  pair_l_prefix_dict (K := K) self lstring rstring !! token = Some l_pos ->
  l_pos = 0.
Proof.
  unfold pair_l_prefix_dict, l_prefix_dict_loop.
  apply l_prefix_dict_loop_zero. intros t v. by rewrite lookup_empty.
Qed.

End FilterPairProofs.

(** ** The dictionaries of the position index *)

Section IndexExact.
Context {K Th Score : Type} `{Countable K} `{!Collaborators K Th Score}.

Implicit Types (self : PositionIndex K Th) (row : Row K).

Lemma foldl_build_row_tokens (rows : list (Row K)) self row :
  index_attr_tokens (foldl build_row self rows) row
  = index_attr_tokens self row.
Proof.
  revert self. induction rows as [|r rows IH]; intros self; simpl; [done|].
  by rewrite IH.
Qed.

(** X2. The posting lists of a built position index hold nothing but
    prefix positions of table rows: [(key, p)] is in the list that
    [probe] returns for a token exactly if some row of the table has
    that key and that token at position [p] of the prefix
    [tokens[0:prefix_length]] of its ordered tokens.  For a token that
    is in no prefix, [probe] returns the empty list. *)
Theorem position_index_postings_exact (table : list (Row K))
    (tokenizer : Tokenizer) (sim_measure_type : SimMeasure) (threshold : Th)
    (token_ordering : gmap string Z) (token : Z) :
  let self :=
    build (PositionIndex_init table tokenizer sim_measure_type threshold
             token_ordering) in
  let prefix (row : Row K) :=
    let tokens :=
      order_using_token_ordering (tokenizer_tokenize tokenizer (row_join row))
        token_ordering in
    py_slice_to tokens
      (get_prefix_length (len tokens) sim_measure_type threshold tokenizer) in
  (forall key j,
     (key, j) ∈ probe self token
     <-> exists row (p : nat),
           row ∈ table /\ key = row_key row /\ j = Z.of_nat p
           /\ prefix row !! p = Some token)
  /\ ((forall row, row ∈ table -> token ∉ prefix row) ->
      probe self token = []).
Proof.
  intros self prefix.
  assert (forall key j,
            (key, j) ∈ probe self token
            <-> exists row (p : nat),
                  row ∈ table /\ key = row_key row /\ j = Z.of_nat p
                  /\ prefix row !! p = Some token) as Helem.
  { intros key j. apply build_probe_elem. }
  split; [exact Helem|]. intros Hnone.
  destruct (probe self token) as [|[key j] postings]; [done|].
  destruct (proj1 (Helem key j)) as (row & p & Hrow & _ & _ & Hp);
    [apply elem_of_cons; auto|].
  exfalso. apply (Hnone row Hrow). by apply list_elem_of_lookup_2 in Hp.
Qed.

(** X3. The size map of a built position index: [get_size] answers
    [None] for a key that no row of the table has, and for a key of the
    table the number of ordered tokens of the last row with that key. *)
Theorem position_index_size_map (table : list (Row K))
    (tokenizer : Tokenizer) (sim_measure_type : SimMeasure) (threshold : Th)
    (token_ordering : gmap string Z) :
  let self :=
    build (PositionIndex_init table tokenizer sim_measure_type threshold
             token_ordering) in
  (forall key, key ∉ row_key <$> table -> get_size self key = None)
  /\ (forall before row after,
        table = before ++ row :: after ->
        row_key row ∉ row_key <$> after ->
        get_size self (row_key row)
        = Some (len (order_using_token_ordering
                       (tokenizer_tokenize tokenizer (row_join row))
                       token_ordering))).
Proof.
  intros self. split.
  - intros key Hkey. unfold self, build. simpl.
    rewrite foldl_build_row_size_other by done. apply lookup_empty.
  - intros before row after Htable Hlast. unfold self, build. simpl.
    rewrite Htable, foldl_app. cbn [foldl].
    rewrite foldl_build_row_size_other by done.
    unfold get_size. simpl. rewrite lookup_insert_eq.
    by rewrite foldl_build_row_tokens.
Qed.

End IndexExact.

(** ** What the sweep returns *)

Section SweepEntries.
Context {K Th Score : Type} `{Countable K} `{!Collaborators K Th Score}.

Implicit Types (self : PositionFilter Th) (position_index : PositionIndex K Th).

Lemma sweep_step_entry self n_r position_index (overlap : gmap K Z)
    (i : Z) (c' : K) (j : Z) (c : K) (v : Z) :
  sweep_step self n_r position_index overlap (i, (c', j)) !! c = Some v ->
  overlap !! c = Some v
  \/ (c' = c
      /\ (v = default 0 (overlap !! c) + 1 \/ v = 0)
      /\ exists n_c,
           get_size position_index c = Some n_c
           /\ get_size_lower_bound n_r (pf_sim_measure_type self)
                (pf_threshold self) <= n_c
              <= get_size_upper_bound n_r (pf_sim_measure_type self)
                   (pf_threshold self)).
Proof.
  unfold sweep_step.
  destruct (get_size position_index c') as [n_c|] eqn:Hsize; [|auto].
  case_bool_decide as Hin; [|auto].
  destruct (decide (c' = c)) as [->|Hne].
  - case_bool_decide; rewrite lookup_insert_eq; intros [= <-]; right;
      (split; [done|]); (split; [auto|]); eauto.
  - case_bool_decide; rewrite lookup_insert_ne by done; auto.
Qed.

Lemma sweep_entry self n_r position_index (events : list (Z * (K * Z)))
    (overlap : gmap K Z) (c : K) (v : Z) :
  (forall c v, overlap !! c = Some v -> 0 <= v) ->
  foldl (sweep_step self n_r position_index) overlap events !! c = Some v ->
  0 <= v
  /\ (overlap !! c = Some v
      \/ exists i j n_c,
           (i, (c, j)) ∈ events
           /\ get_size position_index c = Some n_c
           /\ get_size_lower_bound n_r (pf_sim_measure_type self)
                (pf_threshold self) <= n_c
              <= get_size_upper_bound n_r (pf_sim_measure_type self)
                   (pf_threshold self)).
Proof.
  revert overlap. induction events as [|[i [c' j]] events IH];
    intros overlap Hnn Hv; simpl in Hv.
  - split; [by apply (Hnn c)|auto].
  - apply IH in Hv as [Hv0 Hv].
    + split; [done|]. destruct Hv as [Hv|(i' & j' & n_c & Hin & Hrest)].
      * apply sweep_step_entry in Hv as [Hv|(-> & _ & n_c & Hrest)]; [auto|].
        right. exists i, j, n_c. split; [apply elem_of_cons; auto|done].
      * right. exists i', j', n_c. split; [apply elem_of_cons; auto|done].
    + intros c0 v0 Hv0.
      apply sweep_step_entry in Hv0 as [Hv0|(-> & Hval & _)];
        [by apply (Hnn c0)|].
      destruct (overlap !! c0) as [w|] eqn:Hw; simpl in Hval;
        [apply Hnn in Hw|]; lia.
Qed.

Lemma find_candidates_entry (table : list (Row K))
    (tokenizer : Tokenizer) (sim_measure_type : SimMeasure) (threshold : Th)
    (token_ordering : gmap string Z) (self : PositionFilter Th)
    (r_ordered_tokens : list Z) (r_num_tokens r_prefix_length : Z)
    (candidate_overlap : gmap K Z) (cand : K) (overlap : Z) :
  let init :=
    PositionIndex_init table tokenizer sim_measure_type threshold
      token_ordering in
  _find_candidates self r_ordered_tokens r_num_tokens r_prefix_length
    (build init) = Some candidate_overlap ->
  candidate_overlap !! cand = Some overlap ->
  0 <= overlap
  /\ exists row n_c token,
       row ∈ table /\ row_key row = cand
       /\ get_size (build init) cand = Some n_c
       /\ get_size_lower_bound r_num_tokens (pf_sim_measure_type self)
            (pf_threshold self) <= n_c
          <= get_size_upper_bound r_num_tokens
               (pf_sim_measure_type self) (pf_threshold self)
       /\ token ∈ index_prefix init row
       /\ token ∈ py_slice_to r_ordered_tokens r_prefix_length.
Proof.
  intros init. rewrite find_candidates_sweep. intros [= <-] Hentry.
  unfold sweep in Hentry.
  apply sweep_entry in Hentry as [Hnn [Hempty|(i & j & n_c & Hin & Hsize & Hb)]].
  - by rewrite lookup_empty in Hempty.
  - split; [done|].
    apply events_from_elem in Hin as (n & token & _ & Hn & Hp).
    apply build_probe_elem in Hp as (row & p & Hrow & -> & _ & Hp).
    exists row, n_c, token.
    split; [done|]. split; [done|]. split; [done|]. split; [done|]. split.
    + by apply list_elem_of_lookup_2 in Hp.
    + by apply list_elem_of_lookup_2 in Hn.
  - intros c v. by rewrite lookup_empty.
Qed.


End SweepEntries.

(** ** The single-pair filter keeps a pair on a shared prefix token only *)

Section FilterPairShared.
Context {K Th Score : Type} `{Countable K} `{!Collaborators K Th Score}.

Lemma l_prefix_dict_loop_dom (tokens : list Z) (d : gmap Z Z) (l_pos : Z)
    (t : Z) :
  is_Some ((foldl (fun (st : gmap Z Z * Z) token =>
                     let '(l_prefix_dict, l_pos) := st in
                     (<[token := l_pos]> l_prefix_dict, l_pos))
                  (d, l_pos) tokens).1 !! t) ->
  is_Some (d !! t) \/ t ∈ tokens.
Proof.
  revert d. induction tokens as [|token rest IH]; intros d Hd; simpl in Hd;
    [auto|].
  apply IH in Hd as [Hd|Hd].
  - destruct (decide (token = t)) as [->|Hne].
    + right. apply elem_of_cons. auto.
    + rewrite lookup_insert_ne in Hd by done. auto.
  - right. apply elem_of_cons. auto.
Qed.

Lemma filter_pair_sweep_false (l_prefix_dict : gmap Z Z)
    (l_num_tokens r_num_tokens overlap_threshold : Z) (tokens : list Z)
    (current_overlap r_pos : Z) :
  filter_pair_sweep l_prefix_dict l_num_tokens r_num_tokens overlap_threshold
    tokens current_overlap r_pos = false ->
  0 < current_overlap
  \/ exists t, t ∈ tokens /\ is_Some (l_prefix_dict !! t).
Proof.
  revert current_overlap r_pos.
  induction tokens as [|token rest IH]; intros current_overlap r_pos Hrun;
    simpl in Hrun.
  - destruct (current_overlap >? 0) eqn:Hpos; [|done]. left. lia.
  - destruct (l_prefix_dict !! token) as [l_pos|] eqn:Hl.
    + right. exists token. split; [apply elem_of_cons; auto|by rewrite Hl].
    + apply IH in Hrun as [Hpos|(t & Ht & Hd)]; [auto|].
      right. exists t. split; [apply elem_of_cons; auto|done].
Qed.

(** X5. [filter_pair] keeps a pair (returns [False]) only if neither
    string is empty and some token is in the prefix of the ordered tokens
    of both strings; a pair whose prefixes share no token is dropped. *)
Theorem filter_pair_keeps_on_shared_prefix_token (self : PositionFilter Th)
    (lstring rstring : string) :
  let ordered := pair_ordered_tokens (K := K) self lstring rstring in
  let prefix (tokens : list Z) :=
    py_slice_to tokens
      (get_prefix_length (K := K) (len tokens) (pf_sim_measure_type self)
         (pf_threshold self) (pf_tokenizer self)) in
  filter_pair (K := K) self lstring rstring = false ->
  lstring <> EmptyString /\ rstring <> EmptyString
  /\ exists token, token ∈ prefix ordered.1 /\ token ∈ prefix ordered.2.
Proof.
  intros ordered prefix. unfold filter_pair, pair_l_prefix_dict.
  case_bool_decide as Hl; [done|]. case_bool_decide as Hr; [done|]. simpl.
  subst ordered.
  destruct (pair_ordered_tokens self lstring rstring)
    as [ordered_ltokens ordered_rtokens].
  intros Hrun. split; [done|]. split; [done|].
  apply filter_pair_sweep_false in Hrun as [Hpos|(t & Ht & Hd)]; [lia|].
  exists t. split; [|exact Ht].
  unfold l_prefix_dict_loop in Hd.
  apply l_prefix_dict_loop_dom in Hd as [Hd|Hd]; [|exact Hd].
  rewrite lookup_empty in Hd. by destruct Hd.
Qed.

End FilterPairShared.

(** ** The size index *)

Section SizeIndexProofs.
Context {K Th Score : Type} `{!Collaborators K Th Score}.

Implicit Types (self : SizeIndex K) (row : Row K).

Lemma SizeIndex_build_row_probe self (row_id : Z) row (n : Z) :
  SizeIndex_probe (SizeIndex_build_row (self, row_id) row).1 n
  = SizeIndex_probe self n
    ++ (if decide (len (tokenizer_tokenize (si_tokenizer self) (row_join row))
                   = n)
        then [row_id] else []).
Proof.
  unfold SizeIndex_probe. simpl.
  set (num_tokens := len (tokenizer_tokenize (si_tokenizer self) (row_join row))).
  destruct (decide (num_tokens = n)) as [<-|Hne].
  - rewrite lookup_insert_eq. simpl.
    destruct (si_index self !! num_tokens) as [ids|] eqn:Hl; simpl.
    + by rewrite Hl.
    + by rewrite lookup_insert_eq.
  - rewrite lookup_insert_ne by done. rewrite app_nil_r.
    destruct (si_index self !! num_tokens); [done|].
    by rewrite lookup_insert_ne.
Qed.

Lemma SizeIndex_build_loop (rows : list (Row K)) self (row_id : Z) :
  let count row := len (tokenizer_tokenize (si_tokenizer self) (row_join row)) in
  let self' := (foldl SizeIndex_build_row (self, row_id) rows).1 in
  (forall n, exists ids,
      SizeIndex_probe self' n = SizeIndex_probe self n ++ ids
      /\ StronglySorted Z.lt ids
      /\ forall i, i ∈ ids
           <-> exists (p : nat) row,
                 i = row_id + Z.of_nat p /\ rows !! p = Some row
                 /\ count row = n)
  /\ (forall row, row ∈ rows ->
        si_min_length self' <= count row <= si_max_length self')
  /\ si_min_length self' <= si_min_length self
  /\ si_max_length self <= si_max_length self'
  /\ (si_min_length self' = si_min_length self
      \/ exists row, row ∈ rows /\ count row = si_min_length self')
  /\ (si_max_length self' = si_max_length self
      \/ exists row, row ∈ rows /\ count row = si_max_length self').
Proof.
  revert self row_id. induction rows as [|r rows IH]; intros self row_id count.
  - simpl. split; [|split; [|by auto with lia]].
    + intros n. exists []. rewrite app_nil_r. split; [done|].
      split; [constructor|]. intros i. rewrite elem_of_nil.
      split; [done|]. by intros (p & row & _ & Hp & _).
    + intros row Hrow. by apply elem_of_nil in Hrow.
  - intros self'. subst self'. cbn [foldl].
    set (self1 := (SizeIndex_build_row (self, row_id) r).1).
    assert (SizeIndex_build_row (self, row_id) r = (self1, row_id + 1)) as Hst
      by done.
    rewrite Hst.
    specialize (IH self1 (row_id + 1)).
    cbn zeta in IH. change (si_tokenizer self1) with (si_tokenizer self) in IH.
    fold count in IH.
    destruct IH as (Hprobe & Hall & Hmin & Hmax & Hminw & Hmaxw).
    set (self' := (foldl SizeIndex_build_row (self1, row_id + 1) rows).1) in *.
    assert (si_min_length self1 <= si_min_length self
            /\ si_min_length self1 <= count r
            /\ (si_min_length self1 = si_min_length self
                \/ si_min_length self1 = count r)) as (Hm1 & Hm2 & Hm3).
    { unfold self1. simpl. fold (count r).
      destruct (count r <? si_min_length self) eqn:Hc; lia. }
    assert (si_max_length self <= si_max_length self1
            /\ count r <= si_max_length self1
            /\ (si_max_length self1 = si_max_length self
                \/ si_max_length self1 = count r)) as (HM1 & HM2 & HM3).
    { unfold self1. simpl. fold (count r).
      destruct (count r >? si_max_length self) eqn:Hc; lia. }
    split; [|split; [|split; [lia|split; [lia|split]]]].
    + intros n. destruct (Hprobe n) as (ids & Hids & Hsorted & Helem).
      exists ((if decide (count r = n) then [row_id] else []) ++ ids).
      split; [|split].
      * rewrite Hids. unfold self1. rewrite SizeIndex_build_row_probe.
        fold (count r). by rewrite <- app_assoc.
      * destruct (decide (count r = n)); [|done]. simpl.
        constructor; [done|]. apply Forall_forall. intros i Hi.
        apply Helem in Hi as (p & row & -> & _). lia.
      * intros i. rewrite elem_of_app, Helem. split.
        -- intros [Hi|(p & row & -> & Hp & Hc)].
           ++ destruct (decide (count r = n)) as [Hc|];
                [|by apply elem_of_nil in Hi].
              apply list_elem_of_singleton in Hi as ->.
              exists 0%nat, r. split; [lia|done].
           ++ exists (S p), row. split; [lia|done].
        -- intros ([|p] & row & -> & Hp & Hc); simpl in Hp.
           ++ injection Hp as ->. left. rewrite decide_True by done.
              apply list_elem_of_singleton. lia.
           ++ right. exists p, row. split; [lia|done].
    + intros row [->|Hrow]%elem_of_cons; [lia|by apply Hall].
    + destruct Hminw as [Heq|(row & Hrow & Hc)].
      * destruct Hm3 as [Hm3|Hm3]; [left; lia|].
        right. exists r. split; [apply elem_of_cons; auto|lia].
      * right. exists row. split; [apply elem_of_cons; auto|done].
    + destruct Hmaxw as [Heq|(row & Hrow & Hc)].
      * destruct HM3 as [HM3|HM3]; [left; lia|].
        right. exists r. split; [apply elem_of_cons; auto|lia].
      * right. exists row. split; [apply elem_of_cons; auto|done].
Qed.

Lemma SizeIndex_probe_elem (table : list (Row K)) (tokenizer : Tokenizer)
    (num_tokens : Z) :
  let self := SizeIndex_build (SizeIndex_init table tokenizer) in
  (forall i, i ∈ SizeIndex_probe self num_tokens
     <-> exists (p : nat) row,
           i = Z.of_nat p /\ table !! p = Some row
           /\ len (tokenizer_tokenize tokenizer (row_join row)) = num_tokens)
  /\ StronglySorted Z.lt (SizeIndex_probe self num_tokens).
Proof.
  intros self.
  destruct (SizeIndex_build_loop table (SizeIndex_init table tokenizer) 0)
    as (Hprobe & _).
  destruct (Hprobe num_tokens) as (ids & Hids & Hsorted & Helem).
  change (SizeIndex_probe self num_tokens = [] ++ ids) in Hids.
  simpl in Hids. rewrite Hids. split; [|done].
  intros i. rewrite Helem. simpl.
  split; intros (p & row & -> & Hp); exists p, row; (split; [lia|done]).
Qed.

Lemma SizeIndex_probe_none (table : list (Row K)) (tokenizer : Tokenizer)
    (num_tokens : Z) :
  (forall row, row ∈ table ->
     len (tokenizer_tokenize tokenizer (row_join row)) <> num_tokens) ->
  SizeIndex_probe (SizeIndex_build (SizeIndex_init table tokenizer)) num_tokens
  = [].
Proof.
  intros Hnone.
  destruct (SizeIndex_probe_elem table tokenizer num_tokens) as [Helem _].
  destruct (SizeIndex_probe _ num_tokens) as [|i ids]; [done|].
  destruct (proj1 (Helem i)) as (p & row & _ & Hp & Hc);
    [apply elem_of_cons; auto|].
  exfalso. apply (Hnone row); [|done]. by apply list_elem_of_lookup_2 in Hp.
Qed.

(** X6. After [SizeIndex.build] the list that [probe] returns for a
    number of tokens holds exactly the positions in the table, counted
    from 0, of the rows that the tokenizer splits into that many tokens,
    in ascending order and each once; for a number that no row has, it
    is the empty list. *)
Theorem SizeIndex_probe_exact (table : list (Row K)) (tokenizer : Tokenizer)
    (num_tokens : Z) :
  let self := SizeIndex_build (SizeIndex_init table tokenizer) in
  (forall i, i ∈ SizeIndex_probe self num_tokens
     <-> exists (p : nat) row,
           i = Z.of_nat p /\ table !! p = Some row
           /\ len (tokenizer_tokenize tokenizer (row_join row)) = num_tokens)
  /\ StronglySorted Z.lt (SizeIndex_probe self num_tokens)
  /\ ((forall row, row ∈ table ->
         len (tokenizer_tokenize tokenizer (row_join row)) <> num_tokens) ->
      SizeIndex_probe self num_tokens = []).
Proof.
  intros self.
  destruct (SizeIndex_probe_elem table tokenizer num_tokens) as [Helem Hs].
  split; [exact Helem|]. split; [exact Hs|]. apply SizeIndex_probe_none.
Qed.

(** X7. After [SizeIndex.build], [min_length] and [max_length] bound the
    number of tokens of every row of the table.  [max_length] is 0 or
    the number of tokens of some row, [min_length] is [maxsize] or the
    number of tokens of some row, and on an empty table they stay at
    [maxsize] and 0.  Outside the two bounds [probe] returns the empty
    list. *)
Theorem SizeIndex_build_min_max (table : list (Row K)) (tokenizer : Tokenizer) :
  let self := SizeIndex_build (SizeIndex_init table tokenizer) in
  let count (row : Row K) := len (tokenizer_tokenize tokenizer (row_join row)) in
  (forall row, row ∈ table ->
     si_min_length self <= count row <= si_max_length self)
  /\ si_min_length self <= maxsize
  /\ 0 <= si_max_length self
  /\ (si_min_length self = maxsize
      \/ exists row, row ∈ table /\ count row = si_min_length self)
  /\ (si_max_length self = 0
      \/ exists row, row ∈ table /\ count row = si_max_length self)
  /\ (table = [] -> si_min_length self = maxsize /\ si_max_length self = 0)
  /\ (forall n, n < si_min_length self \/ si_max_length self < n ->
        SizeIndex_probe self n = []).
Proof.
  intros self count.
  destruct (SizeIndex_build_loop table (SizeIndex_init table tokenizer) 0)
    as (_ & Hall & Hmin & Hmax & Hminw & Hmaxw).
  cbn zeta in *.
  change ((foldl SizeIndex_build_row (SizeIndex_init table tokenizer, 0) table).1)
    with self in *.
  change (si_tokenizer (SizeIndex_init table tokenizer)) with tokenizer in *.
  change (si_min_length (SizeIndex_init table tokenizer)) with maxsize in *.
  change (si_max_length (SizeIndex_init table tokenizer)) with 0 in *.
  fold count in Hall, Hminw, Hmaxw.
  split; [exact Hall|]. split; [done|]. split; [done|].
  split; [exact Hminw|]. split; [exact Hmaxw|]. split.
  - by intros ->.
  - intros n Hn.
    apply SizeIndex_probe_none.
    intros row Hrow. specialize (Hall row Hrow). unfold count in Hall. lia.
Qed.

End SizeIndexProofs.

(** ** Loops that append to the output rows *)

Lemma foldl_opt_bind {A B : Type} (f : list A -> B -> option (list A))
    (g : B -> list A) (l : list B) (acc : list A) :
  (forall acc x, x ∈ l -> f acc x = Some (acc ++ g x)) ->
  foldl_opt f acc l = Some (acc ++ (l ≫= g)).
Proof.
  revert acc. induction l as [|x l IH]; intros acc Hf; simpl.
  - by rewrite app_nil_r.
  - rewrite Hf by (apply elem_of_cons; auto). simpl.
    rewrite IH by (intros; apply Hf; apply elem_of_cons; auto).
    by rewrite app_assoc.
Qed.

Lemma NoDup_fmap_bind {X Y P T : Type} (tag : X -> T) (proj : P -> T)
    (g : Y -> P) (h : X -> list Y) (xs : list X) :
  NoDup (tag <$> xs) ->
  (forall x, x ∈ xs ->
     NoDup (g <$> h x) /\ forall y, y ∈ h x -> proj (g y) = tag x) ->
  NoDup (g <$> (xs ≫= h)).
Proof.
  induction xs as [|x xs IH]; intros Hnd Hh; simpl; [constructor|].
  rewrite fmap_cons in Hnd. apply NoDup_cons in Hnd as [Hx Hnd].
  rewrite fmap_app. apply NoDup_app. split; [|split].
  - apply Hh. apply elem_of_cons. auto.
  - intros p Hp Hp'.
    apply list_elem_of_fmap in Hp as (y & -> & Hy).
    apply list_elem_of_fmap in Hp' as (y' & Heq & Hy').
    apply list_elem_of_bind in Hy' as (x' & Hy' & Hx').
    apply Hx. apply list_elem_of_fmap. exists x'. split; [|done].
    destruct (Hh x) as [_ Htag]; [apply elem_of_cons; auto|].
    destruct (Hh x') as [_ Htag']; [apply elem_of_cons; auto|].
    rewrite <- (Htag y Hy), Heq. by apply Htag'.
  - apply IH; [done|]. intros x' Hx'. apply Hh. apply elem_of_cons. auto.
Qed.

Lemma foldl_insert_lookup_notin {K V B : Type} `{Countable K}
    (key : B -> K) (g : B -> V) (l : list B) (d : gmap K V) (k : K) :
  k ∉ key <$> l ->
  foldl (fun (d : gmap K V) x => <[key x := g x]> d) d l !! k = d !! k.
Proof.
  revert d. induction l as [|x l IH]; intros d Hk; simpl; [done|].
  rewrite fmap_cons in Hk. apply not_elem_of_cons in Hk as [Hne Hk].
  rewrite IH by done. by rewrite lookup_insert_ne.
Qed.

Lemma foldl_insert_lookup_NoDup {K V B : Type} `{Countable K}
    (key : B -> K) (g : B -> V) (l : list B) (d : gmap K V) (x : B) :
  NoDup (key <$> l) -> x ∈ l ->
  foldl (fun (d : gmap K V) x => <[key x := g x]> d) d l !! key x
  = Some (g x).
Proof.
  revert d. induction l as [|y l IH]; intros d Hnd Hx; simpl.
  - by apply elem_of_nil in Hx.
  - rewrite fmap_cons in Hnd. apply NoDup_cons in Hnd as [Hy Hnd].
    apply elem_of_cons in Hx as [->|Hx].
    + rewrite foldl_insert_lookup_notin by done. by rewrite lookup_insert_eq.
    + by apply IH.
Qed.

(** ** The set-similarity join and the table filter, row by row *)

Section JoinProofs.
Context {K Th Score : Type} `{Countable K} `{!Collaborators K Th Score}.

Lemma build_dict_from_table_lookup (table : list (Row K)) (k : K)
    (row : Row K) :
  build_dict_from_table table !! k = Some row ->
  row ∈ table /\ row_key row = k.
Proof.
  intros Hk. unfold build_dict_from_table in Hk.
  apply (foldl_insert_lookup_Some row_key id) in Hk
    as [Hk|(x & Hx & Hkey & ->)]; [by rewrite lookup_empty in Hk|done].
Qed.

Lemma join_rows_lookup (table : list (Row K)) (row : Row K) :
  row ∈ join_rows table <->
  build_dict_from_table table !! row_key row = Some row.
Proof.
  unfold join_rows. rewrite dict_values_elem. split.
  - intros [k Hk]. pose proof Hk as Hk'.
    apply build_dict_from_table_lookup in Hk' as [_ <-]. done.
  - eauto.
Qed.

Lemma join_rows_table (table : list (Row K)) (row : Row K) :
  row ∈ join_rows table -> row ∈ table.
Proof. apply build_dict_from_table_values. Qed.

Lemma join_rows_unique (table : list (Row K)) (r1 r2 : Row K) :
  r1 ∈ join_rows table -> r2 ∈ join_rows table ->
  row_key r1 = row_key r2 -> r1 = r2.
Proof.
  intros H1 H2 Hk. apply join_rows_lookup in H1, H2.
  rewrite Hk in H1. congruence.
Qed.

Lemma join_rows_NoDup_table (table : list (Row K)) (row : Row K) :
  NoDup (row_key <$> table) -> row ∈ table -> row ∈ join_rows table.
Proof.
  intros Hnd Hrow. apply join_rows_lookup. unfold build_dict_from_table.
  by apply (foldl_insert_lookup_NoDup row_key id).
Qed.

Section Pipeline.
Context (ltable rtable : list (Row K)) (tokenizer : Tokenizer)
        (sim_measure_type : SimMeasure) (threshold : Th).

Lemma join_candidates_sweep (r_row : Row K) :
  let r_ordered_tokens :=
    join_ordered_tokens ltable rtable tokenizer sim_measure_type r_row in
  join_candidates ltable rtable tokenizer sim_measure_type threshold r_row
  = Some (sweep (mkPositionFilter tokenizer sim_measure_type threshold)
            (len r_ordered_tokens)
            (join_position_index ltable rtable tokenizer sim_measure_type
               threshold)
            (events_from
               (join_position_index ltable rtable tokenizer sim_measure_type
                  threshold)
               0
               (py_slice_to r_ordered_tokens
                  (get_prefix_length (len r_ordered_tokens) sim_measure_type
                     threshold tokenizer)))).
Proof. apply find_candidates_sweep. Qed.

(** Every entry of [candidate_overlap] is for the key of a left row that
    shares a prefix token with the right row. *)
Lemma join_candidates_entry (r_row : Row K) (candidate_overlap : gmap K Z)
    (cand : K) (overlap : Z) :
  join_candidates ltable rtable tokenizer sim_measure_type threshold r_row
  = Some candidate_overlap ->
  candidate_overlap !! cand = Some overlap ->
  exists l_row token,
    l_row ∈ join_rows ltable /\ row_key l_row = cand
    /\ token ∈ index_prefix
                 (PositionIndex_init (join_rows ltable) tokenizer
                    sim_measure_type threshold
                    (join_token_ordering ltable rtable tokenizer
                       sim_measure_type))
                 l_row
    /\ token ∈ py_slice_to
                 (join_ordered_tokens ltable rtable tokenizer
                    sim_measure_type r_row)
                 (get_prefix_length
                    (len (join_ordered_tokens ltable rtable tokenizer
                            sim_measure_type r_row))
                    sim_measure_type threshold tokenizer).
Proof.
  intros Hrun Hentry. unfold join_candidates, join_position_index in Hrun.
  destruct (find_candidates_entry _ _ _ _ _ _ _ _ _ _ _ _ Hrun Hentry)
    as (_ & l_row & n_c & token & Hrow & Hkey & _ & _ & Hl & Hr).
  exists l_row, token. done.
Qed.

Lemma l_join_attr_dict_lookup (l_row : Row K) :
  l_row ∈ join_rows ltable ->
  build_l_join_attr_dict (join_rows ltable) tokenizer sim_measure_type
    (join_token_ordering ltable rtable tokenizer sim_measure_type)
    !! row_key l_row
  = Some (join_ordered_tokens ltable rtable tokenizer sim_measure_type l_row).
Proof.
  intros Hrow. unfold build_l_join_attr_dict.
  apply (foldl_insert_lookup_NoDup row_key
           (fun row =>
              order_using_token_ordering
                (tokenize (row_join row) tokenizer sim_measure_type)
                (join_token_ordering ltable rtable tokenizer
                   sim_measure_type))); [|done].
  apply build_dict_from_table_keys.
Qed.

(** [set_sim_join] raises only if there is no similarity function for
    the measure; otherwise it returns the rows of the comprehension. *)
Lemma set_sim_join_comprehension
    (l_out_attrs r_out_attrs : option (list string)) (out_sim_score : bool)
    (sim_fn : list Z -> list Z -> Score) :
  get_sim_function sim_measure_type = Some sim_fn ->
  set_sim_join ltable rtable tokenizer sim_measure_type threshold l_out_attrs
    r_out_attrs out_sim_score
  = Some (set_sim_join_rows sim_fn ltable rtable tokenizer sim_measure_type
            threshold
            (bool_decide (is_Some l_out_attrs)
             || bool_decide (is_Some r_out_attrs))
            out_sim_score).
Proof.
  intros Hsim. unfold set_sim_join. rewrite Hsim. simpl.
  set (has := bool_decide (is_Some l_out_attrs)
              || bool_decide (is_Some r_out_attrs)).
  rewrite (foldl_opt_bind _
             (fun r_row =>
                item ← map_to_list
                         (default ∅ (join_candidates ltable rtable tokenizer
                                       sim_measure_type threshold r_row));
                join_verified sim_fn ltable rtable tokenizer sim_measure_type
                  threshold has out_sim_score r_row item)); [done|].
  intros acc r_row _. unfold probe_row.
  pose proof (join_candidates_sweep r_row) as Hco. cbn zeta in Hco.
  rewrite Hco. simpl default.
  change (_find_candidates _ _ _ _ _)
    with (join_candidates ltable rtable tokenizer sim_measure_type threshold
            r_row).
  rewrite Hco. simpl.
  apply foldl_opt_bind. intros acc' [cand overlap] Hitem.
  apply elem_of_map_to_list in Hitem.
  destruct (join_candidates_entry r_row _ cand overlap Hco Hitem)
    as (l_row & _ & Hl_row & <- & _).
  unfold verify_candidate, join_verified. simpl.
  change (build_l_join_attr_dict _ _ _ _)
    with (build_l_join_attr_dict (join_rows ltable) tokenizer
            sim_measure_type
            (join_token_ordering ltable rtable tokenizer sim_measure_type)).
  rewrite (l_join_attr_dict_lookup l_row Hl_row).
  rewrite (proj1 (join_rows_lookup ltable l_row) Hl_row). simpl.
  change (order_using_token_ordering _ _)
    with (join_ordered_tokens ltable rtable tokenizer sim_measure_type r_row).
  destruct (overlap >? 0); simpl; [|by rewrite app_nil_r].
  destruct (score_ge _ threshold); [|by rewrite app_nil_r].
  by destruct has.
Qed.

Lemma join_verified_elem (sim_fn : list Z -> list Z -> Score)
    (has_output_attributes out_sim_score : bool) (r_row : Row K)
    (item : K * Z) (out : OutRow K Score) :
  out ∈ join_verified sim_fn ltable rtable tokenizer sim_measure_type
          threshold has_output_attributes out_sim_score r_row item
  <-> exists l_row,
        build_dict_from_table ltable !! item.1 = Some l_row
        /\ 0 < item.2
        /\ score_ge
             (sim_fn
                (join_ordered_tokens ltable rtable tokenizer sim_measure_type
                   l_row)
                (join_ordered_tokens ltable rtable tokenizer sim_measure_type
                   r_row))
             threshold = true
        /\ out = mkOutRow item.1 (row_key r_row)
                   (if has_output_attributes then project_attrs l_row r_row
                    else [])
                   (if out_sim_score
                    then Some
                           (sim_fn
                              (join_ordered_tokens ltable rtable tokenizer
                                 sim_measure_type l_row)
                              (join_ordered_tokens ltable rtable tokenizer
                                 sim_measure_type r_row))
                    else None).
Proof.
  unfold join_verified.
  destruct (build_dict_from_table ltable !! item.1) as [l_row|].
  - destruct (item.2 >? 0) eqn:Hpos; simpl.
    + destruct (score_ge _ threshold) eqn:Hge.
      * rewrite list_elem_of_singleton. split.
        -- intros ->. exists l_row. repeat split; [lia|done].
        -- by intros (l_row' & [= <-] & _ & _ & ->).
      * rewrite elem_of_nil. split; [done|].
        intros (l_row' & [= <-] & _ & Hge' & _). congruence.
    + rewrite elem_of_nil. split; [done|].
      intros (l_row' & _ & Hpos' & _). lia.
  - rewrite elem_of_nil. split; [done|]. by intros (l_row' & Hl & _).
Qed.

Lemma set_sim_join_rows_elem (sim_fn : list Z -> list Z -> Score)
    (has_output_attributes out_sim_score : bool) (out : OutRow K Score) :
  out ∈ set_sim_join_rows sim_fn ltable rtable tokenizer sim_measure_type
          threshold has_output_attributes out_sim_score
  <-> exists l_row r_row candidate_overlap overlap,
        l_row ∈ join_rows ltable /\ r_row ∈ join_rows rtable
        /\ join_candidates ltable rtable tokenizer sim_measure_type threshold
             r_row = Some candidate_overlap
        /\ candidate_overlap !! row_key l_row = Some overlap
        /\ 0 < overlap
        /\ score_ge
             (sim_fn
                (join_ordered_tokens ltable rtable tokenizer sim_measure_type
                   l_row)
                (join_ordered_tokens ltable rtable tokenizer sim_measure_type
                   r_row))
             threshold = true
        /\ out = mkOutRow (row_key l_row) (row_key r_row)
                   (if has_output_attributes then project_attrs l_row r_row
                    else [])
                   (if out_sim_score
                    then Some
                           (sim_fn
                              (join_ordered_tokens ltable rtable tokenizer
                                 sim_measure_type l_row)
                              (join_ordered_tokens ltable rtable tokenizer
                                 sim_measure_type r_row))
                    else None).
Proof.
  unfold set_sim_join_rows. rewrite list_elem_of_bind. split.
  - intros (r_row & Hout & Hr).
    apply list_elem_of_bind in Hout as ([cand overlap] & Hout & Hitem).
    apply join_verified_elem in Hout as (l_row & Hl & Hpos & Hge & ->).
    simpl in *. pose proof (join_candidates_sweep r_row) as Hco.
    cbn zeta in Hco. rewrite Hco in Hitem. simpl in Hitem.
    apply elem_of_map_to_list in Hitem.
    pose proof Hl as Hl'.
    apply build_dict_from_table_lookup in Hl' as [_ Hkey]. subst cand.
    eexists l_row, r_row, _, overlap.
    split; [by apply join_rows_lookup|]. split; [done|].
    split; [exact Hco|]. done.
  - intros (l_row & r_row & co & overlap & Hl & Hr & Hco & Hentry & Hpos
            & Hge & ->).
    exists r_row. split; [|done]. apply list_elem_of_bind.
    exists (row_key l_row, overlap). split.
    + apply join_verified_elem. exists l_row. simpl.
      split; [by apply join_rows_lookup|]. done.
    + rewrite Hco. simpl. by apply elem_of_map_to_list.
Qed.

Lemma join_verified_pairs (sim_fn : list Z -> list Z -> Score)
    (has_output_attributes out_sim_score : bool) (r_row : Row K)
    (item : K * Z) :
  NoDup ((fun out : OutRow K Score => (out_l out, out_r out))
           <$> join_verified sim_fn ltable rtable tokenizer sim_measure_type
                 threshold has_output_attributes out_sim_score r_row item)
  /\ forall out,
       out ∈ join_verified sim_fn ltable rtable tokenizer sim_measure_type
               threshold has_output_attributes out_sim_score r_row item ->
       out_l out = item.1 /\ out_r out = row_key r_row.
Proof.
  split.
  - unfold join_verified.
    destruct (build_dict_from_table ltable !! item.1); [|constructor].
    destruct (_ && _); [|constructor]. simpl. apply NoDup_singleton.
  - intros out Hout. by apply join_verified_elem in Hout as (? & _ & _ & _ & ->).
Qed.

Lemma set_sim_join_rows_NoDup (sim_fn : list Z -> list Z -> Score)
    (has_output_attributes out_sim_score : bool) :
  NoDup ((fun out : OutRow K Score => (out_l out, out_r out))
           <$> set_sim_join_rows sim_fn ltable rtable tokenizer
                 sim_measure_type threshold has_output_attributes
                 out_sim_score).
Proof.
  unfold set_sim_join_rows.
  apply (NoDup_fmap_bind row_key snd); [apply build_dict_from_table_keys|].
  intros r_row _. split.
  - apply (NoDup_fmap_bind fst fst); [apply NoDup_fst_map_to_list|].
    intros item _. split; [apply join_verified_pairs|].
    intros out Hout. simpl. by apply join_verified_pairs in Hout as [-> _].
  - intros out Hout. simpl.
    apply list_elem_of_bind in Hout as (item & Hout & _).
    by apply join_verified_pairs in Hout as [_ ->].
Qed.

End Pipeline.

End JoinProofs.

Section JoinTheorems.
Context {K Th Score : Type} `{Countable K} `{!Collaborators K Th Score}.

Lemma filter_passed_elem (ltable : list (Row K))
    (has_output_attributes : bool) (r_row : Row K) (item : K * Z)
    (out : OutRow K Score) :
  out ∈ filter_passed ltable has_output_attributes r_row item
  <-> exists l_row,
        build_dict_from_table ltable !! item.1 = Some l_row
        /\ 0 < item.2
        /\ out = mkOutRow item.1 (row_key r_row)
                   (if has_output_attributes then project_attrs l_row r_row
                    else [])
                   None.
Proof.
  unfold filter_passed.
  destruct (build_dict_from_table ltable !! item.1) as [l_row|].
  - destruct (item.2 >? 0) eqn:Hpos.
    + rewrite list_elem_of_singleton. split.
      * intros ->. exists l_row. repeat split; lia.
      * by intros (l_row' & [= <-] & _ & ->).
    + rewrite elem_of_nil. split; [done|]. intros (l_row' & _ & Hpos' & _).
      lia.
  - rewrite elem_of_nil. split; [done|]. by intros (l_row' & Hl & _).
Qed.

Lemma filter_tables_comprehension (self : PositionFilter Th)
    (ltable rtable : list (Row K))
    (l_out_attrs r_out_attrs : option (list string)) :
  filter_tables self ltable rtable l_out_attrs r_out_attrs
  = Some (filter_tables_rows self ltable rtable
            (bool_decide (is_Some l_out_attrs)
             || bool_decide (is_Some r_out_attrs))).
Proof.
  destruct self as [tokenizer sim_measure_type threshold].
  unfold filter_tables. simpl.
  set (has := bool_decide (is_Some l_out_attrs)
              || bool_decide (is_Some r_out_attrs)).
  rewrite (foldl_opt_bind _
             (fun r_row =>
                if bool_decide (row_join r_row = EmptyString) then []
                else
                  item ← map_to_list
                           (default ∅ (join_candidates ltable rtable
                                         tokenizer sim_measure_type threshold
                                         r_row));
                  filter_passed ltable has r_row item)); [done|].
  intros acc r_row _. unfold filter_row. simpl.
  case_bool_decide; [by rewrite app_nil_r|].
  pose proof (join_candidates_sweep ltable rtable tokenizer sim_measure_type
                threshold r_row) as Hco.
  cbn zeta in Hco. rewrite Hco. simpl default.
  change (_find_candidates _ _ _ _ _)
    with (join_candidates ltable rtable tokenizer sim_measure_type threshold
            r_row).
  rewrite Hco. simpl.
  apply foldl_opt_bind. intros acc' [cand overlap] Hitem.
  apply elem_of_map_to_list in Hitem.
  destruct (join_candidates_entry ltable rtable tokenizer sim_measure_type
              threshold r_row _ cand overlap Hco Hitem)
    as (l_row & _ & Hl_row & <- & _).
  unfold filter_candidate, filter_passed. simpl.
  rewrite (proj1 (join_rows_lookup ltable l_row) Hl_row). simpl.
  destruct (overlap >? 0); [|by rewrite app_nil_r].
  by destruct has.
Qed.

Lemma filter_tables_rows_elem (self : PositionFilter Th)
    (ltable rtable : list (Row K)) (has_output_attributes : bool)
    (out : OutRow K Score) :
  out ∈ filter_tables_rows self ltable rtable has_output_attributes
  <-> exists l_row r_row candidate_overlap overlap,
        l_row ∈ join_rows ltable /\ r_row ∈ join_rows rtable
        /\ row_join r_row <> EmptyString
        /\ join_candidates ltable rtable (pf_tokenizer self)
             (pf_sim_measure_type self) (pf_threshold self) r_row
           = Some candidate_overlap
        /\ candidate_overlap !! row_key l_row = Some overlap
        /\ 0 < overlap
        /\ out = mkOutRow (row_key l_row) (row_key r_row)
                   (if has_output_attributes then project_attrs l_row r_row
                    else [])
                   None.
Proof.
  unfold filter_tables_rows. rewrite list_elem_of_bind. split.
  - intros (r_row & Hout & Hr). case_bool_decide as He;
      [by apply elem_of_nil in Hout|].
    apply list_elem_of_bind in Hout as ([cand overlap] & Hout & Hitem).
    apply filter_passed_elem in Hout as (l_row & Hl & Hpos & ->).
    simpl in *.
    pose proof (join_candidates_sweep ltable rtable (pf_tokenizer self)
                  (pf_sim_measure_type self) (pf_threshold self) r_row)
      as Hco.
    cbn zeta in Hco. rewrite Hco in Hitem. simpl in Hitem.
    apply elem_of_map_to_list in Hitem.
    pose proof Hl as Hl'.
    apply build_dict_from_table_lookup in Hl' as [_ Hkey]. subst cand.
    eexists l_row, r_row, _, overlap.
    split; [by apply join_rows_lookup|]. split; [done|]. split; [done|].
    split; [exact Hco|]. done.
  - intros (l_row & r_row & co & overlap & Hl & Hr & He & Hco & Hentry & Hpos
            & ->).
    exists r_row. split; [|done]. rewrite bool_decide_eq_false_2 by done.
    apply list_elem_of_bind.
    exists (row_key l_row, overlap). split.
    + apply filter_passed_elem. exists l_row. simpl.
      split; [by apply join_rows_lookup|]. done.
    + rewrite Hco. simpl. by apply elem_of_map_to_list.
Qed.

Lemma filter_tables_rows_NoDup (self : PositionFilter Th)
    (ltable rtable : list (Row K)) (has_output_attributes : bool) :
  NoDup ((fun out : OutRow K Score => (out_l out, out_r out))
           <$> filter_tables_rows self ltable rtable has_output_attributes).
Proof.
  unfold filter_tables_rows.
  apply (NoDup_fmap_bind row_key snd); [apply build_dict_from_table_keys|].
  intros r_row _. case_bool_decide; [split; [constructor|]|].
  { intros out Hout. by apply elem_of_nil in Hout. }
  assert (forall item out,
            out ∈ filter_passed (Score := Score) ltable has_output_attributes
                    r_row item ->
            out_l out = item.1 /\ out_r out = row_key r_row) as Hkeys.
  { intros item out Hout. by apply filter_passed_elem in Hout as (? & _ & _ & ->). }
  split.
  - apply (NoDup_fmap_bind fst fst); [apply NoDup_fst_map_to_list|].
    intros item _. split.
    + unfold filter_passed.
      destruct (build_dict_from_table ltable !! item.1); [|constructor].
      destruct (item.2 >? 0); [|constructor]. apply NoDup_singleton.
    + intros out Hout. simpl. by apply Hkeys in Hout as [-> _].
  - intros out Hout. simpl.
    apply list_elem_of_bind in Hout as (item & Hout & _).
    by apply Hkeys in Hout as [_ ->].
Qed.




(** X11. Every pair that [set_sim_join] returns shares a prefix token: an
    output row comes from a left row and a right row of the tables with
    the two keys, and some token is both in the prefix that the position
    index holds for the left row and in the probe prefix of the right
    row.  In particular a row without tokens is in no output row. *)
Theorem set_sim_join_pairs_share_prefix_token (ltable rtable : list (Row K))
    (tokenizer : Tokenizer) (sim_measure_type : SimMeasure) (threshold : Th)
    (l_out_attrs r_out_attrs : option (list string)) (out_sim_score : bool)
    (rows : list (OutRow K Score)) (out : OutRow K Score) :
  let token_ordering :=
    gen_token_ordering_for_tables
      [dict_values (build_dict_from_table ltable);
       dict_values (build_dict_from_table rtable)]
      tokenizer sim_measure_type in
  let l_tokens (l_row : Row K) :=
    order_using_token_ordering (tokenizer_tokenize tokenizer (row_join l_row))
      token_ordering in
  let r_tokens (r_row : Row K) :=
    order_using_token_ordering
      (tokenize (row_join r_row) tokenizer sim_measure_type) token_ordering in
  let prefix (tokens : list Z) :=
    py_slice_to tokens
      (get_prefix_length (len tokens) sim_measure_type threshold tokenizer) in
  set_sim_join ltable rtable tokenizer sim_measure_type threshold l_out_attrs
    r_out_attrs out_sim_score = Some rows ->
  out ∈ rows ->
  exists l_row r_row token,
    l_row ∈ ltable /\ r_row ∈ rtable
    /\ out_l out = row_key l_row /\ out_r out = row_key r_row
    /\ token ∈ prefix (l_tokens l_row) /\ token ∈ prefix (r_tokens r_row).
Proof.
  intros token_ordering l_tokens r_tokens prefix.
  destruct (get_sim_function sim_measure_type) as [sim_fn|] eqn:Hsim.
  - rewrite (set_sim_join_comprehension ltable rtable tokenizer
               sim_measure_type threshold l_out_attrs r_out_attrs
               out_sim_score sim_fn Hsim).
    intros [= <-] Hout.
    apply set_sim_join_rows_elem in Hout
      as (l_row & r_row & co & overlap & Hl & Hr & Hco & Hentry & _ & _ & ->).
    destruct (join_candidates_entry ltable rtable tokenizer sim_measure_type
                threshold r_row co (row_key l_row) overlap Hco Hentry)
      as (l_row' & token & Hl' & Hkey & Htl & Htr).
    assert (l_row' = l_row) as -> by by apply (join_rows_unique ltable).
    exists l_row, r_row, token.
    split; [by apply join_rows_table|]. split; [by apply join_rows_table|].
    done.
  - unfold set_sim_join. rewrite Hsim. done.
Qed.


(** X13. Verification only removes pairs: a pair that [set_sim_join]
    returns for a right row with a non-empty string is among the pairs
    that [filter_tables] of the position filter with the same tokenizer,
    measure and threshold returns for the two tables. *)
Theorem set_sim_join_within_filter_tables (ltable rtable : list (Row K))
    (tokenizer : Tokenizer) (sim_measure_type : SimMeasure) (threshold : Th)
    (l_out_attrs r_out_attrs l_out_attrs' r_out_attrs' : option (list string))
    (out_sim_score : bool) (rows : list (OutRow K Score))
    (out : OutRow K Score) :
  set_sim_join ltable rtable tokenizer sim_measure_type threshold l_out_attrs
    r_out_attrs out_sim_score = Some rows ->
  out ∈ rows ->
  (forall r_row, r_row ∈ rtable -> row_key r_row = out_r out ->
                 row_join r_row <> EmptyString) ->
  exists filtered out',
    filter_tables (mkPositionFilter tokenizer sim_measure_type threshold)
      ltable rtable l_out_attrs' r_out_attrs' = Some filtered
    /\ out' ∈ filtered
    /\ out_l out' = out_l out /\ out_r out' = out_r out.
Proof.
  destruct (get_sim_function sim_measure_type) as [sim_fn|] eqn:Hsim.
  - rewrite (set_sim_join_comprehension ltable rtable tokenizer
               sim_measure_type threshold l_out_attrs r_out_attrs
               out_sim_score sim_fn Hsim).
    intros [= <-] Hout Hne.
    apply set_sim_join_rows_elem in Hout
      as (l_row & r_row & co & overlap & Hl & Hr & Hco & Hentry & Hpos & _
          & ->).
    simpl in Hne. eexists. eexists.
    split; [apply filter_tables_comprehension|]. split.
    + apply filter_tables_rows_elem.
      exists l_row, r_row, co, overlap.
      split; [done|]. split; [done|].
      split; [by apply Hne; [apply join_rows_table|]|]. done.
    + done.
  - unfold set_sim_join. rewrite Hsim. done.
Qed.

End JoinTheorems.

(** ** The count of a candidate and the tokens it shares with the probe *)

Lemma count_step_fold_bounds {E : Type} (ub : E -> Z) (threshold : Z)
    (es : list E) (n : Z) :
  0 <= n ->
  0 <= foldl (fun cur e => count_step threshold cur (ub e)) n es <= n + len es.
Proof.
  revert n. induction es as [|e es IH]; intros n Hn; simpl.
  - unfold len. simpl. lia.
  - unfold count_step at 2 4. case_bool_decide.
    + specialize (IH (n + 1)). unfold len in *. simpl. lia.
    + specialize (IH 0). unfold len in *. simpl. lia.
Qed.

Lemma StronglySorted_lt_py_slice_to (l : list Z) (stop : Z) :
  StronglySorted Z.lt l -> StronglySorted Z.lt (py_slice_to l stop).
Proof.
  intros Hs. destruct (py_slice_to_take l stop) as [n ->].
  rewrite <- (take_drop n l) in Hs.
  by apply StronglySorted_app_1_l in Hs.
Qed.

Lemma StronglySorted_event_lt_NoDup (es : list (Z * Z)) :
  StronglySorted event_lt es -> NoDup es.
Proof.
  induction 1 as [|x l Hs IH Hall]; constructor; [|done].
  intros Hin. rewrite Forall_forall in Hall. apply Hall in Hin.
  by apply event_lt_irrefl in Hin.
Qed.

Section CountBound.
Context {K Th Score : Type} `{Countable K} `{!Collaborators K Th Score}.

(** X14. In set mode the position filter never counts more than there is:
    over an index built from a table with unique keys, for a row and a
    probe whose ordered tokens are strictly ascending, the count that
    [_find_candidates] returns for the row is at least 0 and at most the
    number of tokens of the prefix of the row that are in the prefix of
    the probe. *)
Theorem find_candidates_count_at_most_shared (table : list (Row K))
    (tokenizer : Tokenizer) (sim_measure_type : SimMeasure) (threshold : Th)
    (token_ordering : gmap string Z) (self : PositionFilter Th)
    (r_ordered_tokens : list Z) (r_num_tokens r_prefix_length : Z)
    (c_row : Row K) (candidate_overlap : gmap K Z) (overlap : Z) :
  let init :=
    PositionIndex_init table tokenizer sim_measure_type threshold
      token_ordering in
  NoDup (row_key <$> table) ->
  c_row ∈ table ->
  StronglySorted Z.lt (index_attr_tokens init c_row) ->
  StronglySorted Z.lt r_ordered_tokens ->
  _find_candidates self r_ordered_tokens r_num_tokens r_prefix_length
    (build init) = Some candidate_overlap ->
  candidate_overlap !! row_key c_row = Some overlap ->
  0 <= overlap
    <= len (filter (fun t => t ∈ py_slice_to r_ordered_tokens r_prefix_length)
                   (index_prefix init c_row)).
Proof.
  intros init Hkeys Hrow HLc HR Hrun Hentry.
  set (c := row_key c_row) in *.
  set (P := py_slice_to r_ordered_tokens r_prefix_length) in *.
  set (Pc := index_prefix init c_row) in *.
  set (Ec := cand_events c (events_from (build init) 0 P)).
  assert (StronglySorted Z.lt P) as HP by by apply StronglySorted_lt_py_slice_to.
  assert (StronglySorted Z.lt Pc) as HPc
    by by apply StronglySorted_lt_py_slice_to.
  destruct (find_candidates_entry table tokenizer sim_measure_type threshold
              token_ordering self r_ordered_tokens r_num_tokens
              r_prefix_length candidate_overlap c overlap Hrun Hentry)
    as (Hnn & _ & n_c & _ & _ & _ & Hsize & Hbounds & _).
  split; [done|].
  rewrite find_candidates_sweep in Hrun. injection Hrun as <-.
  pose proof (sweep_cand_count self r_num_tokens (build init) c n_c
                (events_from (build init) 0 P) ∅ Hsize Hbounds) as Hcount.
  unfold sweep in Hentry. fold P in Hentry.
  rewrite Hentry, lookup_empty in Hcount.
  simpl in Hcount. fold Ec in Hcount.
  pose proof (count_step_fold_bounds
                (fun e : Z * Z => overlap_upper_bound r_num_tokens e.1 n_c e.2)
                (get_overlap_threshold n_c r_num_tokens
                   (pf_sim_measure_type self) (pf_threshold self)
                   (pf_tokenizer self))
                Ec 0 (Z.le_refl 0)) as [_ Hle].
  rewrite <- Hcount in Hle.
  assert (len Ec <= len (filter (fun t => t ∈ P) Pc)); [|lia].
  set (tok := fun e : Z * Z => default 0 (Pc !! Z.to_nat e.2)).
  assert (forall e, e ∈ Ec ->
            exists (n m : nat) (t : Z),
              e = (Z.of_nat n, Z.of_nat m) /\ P !! n = Some t
              /\ Pc !! m = Some t /\ tok e = t) as Helem.
  { intros [i j] He.
    apply (built_cand_events_elem table tokenizer sim_measure_type threshold
             token_ordering) in He
      as (n & m & t & row & -> & -> & Hn & Hrow' & Hk & Hm).
    assert (row = c_row) as -> by (apply (row_key_unique table); done).
    change (Pc !! m = Some t) in Hm.
    exists n, m, t. repeat split; [done..|].
    unfold tok. simpl. by rewrite Nat2Z.id, Hm. }
  assert (length (tok <$> Ec) <= length (filter (fun t => t ∈ P) Pc))%nat
    as Hlen.
  { apply submseteq_length, NoDup_submseteq.
    - apply NoDup_fmap_2_strong.
      + intros e1 e2 He1 He2 Htok.
        apply Helem in He1 as (n1 & m1 & t1 & -> & Hn1 & Hm1 & Ht1).
        apply Helem in He2 as (n2 & m2 & t2 & -> & Hn2 & Hm2 & Ht2).
        assert (t1 = t2) as -> by congruence.
        assert (n1 = n2) as ->
          by (eapply NoDup_lookup;
              [apply StronglySorted_lt_NoDup, HP|done..]).
        assert (m1 = m2) as ->
          by (eapply NoDup_lookup;
              [apply StronglySorted_lt_NoDup, HPc|done..]).
        done.
      + apply StronglySorted_event_lt_NoDup.
        by apply built_cand_events_sorted.
    - intros t Ht. apply list_elem_of_fmap in Ht as (e & -> & He).
      apply Helem in He as (n & m & t & -> & Hn & Hm & ->).
      apply list_elem_of_filter. split.
      + by apply list_elem_of_lookup_2 in Hn.
      + by apply list_elem_of_lookup_2 in Hm. }
  rewrite length_fmap in Hlen. unfold len. lia.
Qed.

End CountBound.

(** ** Pairs that the join must return *)

Section JoinComplete.
Context {K Th Score : Type} `{Countable K} `{!Collaborators K Th Score}.


End JoinComplete.

(** ** The Jaccard driver *)

Section JaccardProofs.
Context {K Th Score : Type} `{Countable K} `{!Collaborators K Th Score}
        `{!DriverCollaborators K Th Score}.


End JaccardProofs.

(** ** The black-box join *)

Lemma mapM_Some_fmap {A B : Type} (h : A -> option B) (g : A -> B)
    (l : list A) :
  (forall x, x ∈ l -> h x = Some (g x)) -> mapM h l = Some (g <$> l).
Proof.
  induction l as [|x l IH]; intros Hh; simpl; [done|].
  rewrite Hh by (apply elem_of_cons; auto). simpl.
  rewrite IH by (intros; apply Hh; apply elem_of_cons; auto). done.
Qed.

Lemma concat_fmap_bind {A B : Type} (g : A -> list B) (ls : list (list A)) :
  concat ((fun l => l ≫= g) <$> ls) = concat ls ≫= g.
Proof.
  induction ls as [|l ls IH]; [done|].
  rewrite fmap_cons. cbn [concat]. by rewrite IH, bind_app.
Qed.

Lemma bind_Permutation_l {A B : Type} (g : A -> list B) (l k : list A) :
  l ≡ₚ k -> l ≫= g ≡ₚ k ≫= g.
Proof.
  induction 1 as [|x l k _ IH|x y l|l k m _ IH1 _ IH2]; simpl.
  - done.
  - by rewrite IH.
  - rewrite !app_assoc. f_equiv. apply Permutation_app_comm.
  - by rewrite IH1.
Qed.

Section BlackBoxProofs.
Context {K Th Score : Type} `{Countable K} `{!Collaborators K Th Score}
        `{!DriverCollaborators K Th Score}.
Context (sim_function : JoinValue -> JoinValue -> Score).

Lemma join_rows_Permutation (table : list (Row K)) :
  NoDup (row_key <$> table) -> join_rows table ≡ₚ table.
Proof.
  intros Hnd. apply NoDup_Permutation.
  - apply (NoDup_fmap_1 row_key). apply build_dict_from_table_keys.
  - by apply (NoDup_fmap_1 row_key).
  - intros row. split; [apply join_rows_table|by apply join_rows_NoDup_table].
Qed.

Lemma black_box_join_split_comprehension (ltable rtable : list (Row K))
    (threshold : Th) (tokenizer : option Tokenizer)
    (l_out_attrs r_out_attrs : option (list string)) (out_sim_score : bool) :
  _black_box_join_split sim_function ltable rtable threshold tokenizer
    l_out_attrs r_out_attrs out_sim_score
  = Some (black_box_rows sim_function (join_rows ltable) (join_rows rtable)
            threshold tokenizer
            (bool_decide (is_Some l_out_attrs)
             || bool_decide (is_Some r_out_attrs))
            out_sim_score).
Proof.
  unfold _black_box_join_split, black_box_rows.
  set (has := bool_decide (is_Some l_out_attrs)
              || bool_decide (is_Some r_out_attrs)).
  erewrite foldl_opt_bind; [done|].
  intros acc r_row _. simpl.
  apply foldl_opt_bind. intros acc' l_row Hl.
  unfold black_box_pair.
  assert (match tokenizer with
          | Some _ =>
              JoinTokens
                <$> build_l_join_tokens_cached tokenizer
                      (dict_values (build_dict_from_table ltable))
                    !! row_key l_row
          | None => Some (JoinString (row_join l_row))
          end
          = Some match tokenizer with
                 | Some t => JoinTokens (tokenizer_tokenize t (row_join l_row))
                 | None => JoinString (row_join l_row)
                 end) as ->.
  { destruct tokenizer as [t|]; [|done]. simpl.
    rewrite (foldl_insert_lookup_NoDup row_key
               (fun l_row => tokenizer_tokenize t (row_join l_row)));
      [done| |done].
    apply build_dict_from_table_keys. }
  simpl. destruct (score_ge _ threshold); [done|]. by rewrite app_nil_r.
Qed.

Lemma black_box_rows_elem (l_rows r_rows : list (Row K)) (threshold : Th)
    (tokenizer : option Tokenizer) (has_output_attributes out_sim_score : bool)
    (out : OutRow K Score) :
  let value (row : Row K) :=
    match tokenizer with
    | Some t => JoinTokens (tokenizer_tokenize t (row_join row))
    | None => JoinString (row_join row)
    end in
  out ∈ black_box_rows sim_function l_rows r_rows threshold tokenizer
          has_output_attributes out_sim_score
  <-> exists l_row r_row,
        l_row ∈ l_rows /\ r_row ∈ r_rows
        /\ score_ge (sim_function (value l_row) (value r_row)) threshold
           = true
        /\ out = mkOutRow (row_key l_row) (row_key r_row)
                   (if has_output_attributes then project_attrs l_row r_row
                    else [])
                   (if out_sim_score
                    then Some (sim_function (value l_row) (value r_row))
                    else None).
Proof.
  intros value. subst value. unfold black_box_rows. cbn zeta.
  rewrite list_elem_of_bind. split.
  - intros (r_row & Hout & Hr).
    apply list_elem_of_bind in Hout as (l_row & Hout & Hl).
    destruct (score_ge _ threshold) eqn:Hge; [|by apply elem_of_nil in Hout].
    apply list_elem_of_singleton in Hout as ->.
    exists l_row, r_row. done.
  - intros (l_row & r_row & Hl & Hr & Hge & ->).
    exists r_row. split; [|done]. apply list_elem_of_bind.
    exists l_row. split; [|done]. rewrite Hge.
    by apply list_elem_of_singleton.
Qed.

Lemma black_box_rows_NoDup (l_rows r_rows : list (Row K)) (threshold : Th)
    (tokenizer : option Tokenizer) (has_output_attributes out_sim_score : bool) :
  NoDup (row_key <$> l_rows) -> NoDup (row_key <$> r_rows) ->
  NoDup ((fun out : OutRow K Score => (out_l out, out_r out))
           <$> black_box_rows sim_function l_rows r_rows threshold tokenizer
                 has_output_attributes out_sim_score).
Proof.
  intros Hl Hr. unfold black_box_rows.
  apply (NoDup_fmap_bind row_key snd); [done|].
  intros r_row _.
  assert (forall l_row out,
            out ∈ (if score_ge
                        (sim_function
                           match tokenizer with
                           | Some t =>
                               JoinTokens
                                 (tokenizer_tokenize t (row_join l_row))
                           | None => JoinString (row_join l_row)
                           end
                           match tokenizer with
                           | Some t =>
                               JoinTokens
                                 (tokenizer_tokenize t (row_join r_row))
                           | None => JoinString (row_join r_row)
                           end)
                        threshold
                   then [mkOutRow (row_key l_row) (row_key r_row)
                           (if has_output_attributes
                            then project_attrs l_row r_row else [])
                           (if out_sim_score
                            then Some
                                   (sim_function
                                      match tokenizer with
                                      | Some t =>
                                          JoinTokens
                                            (tokenizer_tokenize t
                                               (row_join l_row))
                                      | None => JoinString (row_join l_row)
                                      end
                                      match tokenizer with
                                      | Some t =>
                                          JoinTokens
                                            (tokenizer_tokenize t
                                               (row_join r_row))
                                      | None => JoinString (row_join r_row)
                                      end)
                            else None)]
                   else []) ->
            out_l out = row_key l_row /\ out_r out = row_key r_row) as Hkeys.
  { intros l_row out Hout.
    destruct (score_ge _ threshold); [|by apply elem_of_nil in Hout].
    by apply list_elem_of_singleton in Hout as ->. }
  split.
  - apply (NoDup_fmap_bind row_key fst); [done|].
    intros l_row _. split.
    + destruct (score_ge _ threshold); [apply NoDup_singleton|constructor].
    + intros out Hout. simpl. by apply Hkeys in Hout as [-> _].
  - intros out Hout. simpl.
    apply list_elem_of_bind in Hout as (l_row & Hout & _).
    by apply Hkeys in Hout as [_ ->].
Qed.

(** X17. [_black_box_join_split] never raises and is exact for the black
    box: its output holds a row for a left and a right row of the two
    dictionaries exactly if the score that the black box gives for their
    join values (the strings, or their tokens when a tokenizer is given)
    is at least the threshold; that row carries the two keys and, if
    asked for, that score; and no pair of keys is in the output twice. *)
Theorem black_box_join_split_exact (ltable rtable : list (Row K))
    (threshold : Th) (tokenizer : option Tokenizer)
    (l_out_attrs r_out_attrs : option (list string)) (out_sim_score : bool) :
  let value (row : Row K) :=
    match tokenizer with
    | Some t => JoinTokens (tokenizer_tokenize t (row_join row))
    | None => JoinString (row_join row)
    end in
  exists rows,
    _black_box_join_split sim_function ltable rtable threshold tokenizer
      l_out_attrs r_out_attrs out_sim_score = Some rows
    /\ NoDup ((fun out : OutRow K Score => (out_l out, out_r out)) <$> rows)
    /\ (forall out,
          out ∈ rows ->
          exists l_row r_row,
            l_row ∈ ltable /\ r_row ∈ rtable
            /\ out_l out = row_key l_row /\ out_r out = row_key r_row
            /\ score_ge (sim_function (value l_row) (value r_row)) threshold
               = true
            /\ out_score out
               = if out_sim_score
                 then Some (sim_function (value l_row) (value r_row))
                 else None)
    /\ (forall l_row r_row,
          l_row ∈ join_rows ltable -> r_row ∈ join_rows rtable ->
          score_ge (sim_function (value l_row) (value r_row)) threshold
          = true ->
          exists out,
            out ∈ rows /\ out_l out = row_key l_row
            /\ out_r out = row_key r_row).
Proof.
  intros value. eexists.
  split; [apply black_box_join_split_comprehension|].
  split; [apply black_box_rows_NoDup; apply build_dict_from_table_keys|].
  split.
  - intros out Hout.
    apply black_box_rows_elem in Hout as (l_row & r_row & Hl & Hr & Hge & ->).
    exists l_row, r_row.
    split; [by apply join_rows_table|]. split; [by apply join_rows_table|].
    done.
  - intros l_row r_row Hl Hr Hge. eexists. split.
    + apply black_box_rows_elem. exists l_row, r_row. done.
    + done.
Qed.

(** X18. The number of jobs does not change what [black_box_join]
    returns: for a positive number of jobs, if the keys of the right
    table are unique and [split_table] cuts the right table into at
    least one part and the parts together hold its rows, then whenever
    the join with one job returns, the join with [n_jobs] jobs returns
    the same rows up to their order. *)
Theorem black_box_join_n_jobs (ltable rtable : list (Row K))
    (threshold : Th) (tokenizer : option Tokenizer)
    (l_out_attrs r_out_attrs : option (list string)) (out_sim_score : bool)
    (n_jobs : Z) (rows1 : list (OutRow K Score)) :
  1 <= n_jobs ->
  NoDup (row_key <$> rtable) ->
  split_table rtable n_jobs <> [] ->
  concat (split_table rtable n_jobs) ≡ₚ rtable ->
  black_box_join sim_function ltable rtable threshold tokenizer l_out_attrs
    r_out_attrs out_sim_score 1 = Some rows1 ->
  exists rows,
    black_box_join sim_function ltable rtable threshold tokenizer l_out_attrs
      r_out_attrs out_sim_score n_jobs = Some rows
    /\ rows ≡ₚ rows1.
Proof.
  intros _ Hnd Hparts0 Hsplit. unfold black_box_join.
  destruct (_ && _); [|done]. simpl.
  rewrite black_box_join_split_comprehension. intros [= <-].
  destruct (n_jobs =? 1).
  { eexists. split; done. }
  set (has := bool_decide (is_Some l_out_attrs)
              || bool_decide (is_Some r_out_attrs)).
  rewrite (mapM_Some_fmap _
             (fun r_split =>
                black_box_rows sim_function (join_rows ltable)
                  (join_rows r_split) threshold tokenizer has out_sim_score))
    by (intros; apply black_box_join_split_comprehension).
  simpl.
  assert (forall r_split, r_split ∈ split_table rtable n_jobs ->
            NoDup (row_key <$> r_split)) as Hparts.
  { intros r_split Hin.
    apply list_elem_of_split in Hin as (before & after & Hin).
    rewrite <- Hsplit, Hin in Hnd.
    rewrite concat_app in Hnd. simpl in Hnd. rewrite !fmap_app in Hnd.
    by apply NoDup_app in Hnd as (_ & _ & (Hnd & _)%NoDup_app). }
  assert (concat
            ((fun r_split =>
                black_box_rows sim_function (join_rows ltable)
                  (join_rows r_split) threshold tokenizer has out_sim_score)
               <$> split_table rtable n_jobs)
          ≡ₚ black_box_rows sim_function (join_rows ltable)
               (join_rows rtable) threshold tokenizer has out_sim_score)
    as Hperm.
  { unfold black_box_rows.
    etransitivity.
    2: { apply bind_Permutation_l. symmetry. etransitivity.
         - by apply join_rows_Permutation.
         - symmetry. exact Hsplit. }
    rewrite <- concat_fmap_bind.
    clear Hsplit Hnd Hparts0.
    induction (split_table rtable n_jobs) as [|r_split r_splits IH]; [done|].
    rewrite !fmap_cons. cbn [concat]. apply Permutation_app.
    - apply bind_Permutation_l, join_rows_Permutation, Hparts.
      apply elem_of_cons. auto.
    - apply IH. intros r_split' Hin. apply Hparts. apply elem_of_cons. auto. }
  destruct (split_table rtable n_jobs) as [|r_split r_splits]; [done|].
  eexists. split; [done|]. exact Hperm.
Qed.

End BlackBoxProofs.

(** ** Batches of output rows *)

Section MurUtilsProofs.
Context {A : Type}.

Implicit Types (results reservoir rows : list A) (size : Z).

Lemma ration_output_loop_concat results size reservoir :
  concat (ration_output_loop results size reservoir) = reservoir ++ results.
Proof.
  revert reservoir. induction results as [|x rest IH]; intros reservoir; simpl.
  - destruct reservoir; simpl; [done|].
    unfold len. simpl. by rewrite app_nil_r.
  - destruct (len (reservoir ++ [x]) >? size); simpl; rewrite IH.
    + by rewrite <- app_assoc.
    + by rewrite <- app_assoc.
Qed.

Lemma ration_output_loop_sizes results size reservoir :
  len reservoir < Z.max 1 (size + 1) ->
  Forall (fun batch => 0 < len batch <= Z.max 1 (size + 1))
         (ration_output_loop results size reservoir)
  /\ forall (i : nat) batch,
       ration_output_loop results size reservoir !! i = Some batch ->
       (S i < length (ration_output_loop results size reservoir))%nat ->
       len batch = Z.max 1 (size + 1).
Proof.
  revert reservoir. induction results as [|x rest IH]; intros reservoir Hlen;
    simpl.
  - destruct (0 <? len reservoir) eqn:Hpos.
    + split; [constructor; [lia|constructor]|].
      intros [|i] batch Hi Hlt; simpl in *; lia.
    + split; [constructor|]. by intros i batch Hi.
  - assert (len (reservoir ++ [x]) = len reservoir + 1) as Hsnoc
      by (unfold len; rewrite length_app; simpl; lia).
    destruct (len (reservoir ++ [x]) >? size) eqn:Hcmp.
    + destruct (IH []) as [Hall Hfull]; [unfold len; simpl; lia|].
      split; [constructor; [unfold len in *; lia|done]|].
      intros [|i] batch Hi Hlt; simpl in *.
      * injection Hi as <-. unfold len in *. lia.
      * apply (Hfull i); [done|lia].
    + apply IH. lia.
Qed.

(** X19. [ration_output] cuts the results into batches without losing,
    repeating or reordering a row: the batches, one after the other, are
    the results; no batch is empty; and every batch but the last holds
    [size + 1] rows (one row when [size] is negative), the test for a
    full reservoir being [len(reservoir) > size]. *)
Theorem ration_output_batches rows size :
  let batches := ration_output rows size in
  concat batches = rows
  /\ Forall (fun batch => 0 < len batch <= Z.max 1 (size + 1)) batches
  /\ forall (i : nat) batch,
       batches !! i = Some batch -> (S i < length batches)%nat ->
       len batch = Z.max 1 (size + 1).
Proof.
  simpl. unfold ration_output. split; [apply ration_output_loop_concat|].
  apply ration_output_loop_sizes. unfold len. simpl. lia.
Qed.

Lemma foldl_consume_rows (batches : list (list A)) (acc : list A) :
  foldl consume_rows (Some acc) batches = Some (acc ++ concat batches).
Proof.
  revert acc. induction batches as [|b bs IH]; intros acc; simpl.
  - by rewrite app_nil_r.
  - rewrite IH. by rewrite <- app_assoc.
Qed.

(** X20. [consume_into_dataframe] hands the data frame [None] when the
    generator yields no batch, and otherwise the rows of all batches in
    order; fed by [ration_output], it gives back the rows that went in,
    whatever the batch size. *)
Theorem consume_into_dataframe_ration_output {H : Type} rows size
    (header : H) :
  (forall batches : list (list A),
     consume_into_dataframe batches header
     = (match batches with
        | [] => None
        | _ :: _ => Some (concat batches)
        end, header))
  /\ consume_into_dataframe (ration_output rows size) header
     = (match rows with [] => None | _ :: _ => Some rows end, header).
Proof.
  assert (forall batches : list (list A),
            consume_into_dataframe batches header
            = (match batches with
               | [] => None
               | _ :: _ => Some (concat batches)
               end, header)) as Hgen.
  { intros [|b bs]; [done|]. unfold consume_into_dataframe. simpl.
    by rewrite foldl_consume_rows. }
  split; [exact Hgen|]. rewrite Hgen.
  pose proof (ration_output_loop_concat rows size []) as Hcat.
  fold (ration_output rows size) in Hcat. simpl in Hcat.
  destruct (ration_output rows size) as [|b bs] eqn:Hb; simpl in Hcat.
  - by rewrite <- Hcat.
  - simpl. rewrite Hcat. destruct rows; [|done].
    exfalso. clear Hgen. unfold ration_output in Hb. simpl in Hb. done.
Qed.

End MurUtilsProofs.

(** ** The single-pair filter and the filter over positions *)

Section FilterPairWeaker.
Context {K Th Score : Type} `{Countable K} `{!Collaborators K Th Score}.

Lemma l_prefix_dict_loops_lost (tokens : list Z) (d0 d1 : gmap Z Z)
    (l_pos : Z) :
  0 <= l_pos -> positions_lost d0 d1 ->
  positions_lost
    (foldl (fun (st : gmap Z Z * Z) token =>
              let '(l_prefix_dict, l_pos) := st in
              (<[token := l_pos]> l_prefix_dict, l_pos))
           (d0, 0) tokens).1
    (foldl (fun (st : gmap Z Z * Z) token =>
              let '(l_prefix_dict, l_pos) := st in
              (<[token := l_pos]> l_prefix_dict, l_pos + 1))
           (d1, l_pos) tokens).1.
Proof.
  revert d0 d1 l_pos. induction tokens as [|token rest IH];
    intros d0 d1 l_pos Hpos Hlost; simpl; [done|].
  apply IH; [lia|]. intros t. destruct (decide (token = t)) as [->|Hne].
  - right. rewrite !lookup_insert_eq. eauto.
  - rewrite !lookup_insert_ne by done. apply Hlost.
Qed.

Lemma filter_pair_sweep_lost (d0 d1 : gmap Z Z)
    (l_num_tokens r_num_tokens overlap_threshold : Z) (tokens : list Z)
    (current_overlap r_pos : Z) :
  positions_lost d0 d1 ->
  filter_pair_sweep d0 l_num_tokens r_num_tokens overlap_threshold tokens
    current_overlap r_pos = true ->
  filter_pair_sweep d1 l_num_tokens r_num_tokens overlap_threshold tokens
    current_overlap r_pos = true.
Proof.
  intros Hlost. revert current_overlap r_pos.
  induction tokens as [|token rest IH]; intros current_overlap r_pos;
    simpl; [done|].
  destruct (Hlost token) as [[-> ->]|(-> & v & -> & Hv)]; [apply IH|].
  destruct (current_overlap
            + (1 + Z.min (l_num_tokens - 0 - 1) (r_num_tokens - r_pos - 1))
            <? overlap_threshold) eqn:Hcmp0;
    destruct (current_overlap
              + (1 + Z.min (l_num_tokens - v - 1) (r_num_tokens - r_pos - 1))
              <? overlap_threshold) eqn:Hcmp1; try done.
  - apply Z.ltb_lt in Hcmp0. apply Z.ltb_ge in Hcmp1. lia.
  - apply IH.
Qed.


End FilterPairWeaker.

(** ** The scenarios, evaluated *)

Module Evaluation.
Import SpecModel Scenarios.
Local Open Scope string_scope.




(** C8. Single-pair position filter.  For the strings "a b" and "a b"
    under Jaccard at threshold 1/2 the ordered left tokens are 0 and 1
    and both are in the prefix; the token 1 stands at position 1, and
    the dictionary of [filter_pair] holds 0 for it: the loop that fills
    the dictionary never advances [l_pos].  With a tokenizer in bag mode
    the lost positions change the answer: for "u1 u2 t tp" and
    "v1 v2 t t t tp tp tp" the filter over the positions drops the pair
    and [filter_pair] keeps it. *)
Theorem filter_pair_prefix_dict_loses_positions :
  let self := mkPositionFilter ws_set JACCARD (1 # 2)%Q in
  let self_bag := mkPositionFilter ws_bag JACCARD (1 # 2)%Q in
  (pair_ordered_tokens (K := Z) self "a b" "a b").1 = [0; 1]
  /\ get_prefix_length (K := Z) 2 JACCARD (1 # 2)%Q ws_set = 2
  /\ (pair_ordered_tokens (K := Z) self "a b" "a b").1 !! 1%nat = Some 1
  /\ pair_l_prefix_dict (K := Z) self "a b" "a b" !! 1 = Some 0
  /\ filter_pair (K := Z) self "a b" "a b" = false
  /\ filter_pair_by_position (K := Z) self "a b" "a b" = false
  /\ pair_ordered_tokens (K := Z) self_bag "u1 u2 t tp" "v1 v2 t t t tp tp tp"
     = ([0; 1; 4; 5], [2; 3; 4; 4; 4; 5; 5; 5])
  /\ filter_pair_by_position (K := Z) self_bag "u1 u2 t tp"
       "v1 v2 t t t tp tp tp" = true
  /\ filter_pair (K := Z) self_bag "u1 u2 t tp" "v1 v2 t t t tp tp tp"
     = false.
Proof. by vm_compute. Qed.


End Evaluation.

(** ** The theorems at concrete inputs *)

Module Witnesses.
Import SpecModel Scenarios.
Local Open Scope string_scope.

Lemma spec_order_sorted (tokens : list string) (token_ordering : gmap string Z) :
  Sorted Z.le (spec_order_using_token_ordering tokens token_ordering).
Proof. apply Sorted_merge_sort. apply _. Qed.


Lemma position_index_build_invariant_witness :
  let self :=
    build (PositionIndex_init prune_ltable ws_set JACCARD (3 # 5)%Q
             prune_ordering) in
  (1, 0) ∈ probe self 1 /\ (1, 1) ∈ probe self 2 /\ get_size self 1 = Some 8.
Proof.
  intros self.
  assert (NoDup (row_key <$> prune_ltable)) as Hkeys
    by (apply (bool_decide_unpack _); by vm_compute).
  assert (mkRow 1 "a b c d e f g h" [] ∈ prune_ltable) as Hrow
    by (apply elem_of_cons; by left).
  destruct (position_index_build_invariant prune_ltable ws_set JACCARD
              (3 # 5)%Q prune_ordering (mkRow 1 "a b c d e f g h" []) Hkeys
              Hrow)
    as (Hpost & Hsize & _).
  split; [|split; [|exact Hsize]].
  - apply (Hpost 0%nat 1); by vm_compute.
  - apply (Hpost 1%nat 2); by vm_compute.
Defined.

Lemma edit_distance_join_witness :
  _edit_distance_join_split kitten_ltable kitten_rtable qgram2 1 OpLe None
    None true
  = Some [mkOutRow 1 1 [] (Some 0); mkOutRow 1 2 [] (Some 1)].
Proof.
  destruct (edit_distance_join_window_and_verification kitten_ltable
              kitten_rtable qgram2 1 OpLe None None true) as [Hrun _].
  - unfold candidates_in_range. apply (bool_decide_unpack _).
    by vm_compute.
  - rewrite Hrun. by vm_compute.
Defined.



End Witnesses.

(** ** The further properties at concrete inputs *)

Module MoreWitnesses.
Import SpecModel Scenarios.
Local Open Scope string_scope.

Local Ltac in_join_rows :=
  apply join_rows_NoDup_table;
  [apply (bool_decide_unpack _); by vm_compute|apply elem_of_cons; by left].

Lemma filter_pair_keeps_on_shared_prefix_token_witness :
  let self := mkPositionFilter ws_set JACCARD (1 # 2)%Q in
  filter_pair (K := Z) self "a b" "a b" = false
  /\ exists token,
       token ∈ py_slice_to (pair_ordered_tokens (K := Z) self "a b" "a b").1 2
       /\ token ∈ py_slice_to (pair_ordered_tokens (K := Z) self "a b" "a b").2
                    2.
Proof.
  intros self.
  assert (filter_pair (K := Z) self "a b" "a b" = false) as Hrun
    by by vm_compute.
  split; [exact Hrun|].
  destruct (filter_pair_keeps_on_shared_prefix_token (K := Z)
              (Collaborators0 := spec_collaborators) self "a b" "a b" Hrun)
    as (_ & _ & Hshared).
  exact Hshared.
Defined.



Lemma set_sim_join_pairs_share_prefix_token_witness :
  exists l_row r_row token,
    l_row ∈ dice_ltable /\ r_row ∈ dice_rtable
    /\ 1 = row_key l_row /\ 1 = row_key r_row
    /\ token ∈ index_prefix
                 (PositionIndex_init (join_rows dice_ltable) ws_set DICE
                    (1 # 2)%Q
                    (join_token_ordering dice_ltable dice_rtable ws_set DICE))
                 l_row
    /\ token ∈ py_slice_to
                 (join_ordered_tokens dice_ltable dice_rtable ws_set DICE r_row)
                 (get_prefix_length (K := Z)
                    (len (join_ordered_tokens dice_ltable dice_rtable ws_set
                            DICE r_row))
                    DICE (1 # 2)%Q ws_set).
Proof.
  apply (set_sim_join_pairs_share_prefix_token
           (Collaborators0 := spec_collaborators)
           dice_ltable dice_rtable ws_set DICE (1 # 2)%Q None None true
           [mkOutRow 1 1 [] (Some (1 # 2)%Q)]
           (mkOutRow 1 1 [] (Some (1 # 2)%Q))).
  - by vm_compute.
  - apply elem_of_cons. by left.
Defined.

Lemma set_sim_join_within_filter_tables_witness :
  exists filtered out',
    filter_tables (mkPositionFilter ws_set DICE (1 # 2)%Q) dice_ltable
      dice_rtable None None = Some filtered
    /\ out' ∈ filtered
    /\ out_l out' = 1 /\ out_r out' = 1.
Proof.
  apply (set_sim_join_within_filter_tables
           (Collaborators0 := spec_collaborators)
           dice_ltable dice_rtable ws_set DICE (1 # 2)%Q None None None None
           true [mkOutRow 1 1 [] (Some (1 # 2)%Q)]
           (mkOutRow 1 1 [] (Some (1 # 2)%Q))).
  - by vm_compute.
  - apply elem_of_cons. by left.
  - intros r_row Hin _. apply list_elem_of_singleton in Hin as ->. done.
Defined.

Lemma black_box_join_n_jobs_witness :
  exists rows,
    black_box_join exact_match kitten_ltable kitten_rtable 1%Q None None None
      true 2 = Some rows
    /\ rows ≡ₚ [mkOutRow 1 1 [] (Some 1%Q)].
Proof.
  apply (black_box_join_n_jobs (Collaborators0 := spec_collaborators)
           (DriverCollaborators0 := spec_driver_collaborators)
           exact_match kitten_ltable kitten_rtable 1%Q None None None true 2).
  - lia.
  - apply (bool_decide_unpack _). by vm_compute.
  - by vm_compute.
  - by vm_compute.
  - by vm_compute.
Defined.

Lemma find_candidates_count_at_most_shared_witness :
  let init :=
    PositionIndex_init dice_ltable ws_set DICE (1 # 2)%Q
      (join_token_ordering dice_ltable dice_rtable ws_set DICE) in
  0 <= 1
    <= len (filter (fun t => t ∈ py_slice_to [2; 3; 4; 5] 3)
                   (index_prefix init (mkRow 1 "a b c d" []))).
Proof.
  intros init.
  set (self := mkPositionFilter ws_set DICE (1 # 2)%Q).
  pose proof (find_candidates_sweep (K := Z) self [2; 3; 4; 5] 4 3
                (build init)) as Hrun.
  apply (find_candidates_count_at_most_shared
           (Collaborators0 := spec_collaborators)
           dice_ltable ws_set DICE (1 # 2)%Q
           (join_token_ordering dice_ltable dice_rtable ws_set DICE) self
           [2; 3; 4; 5] 4 3 (mkRow 1 "a b c d" [])
           (sweep self 4 (build init)
              (events_from (build init) 0 (py_slice_to [2; 3; 4; 5] 3)))
           1).
  - apply (bool_decide_unpack _). by vm_compute.
  - apply elem_of_cons. by left.
  - apply (bool_decide_unpack _). by vm_compute.
  - apply (bool_decide_unpack _). by vm_compute.
  - exact Hrun.
  - by vm_compute.
Defined.



Lemma set_sim_join_emits_ge_witness :
  Forall (emitted_ge dice_ltable dice_rtable ws_set DICE (1 # 2)%Q true)
         [mkOutRow 1 1 [] (Some (1 # 2)%Q)].
Proof.
  apply (set_sim_join_emits_ge (Collaborators0 := spec_collaborators)
           dice_ltable dice_rtable ws_set DICE (1 # 2)%Q None None true).
  by vm_compute.
Defined.


End MoreWitnesses.
